(** * tools/sync_i18n.py: synchronisation of localized .resx files

    A shallow embedding of [I18nSync] (tools/sync_i18n.py) and the
    properties of its diff / batch / reconcile / rewrite logic.

    Conventions of the embedding.
    - A Python [str] is a [string]; one [ascii] stands for one character.
    - Python values that reach the code through [json.loads] are [pyval].
    - A [dict] whose iteration order is observed (the base resources, the
      keys to translate, a request, a provider answer) is an
      insertion-ordered association list, [odict]; a [dict] that is only
      looked up and updated ([existing_resources], [all_resources]) is a
      [gmap].
    - The I18N directory is an association list from file names to file
      texts, in the order [os.listdir] enumerates it.  A file text is what
      is stored: a text-mode read translates its line ends
      ([Str.universal_newlines]), the XML parser reads it as it is, and a
      write stores the text as given (the line separator is the line feed).
    - [log], the provider calls and the file writes are recorded, in order,
      in a trace of [event]s.
    - The XML library (ElementTree parsing, ElementTree + minidom
      serialisation) and the translation provider are parameters. *)

From Stdlib Require Import ZArith Lia Ascii String List.
From stdpp Require Import base option list gmap strings.

Local Open Scope string_scope.
Local Open Scope list_scope.
Local Open Scope Z_scope.

(** ** Strings *)

Module Str.

Definition chars (s : string) : list ascii := list_ascii_of_string s.
Definition text (l : list ascii) : string := string_of_list_ascii l.

(** [str.isspace] on the characters of the model: tab, line feed, vertical
    tab, form feed, carriage return, the separators 0x1c-0x1f, space,
    0x85 and 0xa0. *)
Definition isspace (c : ascii) : bool :=
  let n := nat_of_ascii c in
  ((9 <=? n)%nat && (n <=? 13)%nat) || ((28 <=? n)%nat && (n <=? 32)%nat)
  || (n =? 133)%nat || (n =? 160)%nat.

Definition newline : ascii := ascii_of_nat 10.
Definition nl : string := String newline EmptyString.

Definition ascii_eqb (a b : ascii) : bool := bool_decide (a = b).

Fixpoint prefixb (p l : list ascii) : bool :=
  match p, l with
  | [], _ => true
  | a :: p', b :: l' => ascii_eqb a b && prefixb p' l'
  | _ :: _, [] => false
  end.

(** [s.startswith(p)] and [s.endswith(p)] *)
Definition startswith (s p : string) : bool := prefixb (chars p) (chars s).
Definition endswith (s p : string) : bool :=
  prefixb (rev (chars p)) (rev (chars s)).

Fixpoint lstrip (l : list ascii) : list ascii :=
  match l with
  | c :: l' => if isspace c then lstrip l' else l
  | [] => []
  end.

(** [s.strip()] *)
Definition strip (s : string) : string :=
  text (rev (lstrip (rev (lstrip (chars s))))).

Definition carriage_return : ascii := ascii_of_nat 13.

(** What a file opened with [open(path, 'r')] delivers of the stored
    characters: in text mode with the default [newline=None] a carriage
    return followed by a line feed, and a carriage return alone, are read
    as one line feed. *)
Fixpoint universal_newlines (l : list ascii) : list ascii :=
  match l with
  | [] => []
  | c :: l' =>
      if ascii_eqb c carriage_return then
        newline :: match l' with
                   | d :: l'' =>
                       if ascii_eqb d newline then universal_newlines l''
                       else universal_newlines l'
                   | [] => []
                   end
      else c :: universal_newlines l'
  end.

(** [f.read(n)] on a file opened for reading in text mode: the first [n]
    characters after the translation of the line ends *)
Definition read_prefix (n : nat) (s : string) : string :=
  text (take n (universal_newlines (chars s))).

(** truthiness of a [str] *)
Definition nonempty (s : string) : bool :=
  match s with EmptyString => false | _ => true end.

End Str.

(** ** Regular expressions

    The fragment of [re] the tool uses: literals, the classes [.], [\s] and
    [[\s\S]] under a greedy or lazy repetition, one capturing group, and
    concatenation.  [rx_run] enumerates the ways a pattern can match at the
    head of the input in the order in which a backtracking matcher tries
    them, so the first candidate is the match [re] reports. *)

Module Re.

Inductive cclass := Dot | Space | AnyChar.

Inductive regex :=
| Lit (s : string)
| Rep (greedy : bool) (least : nat) (c : cclass)
| Group (r : regex)
| Cat (r1 r2 : regex).

Definition in_class (c : cclass) (a : ascii) : bool :=
  match c with
  | Dot => negb (Str.ascii_eqb a Str.newline)
  | Space => Str.isspace a
  | AnyChar => true
  end.

(** length of the longest run of class characters at the head *)
Fixpoint run_length (c : cclass) (l : list ascii) : nat :=
  match l with
  | a :: l' => if in_class c a then S (run_length c l') else O
  | [] => O
  end.

Record candidate := Cand {
  matched : list ascii;
  rest : list ascii;
  group1 : option (list ascii)
}.

Definition rep_counts (greedy : bool) (least most : nat) : list nat :=
  let up := seq least (S most - least) in
  if greedy then rev up else up.

Fixpoint rx_run (r : regex) (l : list ascii) : list candidate :=
  match r with
  | Lit s =>
      let p := Str.chars s in
      if Str.prefixb p l then [Cand p (drop (length p) l) None] else []
  | Rep greedy least c =>
      (fun n => Cand (take n l) (drop n l) None)
        <$> rep_counts greedy least (run_length c l)
  | Group r' =>
      (fun k => Cand (matched k) (rest k) (Some (matched k))) <$> rx_run r' l
  | Cat r1 r2 =>
      k1 ← rx_run r1 l;
      (fun k2 => Cand (matched k1 ++ matched k2) (rest k2)
                      (match group1 k1 with
                       | Some g => Some g
                       | None => group1 k2
                       end))
        <$> rx_run r2 (rest k1)
  end.

(** [re.match(r, s)]: anchored at the start of [s] *)
Definition re_match (r : regex) (s : string) : option candidate :=
  head (rx_run r (Str.chars s)).

(** [re.search(r, s)]: the leftmost position with a match *)
Fixpoint search_from (r : regex) (l : list ascii) (fuel : nat) : option candidate :=
  match head (rx_run r l) with
  | Some k => Some k
  | None =>
      match fuel, l with
      | S fuel', _ :: l' => search_from r l' fuel'
      | _, _ => None
      end
  end.

Definition re_search (r : regex) (s : string) : option candidate :=
  search_from r (Str.chars s) (String.length s).

(** [m.group(1)] of a pattern whose group always takes part in a match *)
Definition group_1 (k : candidate) : string :=
  Str.text (default [] (group1 k)).

End Re.

Definition backtick3 : string :=
  let b := String (ascii_of_nat 96) EmptyString in b +:+ b +:+ b.

(** r'Strings\.(.+)\.resx' *)
Definition LOCALIZED_NAME_RE : Re.regex :=
  Re.Cat (Re.Lit "Strings.")
    (Re.Cat (Re.Group (Re.Rep true 1 Re.Dot)) (Re.Lit ".resx")).

(** r'<!--\s*(.+?)\s*-->' *)
Definition LANGUAGE_COMMENT_RE : Re.regex :=
  Re.Cat (Re.Lit "<!--")
    (Re.Cat (Re.Rep true 0 Re.Space)
       (Re.Cat (Re.Group (Re.Rep false 1 Re.Dot))
          (Re.Cat (Re.Rep true 0 Re.Space) (Re.Lit "-->")))).

(** r'^<\?xml .*\?>\n' *)
Definition XML_DECLARATION_RE : Re.regex :=
  Re.Cat (Re.Lit "<?xml ")
    (Re.Cat (Re.Rep true 0 Re.Dot) (Re.Lit ("?>" +:+ Str.nl))).

(** r'```json\s*([\s\S]+?)\s*```' *)
Definition JSON_FENCE_RE : Re.regex :=
  Re.Cat (Re.Lit (backtick3 +:+ "json"))
    (Re.Cat (Re.Rep true 0 Re.Space)
       (Re.Cat (Re.Group (Re.Rep false 1 Re.AnyChar))
          (Re.Cat (Re.Rep true 0 Re.Space) (Re.Lit backtick3)))).

(** Resources that should not be translated: the regular expressions
    r'SettingsSelectionItem_Common_Language_.*' *)
Definition NO_TRANSLATE_PATTERNS : list Re.regex :=
  [ Re.Cat (Re.Lit "SettingsSelectionItem_Common_Language_")
           (Re.Rep true 0 Re.Dot) ].

(** [any(re.match(pattern, key) for pattern in NO_TRANSLATE_PATTERNS)] *)
Definition no_translate (key : string) : bool :=
  existsb (fun pattern => bool_decide (is_Some (Re.re_match pattern key)))
          NO_TRANSLATE_PATTERNS.

(** ** Python values and dictionaries *)

#[local] Set Warnings "-register-all".

(** What [json.loads] can return ([None] is also the failure value of the
    provider).  Numbers are represented by integers. *)
Inductive pyval :=
| PNone
| PBool (b : bool)
| PInt (n : Z)
| PStr (s : string)
| PList (l : list pyval)
| PDict (items : list (string * pyval)).

(** [bool(v)], as in [if translations:] *)
Definition truthy (v : pyval) : bool :=
  match v with
  | PNone => false
  | PBool b => b
  | PInt n => negb (n =? 0)
  | PStr s => Str.nonempty s
  | PList l => match l with [] => false | _ => true end
  | PDict items => match items with [] => false | _ => true end
  end.

Inductive exn :=
| AttributeError | IndexError | KeyError | TypeError | ZeroDivisionError
| ExpatError.

(** Insertion-ordered dictionaries with [str] keys. *)
Module Od.
Section Ops.
Context {V : Type}.

Definition t := list (string * V).

Fixpoint get (d : list (string * V)) (k : string) : option V :=
  match d with
  | [] => None
  | (k', v) :: d' => if bool_decide (k' = k) then Some v else get d' k
  end.

(** [k in d] *)
Definition mem (d : list (string * V)) (k : string) : bool :=
  bool_decide (is_Some (get d k)).

(** [d[k] = v]: a present key keeps its position, a new key goes last *)
Fixpoint set (d : list (string * V)) (k : string) (v : V) : list (string * V) :=
  match d with
  | [] => [(k, v)]
  | (k', v') :: d' =>
      if bool_decide (k' = k) then (k', v) :: d' else (k', v') :: set d' k v
  end.

(** [list(d.keys())], also the order of [for k in d] *)
Definition keys (d : list (string * V)) : list string := d.*1.

(** [dict(pairs)] *)
Definition of_pairs (pairs : list (string * V)) : list (string * V) :=
  foldl (fun d kv => set d kv.1 kv.2) [] pairs.
End Ops.
End Od.

Abbreviation odict V := (list (string * V)) (only parsing).

(** Python's [l[a:b]] for integer bounds *)
Definition slice_index (len i : Z) : Z :=
  if i <? 0 then Z.max 0 (i + len) else Z.min i len.

Definition py_slice {A} (l : list A) (a b : Z) : list A :=
  let len := Z.of_nat (length l) in
  let a' := slice_index len a in
  let b' := slice_index len b in
  take (Z.to_nat (b' - a')) (drop (Z.to_nat a') l).

(** [range(n)] *)
Definition py_range (n : Z) : list Z := Z.of_nat <$> seq 0 (Z.to_nat n).

(** ** The XML library

    [et_data_nodes text] is what the reading functions see of
    [ET.parse(file)]: for every element of [root.findall("./data")] its
    [name] attribute and the text of its [value] child, or [None] when
    parsing raises [ParseError].  [pretty_xml headers data] is the text
    [ET.tostring] followed by [minidom] pretty printing produces for a
    [root] with the given [resheader] and [data] children, or [None] when
    the text is rejected ([ExpatError]). *)

Record data_node := DataNode {
  node_name : option string;             (* data_node.get("name") *)
  node_value : option (option string)    (* data_node.find("value"), its .text *)
}.

Class XmlLibrary := {
  et_data_nodes : string -> option (list data_node);
  pretty_xml : list (string * string) -> list (string * option string) -> option string
}.

(** ** The world: files, provider, log *)

Inductive message :=
| MsgBanner
| MsgBaseUrl (base_url : string)
| MsgModel (model_id : string)
| MsgI18nPath (i18n_path : string)
| MsgBaseNotFound (path : string)
| MsgReadingBase
| MsgFoundBase (n : nat)
| MsgProcessing (filename lang_name : string)
| MsgNoMissing
| MsgOrderSynchronized
| MsgFoundMissing (n : nat)
| MsgCopying (key : string)
| MsgTranslatingBatch (number num_batches : Z) (items : nat)
| WarnExistingKey (key : string)
| WarnUnexpectedKey (key : string)
| MsgBatchTranslated (number : Z)
| MsgBatchFailed (number : Z)
| MsgSaving
| MsgUpdated (filename : string)
| MsgComplete
| MsgParseError (basename : string)
| MsgApiError
| MsgJsonDecodeError
| MsgProblematicContent
| MsgTranslationFailed (max_retries : Z).

Inductive event :=
| Log (m : message)
(** [self._invoke_ai_translation(resources_to_translate, target_language)]
    and what it returned or raised *)
| Translate (resources_to_translate : odict string) (target_language : string)
            (result : exn + pyval)
(** a call [self._write_resx(file_path, resources, base_order, lang_comment)]
    that wrote its file *)
| WriteResx (file_path : string) (resources : gmap string pyval)
            (base_order : list string) (lang_comment : option string).

(** What a call of the provider does: the lines it logs and the value it
    returns or the exception it raises. *)
Record answer := Answer {
  answer_log : list message;
  answer_value : exn + pyval
}.

Record config := Config {
  base_url : string;
  model_id : string;
  batch_size : Z;
  max_retries : Z;
  i18n_path : string
}.

Section World.

(** [PS] is the state of the outside world the provider depends on. *)
Context {PS : Type}.

Record world := World {
  files : list (string * string);
  oracle : PS;
  trace : list event
}.

Definition M (A : Type) : Type := world -> (exn + A) * world.

Definition ret {A} (a : A) : M A := fun w => (inr a, w).
Definition raise {A} (e : exn) : M A := fun w => (inl e, w).
Definition bind {A B} (m : M A) (f : A -> M B) : M B :=
  fun w => match m w with
           | (inr a, w') => f a w'
           | (inl e, w') => (inl e, w')
           end.

Definition emit (e : event) : M unit :=
  fun w => (inr tt, World (files w) (oracle w) (trace w ++ [e])).

Definition log (m : message) : M unit := emit (Log m).

End World.

Arguments world : clear implicits.
Arguments M : clear implicits.

Declare Scope py_scope.
Delimit Scope py_scope with py.
Notation "x ← y ; z" := (bind y (fun x => z))
  (at level 20, y at level 100, z at level 200, only parsing) : py_scope.
Notation "' x ← y ; z" := (bind y (fun x => z))
  (at level 20, x pattern, y at level 100, z at level 200, only parsing) : py_scope.
Notation "x ;; z" := (bind x (fun _ => z))
  (at level 100, z at level 200, only parsing, right associativity) : py_scope.


(** ** class I18nSync *)

Definition dquote : string := String (ascii_of_nat 34) EmptyString.

(** '<?xml version="1.0" encoding="utf-8"?>\n' *)
Definition XML_DECLARATION : string :=
  "<?xml version=" +:+ dquote +:+ "1.0" +:+ dquote +:+ " encoding=" +:+ dquote
  +:+ "utf-8" +:+ dquote +:+ "?>" +:+ Str.nl.

(** the [headers] of [_write_resx] *)
Definition RESX_HEADERS : list (string * string) :=
  [ ("resmimetype", "text/microsoft-resx");
    ("version", "1.3");
    ("reader", "System.Resources.ResXResourceReader, System.Windows.Forms, Version=2.0.0.0, Culture=neutral, PublicKeyToken=b77a5c561934e089");
    ("writer", "System.Resources.ResXResourceWriter, System.Windows.Forms, Version=2.0.0.0, Culture=neutral, PublicKeyToken=b77a5c561934e089") ].

(** [os.path.join(self.i18n_path, "Strings.resx")]: the directory is the
    store, a path is the file name in it. *)
Definition base_resx_path : string := "Strings.resx".

(** [if name and value_node is not None: ... (name, value_node.text or "")] *)
Definition resource_of_node (n : data_node) : option (string * string) :=
  match node_name n, node_value n with
  | Some name, Some text =>
      if Str.nonempty name then Some (name, default "" text) else None
  | _, _ => None
  end.

(** [f"<!-- {lang_comment} -->\n"] under [if lang_comment:] *)
Definition comment_line (lang_comment : option string) : string :=
  match lang_comment with
  | Some c => if Str.nonempty c then "<!-- " +:+ c +:+ " -->" +:+ Str.nl else ""
  | None => ""
  end.

(** [re.sub(r'^<\?xml .*\?>\n', '', pretty_xml)] *)
Definition strip_declaration (pretty : string) : string :=
  match Re.re_match XML_DECLARATION_RE pretty with
  | Some k => Str.text (Re.rest k)
  | None => pretty
  end.

(** the [data] elements [_write_resx] appends: one per name of [base_order]
    that is in [resources], in that order *)
Definition data_entries (resources : gmap string pyval) (base_order : list string)
  : list (string * pyval) :=
  omap (fun name => (fun v => (name, v)) <$> resources !! name) base_order.

(** The [.text] of a [value] element as [ET.tostring] serialises it: a
    string is written, any other falsy value ([None], [0], [False], an
    empty list or dictionary) is skipped by the serialiser's [if text:]
    and leaves the element empty, and any other value raises. *)
Definition element_text (v : pyval) : exn + option string :=
  match v with
  | PStr s => inr (Some s)
  | _ => if truthy v then inl TypeError else inr None
  end.

Fixpoint element_texts (l : list (string * pyval)) : exn + list (string * option string) :=
  match l with
  | [] => inr []
  | (name, v) :: l' =>
      match element_text v with
      | inl e => inl e
      | inr t =>
          match element_texts l' with
          | inl e => inl e
          | inr ts => inr ((name, t) :: ts)
          end
      end
  end.

Section I18nSync.

Context {xml : XmlLibrary}.
Context {PS : Type}.

Open Scope py_scope.

(** The translation provider, the method [_invoke_ai_translation] as [run]
    sees it: from the state of the outside world, the request and the
    target language to an answer and the next state. *)
Variable provider : PS -> odict string -> string -> answer * PS.

Variable self : config.

Local Abbreviation M := (M PS).

Definition read_file (file_path : string) : M (option string) :=
  fun w => (inr (Od.get (files w) file_path), w).

(** [os.path.exists(file_path)] *)
Definition path_exists (file_path : string) : M bool :=
  fun w => (inr (Od.mem (files w) file_path), w).

(** [os.listdir(self.i18n_path)] *)
Definition listdir : M (list string) :=
  fun w => (inr (Od.keys (files w)), w).

(** [with open(file_path, 'w') as f: f.write(content)] *)
Definition write_file (file_path content : string) : M unit :=
  fun w => (inr tt, World (Od.set (files w) file_path content) (oracle w) (trace w)).

(** [d[k]] *)
Definition getitem {V} (d : odict V) (k : string) : M V :=
  match Od.get d k with
  | Some v => ret v
  | None => raise KeyError
  end.

(** [a // b] *)
Definition floordiv (a b : Z) : M Z :=
  if b =? 0 then raise ZeroDivisionError else ret (a / b).

(** [for a in l: s = body(a, s)] *)
Fixpoint for_each {A S} (l : list A) (body : A -> S -> M S) (s : S) : M S :=
  match l with
  | [] => ret s
  | a :: l' => s' ← body a s; for_each l' body s'
  end.

Definition _read_resx (file_path : string) : M (gmap string string) :=
  content ← read_file file_path;
  match content with
  | None => ret ∅
  | Some text =>
      match et_data_nodes text with
      | Some data =>
          ret (foldl (fun resources nv => <[nv.1 := nv.2]> resources) ∅
                     (omap resource_of_node data))
      | None => log (MsgParseError file_path);; ret ∅
      end
  end.

Definition _read_resx_ordered (file_path : string) : M (list (string * string)) :=
  content ← read_file file_path;
  match content with
  | None => ret []
  | Some text =>
      match et_data_nodes text with
      | Some data => ret (omap resource_of_node data)
      | None => log (MsgParseError file_path);; ret []
      end
  end.

(** [with open(file_path, 'r', encoding='utf-8') as f: content = f.read(200)]
    reads in text mode: [Str.read_prefix] is the first 200 characters
    after the translation of the line ends. *)
Definition _get_language_comment (file_path : string) : M (option string) :=
  content ← read_file file_path;
  match content with
  | None => ret None
  | Some text =>
      let content := Str.read_prefix 200 text in
      ret (match Re.re_search LANGUAGE_COMMENT_RE content with
           | Some m => Some (Str.strip (Re.group_1 m))
           | None => None
           end)
  end.

(** The text [_write_resx] puts in the file, when serialisation succeeds. *)
Definition resx_text (resources : gmap string pyval) (base_order : list string)
    (lang_comment : option string) : exn + string :=
  match element_texts (data_entries resources base_order) with
  | inl e => inl e
  | inr data =>
      match pretty_xml RESX_HEADERS data with
      | None => inl ExpatError
      | Some pretty =>
          inr (XML_DECLARATION +:+ comment_line lang_comment
               +:+ strip_declaration pretty)
      end
  end.

Definition _write_resx (file_path : string) (resources : gmap string pyval)
    (base_order : list string) (lang_comment : option string) : M unit :=
  match resx_text resources base_order lang_comment with
  | inl e => raise e
  | inr final_content =>
      write_file file_path final_content;;
      emit (WriteResx file_path resources base_order lang_comment)
  end.

(** the call [self._invoke_ai_translation(resources_to_translate,
    target_language)] *)
Definition call_provider (resources_to_translate : odict string)
    (target_language : string) : M pyval :=
  fun w =>
    let '(a, o) := provider (oracle w) resources_to_translate target_language in
    (answer_value a,
     World (files w) o
           (trace w ++ Translate resources_to_translate target_language
                                 (answer_value a)
                    :: (Log <$> answer_log a))).

(** [translations.items()] *)
Definition items (translations : pyval) : M (list (string * pyval)) :=
  match translations with
  | PDict kvs => ret kvs
  | _ => raise AttributeError
  end.

(** lines 258-264 of [run]: [for key, value in translations.items(): ...] *)
Definition merge_translations (to_translate : odict string)
    (translations : list (string * pyval)) (all_resources : gmap string pyval)
  : M (gmap string pyval) :=
  for_each translations
    (fun '(key, value) all_resources =>
       if bool_decide (is_Some (all_resources !! key)) then
         log (WarnExistingKey key);; ret all_resources
       else if negb (Od.mem to_translate key) then
         log (WarnUnexpectedKey key);; ret all_resources
       else ret (<[key := value]> all_resources))
    all_resources.

(** lines 249-252 of [run] *)
Definition batch_keys_of (keys_to_translate : list string) (i : Z) : list string :=
  let batch_start := i * batch_size self in
  let batch_end := batch_start + batch_size self in
  py_slice keys_to_translate batch_start batch_end.

(** [{key: to_translate[key] for key in batch_keys}] *)
Definition batch_resources_of (to_translate : odict string)
    (batch_keys : list string) : M (odict string) :=
  for_each batch_keys
    (fun key d => v ← getitem to_translate key; ret (Od.set d key v)) [].

(** lines 248-267 of [run]: the body of [for i in range(num_batches)] *)
Definition translate_batch (to_translate : odict string) (lang_name : string)
    (num_batches : Z) (i : Z) (all_resources : gmap string pyval)
  : M (gmap string pyval) :=
  let batch_keys := batch_keys_of (Od.keys to_translate) i in
  batch_resources ← batch_resources_of to_translate batch_keys;
  log (MsgTranslatingBatch (i + 1) num_batches (length batch_resources));;
  translations ← call_provider batch_resources lang_name;
  if truthy translations then
    kvs ← items translations;
    all_resources ← merge_translations to_translate kvs all_resources;
    log (MsgBatchTranslated (i + 1));;
    ret all_resources
  else
    log (MsgBatchFailed (i + 1));;
    ret all_resources.

(** lines 244-267 of [run]: [if to_translate: ...] *)
Definition translate_batches (to_translate : odict string) (lang_name : string)
    (all_resources : gmap string pyval) : M (gmap string pyval) :=
  match to_translate with
  | [] => ret all_resources
  | _ :: _ =>
      let keys_to_translate := Od.keys to_translate in
      num_batches ←
        floordiv (Z.of_nat (length keys_to_translate) + batch_size self - 1)
                 (batch_size self);
      for_each (py_range num_batches)
               (translate_batch to_translate lang_name num_batches)
               all_resources
  end.

(** lines 238-242 of [run]: the body of [for key in missing_keys] *)
Definition classify_key (base_resources : odict string) (key : string)
    (acc : gmap string pyval * odict string)
  : M (gmap string pyval * odict string) :=
  let '(all_resources, to_translate) := acc in
  if no_translate key then
    v ← getitem base_resources key;
    log (MsgCopying key);;
    ret (<[key := PStr v]> all_resources, to_translate)
  else
    v ← getitem base_resources key;
    ret (all_resources, Od.set to_translate key v).

(** lines 236-242 of [run]: [to_translate = {}; for key in missing_keys: ...] *)
Definition classify_missing (base_resources : odict string)
    (missing_keys : list string) (all_resources : gmap string pyval)
  : M (gmap string pyval * odict string) :=
  for_each missing_keys (classify_key base_resources) (all_resources, []).

(** lines 215-271 of [run]: the body of [for filename in localized_files] *)
Definition process_file (base_resources : odict string)
    (base_resource_keys : list string) (filename : string) : M unit :=
  let file_path := filename in
  match Re.re_match LOCALIZED_NAME_RE filename with
  | None => ret tt
  | Some m =>
      let lang_code := Re.group_1 m in
      lang_comment ← _get_language_comment file_path;
      let lang_name :=
        match lang_comment with
        | Some c => if Str.nonempty c then c else lang_code
        | None => lang_code
        end in
      log (MsgProcessing filename lang_name);;
      existing_resources ← _read_resx file_path;
      let all_resources : gmap string pyval := PStr <$> existing_resources in
      let missing_keys :=
        filter (fun key => existing_resources !! key = None)
               (Od.keys base_resources) in
      match missing_keys with
      | [] =>
          log MsgNoMissing;;
          _write_resx file_path all_resources base_resource_keys lang_comment;;
          log MsgOrderSynchronized
      | _ :: _ =>
          log (MsgFoundMissing (length missing_keys));;
          '(all_resources, to_translate) ←
            classify_missing base_resources missing_keys all_resources;
          all_resources ← translate_batches to_translate lang_name all_resources;
          log MsgSaving;;
          _write_resx file_path all_resources base_resource_keys lang_comment;;
          log (MsgUpdated filename)
      end
  end.

Definition run : M unit :=
  log MsgBanner;;
  log (MsgBaseUrl (base_url self));;
  log (MsgModel (model_id self));;
  log (MsgI18nPath (i18n_path self));;
  found ← path_exists base_resx_path;
  if negb found then
    log (MsgBaseNotFound base_resx_path)
  else
    log MsgReadingBase;;
    base_resources_ordered ← _read_resx_ordered base_resx_path;
    let base_resources := Od.of_pairs base_resources_ordered in
    let base_resource_keys := base_resources_ordered.*1 in
    log (MsgFoundBase (length base_resources));;
    names ← listdir;
    let localized_files :=
      filter (fun f => Str.startswith f "Strings." && Str.endswith f ".resx")
             names in
    for_each localized_files
             (fun filename _ => process_file base_resources base_resource_keys filename)
             tt;;
    log MsgComplete.

End I18nSync.

(** ** The provider: [_invoke_ai_translation]

    [create] is [self.client.chat.completions.create] with the prompt built
    from the request and the target language: it raises [APIError] or
    returns a response, of which the code reads the [message.content] of
    each choice ([None] when the message has no content).  [json_loads] is
    [json.loads], [None] standing for [JSONDecodeError]. *)

Module OpenAI.

Inductive completion :=
| RaiseAPIError
| Response (choices : list (option string)).

Section Provider.

Context {PS : Type}.
Variable create : PS -> odict string -> string -> completion * PS.
Variable json_loads : string -> option pyval.
Variable self : config.

(** the [try] block after [create] returned *)
Definition read_response (choices : list (option string)) : answer :=
  match choices with
  | [] => Answer [] (inl IndexError)
  | None :: _ => Answer [] (inl AttributeError)
  | Some content :: _ =>
      let content := Str.strip content in
      let content :=
        match Re.re_search JSON_FENCE_RE content with
        | Some m => Re.group_1 m
        | None => content
        end in
      match json_loads content with
      | Some v => Answer [] (inr v)
      | None =>
          Answer [MsgJsonDecodeError; MsgProblematicContent;
                  MsgTranslationFailed (max_retries self)]
                 (inr PNone)
      end
  end.

Definition _invoke_ai_translation (st : PS)
    (resources_to_translate : odict string) (target_language : string)
  : answer * PS :=
  match create st resources_to_translate target_language with
  | (RaiseAPIError, st') =>
      (Answer [MsgApiError; MsgTranslationFailed (max_retries self)]
              (inr PNone), st')
  | (Response choices, st') => (read_response choices, st')
  end.

End Provider.

End OpenAI.

(** [I18nSync(config).run()] with the provider of the source *)
Definition I18nSync_run {xml : XmlLibrary} {PS : Type}
    (create : PS -> odict string -> string -> OpenAI.completion * PS)
    (json_loads : string -> option pyval) (self : config) : M PS unit :=
  run (OpenAI._invoke_ai_translation create json_loads self) self.

(** ** A reference XML library

    A small instance of [XmlLibrary], used to run the tool on concrete
    directories: a printer for the layout of [toprettyxml(indent="    ")]
    and a reader for elements, attributes, character data, the five
    predefined entities, comments and processing instructions. *)

Module MiniXml.

Inductive xnode :=
| XText (s : list ascii)
| XElem (tag : list ascii) (attrs : list (list ascii * list ascii))
        (children : list xnode).

Definition lt : ascii := ascii_of_nat 60.
Definition gt : ascii := ascii_of_nat 62.
Definition amp : ascii := ascii_of_nat 38.
Definition dq : ascii := ascii_of_nat 34.
Definition sq : ascii := ascii_of_nat 39.
Definition slash : ascii := ascii_of_nat 47.
Definition eq_sign : ascii := ascii_of_nat 61.

Definition starts (p : string) (l : list ascii) : bool :=
  Str.prefixb (Str.chars p) l.

(** the input after the first occurrence of [p] *)
Fixpoint after (p : string) (l : list ascii) : option (list ascii) :=
  if starts p l then Some (drop (String.length p) l)
  else match l with
       | [] => None
       | _ :: l' => after p l'
       end.

Definition name_char (c : ascii) : bool :=
  negb (Str.isspace c || Str.ascii_eqb c gt || Str.ascii_eqb c slash
        || Str.ascii_eqb c eq_sign || Str.ascii_eqb c lt).

Fixpoint span (f : ascii -> bool) (l : list ascii) : list ascii * list ascii :=
  match l with
  | c :: l' => if f c then let '(a, b) := span f l' in (c :: a, b) else ([], l)
  | [] => ([], [])
  end.

Definition entities : list (string * ascii) :=
  [ ("amp;", amp); ("lt;", lt); ("gt;", gt); ("quot;", dq); ("apos;", sq) ].

(** the character an entity reference stands for, after its [&] *)
Definition entity (l : list ascii) : option (ascii * list ascii) :=
  (fun e => (e.2, drop (String.length e.1) l))
    <$> head (List.filter (fun e => starts e.1 l) entities).

Definition skip_ws (l : list ascii) : list ascii := Str.lstrip l.

(** character data of an attribute value, up to the closing quote [q] *)
Fixpoint attr_value (fuel : nat) (q : ascii) (l : list ascii)
  : option (list ascii * list ascii) :=
  match fuel, l with
  | S fuel', c :: l' =>
      if Str.ascii_eqb c q then Some ([], l')
      else if Str.ascii_eqb c lt then None
      else if Str.ascii_eqb c amp then
        '(d, l'') ← entity l';
        '(v, r) ← attr_value fuel' q l'';
        Some (d :: v, r)
      else
        '(v, r) ← attr_value fuel' q l';
        Some (c :: v, r)
  | _, _ => None
  end.

(** the attributes of a start tag and whether it is self-closing *)
Fixpoint attributes (fuel : nat) (l : list ascii)
  : option (list (list ascii * list ascii) * bool * list ascii) :=
  match fuel with
  | O => None
  | S fuel' =>
      let l := skip_ws l in
      if starts "/>" l then Some ([], true, drop 2 l)
      else if starts ">" l then Some ([], false, drop 1 l)
      else
        let '(name, r) := span name_char l in
        match name, skip_ws r with
        | _ :: _, e :: r' =>
            if Str.ascii_eqb e eq_sign then
              match skip_ws r' with
              | q :: r'' =>
                  if Str.ascii_eqb q dq || Str.ascii_eqb q sq then
                    '(v, r3) ← attr_value fuel' q r'';
                    '(more, closed, r4) ← attributes fuel' r3;
                    Some ((name, v) :: more, closed, r4)
                  else None
              | [] => None
              end
            else None
        | _, _ => None
        end
  end.

Inductive token :=
| TOpen (tag : list ascii) (attrs : list (list ascii * list ascii)) (closed : bool)
| TClose (tag : list ascii)
| TText (s : list ascii).

Definition flush (acc : list ascii) (ts : list token) : list token :=
  match acc with
  | [] => ts
  | _ => TText (rev acc) :: ts
  end.

(** [acc] is the pending character data, reversed *)
Fixpoint tokens (fuel : nat) (l : list ascii) (acc : list ascii)
  : option (list token) :=
  match fuel, l with
  | _, [] => Some (flush acc [])
  | O, _ => None
  | S fuel', c :: l' =>
      if starts "<!--" l then r ← after "-->" (drop 4 l); tokens fuel' r acc
      else if starts "<?" l then r ← after "?>" (drop 2 l); tokens fuel' r acc
      else if starts "</" l then
        let '(name, r) := span name_char (drop 2 l) in
        match skip_ws r with
        | g :: r' =>
            if Str.ascii_eqb g gt then
              ts ← tokens fuel' r' []; Some (flush acc (TClose name :: ts))
            else None
        | [] => None
        end
      else if Str.ascii_eqb c lt then
        let '(name, r) := span name_char l' in
        match name with
        | [] => None
        | _ =>
            '(attrs, closed, r') ← attributes fuel' r;
            ts ← tokens fuel' r' [];
            Some (flush acc (TOpen name attrs closed :: ts))
        end
      else if Str.ascii_eqb c amp then
        '(d, r) ← entity l'; tokens fuel' r (d :: acc)
      else tokens fuel' l' (c :: acc)
  end.

(** A frame of the element stack: an open element and its children so
    far, reversed.  The bottom frame holds the document. *)
Definition frame : Type :=
  list ascii * list (list ascii * list ascii) * list xnode.

Definition add_child (n : xnode) (st : list frame) : option (list frame) :=
  match st with
  | (tag, attrs, cs) :: st' => Some ((tag, attrs, n :: cs) :: st')
  | [] => None
  end.

Definition build_step (st : option (list frame)) (t : token) : option (list frame) :=
  st ← st;
  match t with
  | TText s => add_child (XText s) st
  | TOpen tag attrs true => add_child (XElem tag attrs []) st
  | TOpen tag attrs false => Some ((tag, attrs, []) :: st)
  | TClose tag =>
      match st with
      | (tag', attrs, cs) :: ((_ :: _) as st') =>
          if bool_decide (tag = tag') then add_child (XElem tag' attrs (rev cs)) st'
          else None
      | _ => None
      end
  end.

Definition is_element (n : xnode) : bool :=
  match n with XElem _ _ _ => true | XText _ => false end.

Definition blank (n : xnode) : bool :=
  match n with XText s => forallb Str.isspace s | XElem _ _ _ => false end.

(** the document element *)
Definition parse (text : string) : option xnode :=
  ts ← tokens (S (String.length text)) (Str.chars text) [];
  st ← foldl build_step (Some [([], [], [])]) ts;
  match st with
  | [(_, _, cs)] =>
      match List.filter is_element cs with
      | [root] => if forallb (fun n => is_element n || blank n) cs then Some root else None
      | _ => None
      end
  | _ => None
  end.

Definition children_named (tag : string) (n : xnode) : list xnode :=
  match n with
  | XElem _ _ cs =>
      List.filter (fun c => match c with
                       | XElem t _ _ => bool_decide (t = Str.chars tag)
                       | XText _ => false
                       end) cs
  | XText _ => []
  end.

(** [element.get(name)] *)
Definition attribute (name : string) (n : xnode) : option string :=
  match n with
  | XElem _ attrs _ =>
      (fun a => Str.text a.2)
        <$> head (List.filter (fun a => bool_decide (a.1 = Str.chars name)) attrs)
  | XText _ => None
  end.

(** [element.text] *)
Definition text_of (n : xnode) : option string :=
  match n with
  | XElem _ _ (XText s :: _) => Some (Str.text s)
  | _ => None
  end.

Definition data_nodes (text : string) : option (list data_node) :=
  root ← parse text;
  Some ((fun d => DataNode (attribute "name" d)
                           (text_of <$> head (children_named "value" d)))
          <$> children_named "data" root).

Definition carriage_return : ascii := ascii_of_nat 13.

Definition legal (c : ascii) : bool :=
  let n := nat_of_ascii c in
  (32 <=? n)%nat || (n =? 9)%nat || (n =? 10)%nat || (n =? 13)%nat.

Definition escape (in_attribute : bool) (s : string) : string :=
  Str.text
    (c ← Str.chars s;
     if Str.ascii_eqb c amp then Str.chars "&amp;"
     else if Str.ascii_eqb c lt then Str.chars "&lt;"
     else if Str.ascii_eqb c gt then Str.chars "&gt;"
     else if in_attribute && Str.ascii_eqb c dq then Str.chars "&quot;"
     else if Str.ascii_eqb c carriage_return then [Str.newline]
     else [c]).

Definition indent : string := "    ".

Definition value_element (v : option string) : string :=
  match v with
  | Some (String _ _ as s) =>
      indent +:+ indent +:+ "<value>" +:+ escape false s +:+ "</value>" +:+ Str.nl
  | _ => indent +:+ indent +:+ "<value/>" +:+ Str.nl
  end.

Definition header_element (h : string * string) : string :=
  indent +:+ "<resheader name=" +:+ dquote +:+ escape true h.1 +:+ dquote +:+ ">"
  +:+ Str.nl +:+ value_element (Some h.2) +:+ indent +:+ "</resheader>" +:+ Str.nl.

Definition data_element (d : string * option string) : string :=
  indent +:+ "<data name=" +:+ dquote +:+ escape true d.1 +:+ dquote
  +:+ " xml:space=" +:+ dquote +:+ "preserve" +:+ dquote +:+ ">" +:+ Str.nl
  +:+ value_element d.2 +:+ indent +:+ "</data>" +:+ Str.nl.

Definition concat_strings (l : list string) : string :=
  foldr String.append "" l.

Definition all_legal (s : string) : bool := forallb legal (Str.chars s).

Definition pretty (headers : list (string * string))
    (data : list (string * option string)) : option string :=
  if forallb (fun h => all_legal h.1 && all_legal h.2) headers
     && forallb (fun d => all_legal d.1 && all_legal (default "" d.2)) data
  then Some (XML_DECLARATION +:+ "<root>" +:+ Str.nl
             +:+ concat_strings (header_element <$> headers)
             +:+ concat_strings (data_element <$> data)
             +:+ "</root>" +:+ Str.nl)
  else None.

Definition library : XmlLibrary :=
  {| et_data_nodes := data_nodes; pretty_xml := pretty |}.

End MiniXml.


(** * Properties *)

(** ** Ordered dictionaries *)

Module OdFacts.
Section Facts.
Context {V : Type}.
Implicit Types (d : list (string * V)) (k : string) (v : V).

Lemma get_set_eq d k v : Od.get (Od.set d k v) k = Some v.
Proof.
  induction d as [|[k' v'] d IH]; simpl.
  - by rewrite bool_decide_eq_true_2.
  - destruct (bool_decide (k' = k)) eqn:E; simpl; rewrite E; auto.
Qed.

Lemma get_set_ne d k k' v : k ≠ k' → Od.get (Od.set d k v) k' = Od.get d k'.
Proof.
  intros Hne. induction d as [|[k1 v1] d IH]; simpl.
  - by rewrite bool_decide_eq_false_2.
  - destruct (bool_decide (k1 = k)) eqn:E; simpl.
    + apply bool_decide_eq_true_1 in E as ->.
      by rewrite !bool_decide_eq_false_2.
    + by rewrite IH.
Qed.

Lemma set_id d k v : Od.get d k = Some v → Od.set d k v = d.
Proof.
  induction d as [|[k' v'] d IH]; simpl; [done|].
  destruct (bool_decide (k' = k)) eqn:E.
  - by intros [= ->].
  - intros H. by rewrite IH.
Qed.

Lemma get_Some_elem d k v : Od.get d k = Some v → (k, v) ∈ d.
Proof.
  induction d as [|[k' v'] d IH]; simpl; [done|].
  destruct (bool_decide (k' = k)) eqn:E.
  - apply bool_decide_eq_true_1 in E as ->. intros [= ->]. left.
  - intros H. right. auto.
Qed.

Lemma elem_keys_get d k : k ∈ Od.keys d ↔ is_Some (Od.get d k).
Proof.
  unfold Od.keys. induction d as [|[k' v'] d IH]; simpl.
  - split; [by intros ?%elem_of_nil | by intros [? ?]].
  - rewrite elem_of_cons, IH. destruct (bool_decide (k' = k)) eqn:E.
    + apply bool_decide_eq_true_1 in E. split; [by eauto | by left].
    + apply bool_decide_eq_false_1 in E. split; [|by right].
      intros [?|?]; [congruence | done].
Qed.

Lemma mem_keys d k : Od.mem d k = true ↔ k ∈ Od.keys d.
Proof. unfold Od.mem. by rewrite bool_decide_eq_true, elem_keys_get. Qed.

Lemma keys_set d k v :
  Od.keys (Od.set d k v) = if Od.mem d k then Od.keys d else Od.keys d ++ [k].
Proof.
  unfold Od.keys, Od.mem. induction d as [|[k' v'] d IH]; csimpl; [done|].
  destruct (bool_decide (k' = k)) eqn:E; csimpl.
  - done.
  - rewrite IH. by destruct (bool_decide (is_Some (Od.get d k))).
Qed.

Lemma keys_set_elem d k v k' :
  k' ∈ Od.keys (Od.set d k v) ↔ k' = k ∨ k' ∈ Od.keys d.
Proof.
  rewrite keys_set. destruct (Od.mem d k) eqn:E.
  - apply mem_keys in E. split; [by right | by intros [->|?]].
  - rewrite elem_of_app, list_elem_of_singleton. tauto.
Qed.

Lemma keys_set_NoDup d k v : NoDup (Od.keys d) → NoDup (Od.keys (Od.set d k v)).
Proof.
  intros Hd. rewrite keys_set. destruct (Od.mem d k) eqn:E; [done|].
  apply NoDup_app. split_and!; [done| |apply NoDup_singleton].
  intros x Hx ->%list_elem_of_singleton.
  apply mem_keys in Hx. congruence.
Qed.

Lemma of_pairs_NoDup (l : list (string * V)) : NoDup (Od.keys (Od.of_pairs l)).
Proof.
  unfold Od.of_pairs.
  cut (∀ d0 : list (string * V), NoDup (Od.keys d0) →
         NoDup (Od.keys (foldl (fun d kv => Od.set d kv.1 kv.2) d0 l))).
  { intros H. apply H. constructor. }
  induction l as [|[k v] l IH]; intros d0 H0; simpl; [done|].
  apply IH. by apply keys_set_NoDup.
Qed.

Lemma of_pairs_keys (l : list (string * V)) k :
  k ∈ Od.keys (Od.of_pairs l) ↔ k ∈ l.*1.
Proof.
  unfold Od.of_pairs.
  cut (∀ d0 : list (string * V),
         k ∈ Od.keys (foldl (fun d kv => Od.set d kv.1 kv.2) d0 l)
         ↔ k ∈ Od.keys d0 ∨ k ∈ l.*1).
  { intros H. rewrite H. unfold Od.keys. simpl. rewrite elem_of_nil. tauto. }
  induction l as [|[k1 v1] l IH]; intros d0; simpl.
  - rewrite elem_of_nil. tauto.
  - rewrite IH, keys_set_elem, elem_of_cons. tauto.
Qed.

End Facts.
End OdFacts.

(** ** Consecutive chunks of a list *)

Section Chunks.

Context {A : Type}.
Implicit Types (l : list A) (n m i : nat).

(** the [i]-th run of [n] elements *)
Definition chunk n l i : list A := take n (drop (i * n) l).

Lemma concat_chunks n l m : concat (chunk n l <$> seq 0 m) = take (m * n) l.
Proof.
  induction m as [|m IH]; [done|].
  rewrite seq_S, fmap_app, concat_app, IH. simpl. rewrite app_nil_r.
  unfold chunk. rewrite take_take_drop. f_equal. lia.
Qed.

Lemma length_chunk n l i : length (chunk n l i) = (n `min` (length l - i * n))%nat.
Proof. unfold chunk. by rewrite length_take, length_drop. Qed.

Lemma py_slice_chunk l n i :
  py_slice l (Z.of_nat i * Z.of_nat n) (Z.of_nat i * Z.of_nat n + Z.of_nat n)
  = chunk n l i.
Proof.
  unfold py_slice, slice_index, chunk.
  rewrite <- Nat2Z.inj_mul. generalize (i * n)%nat. intros a.
  destruct (Z.ltb_spec (Z.of_nat a) 0) as [?|_]; [lia|].
  destruct (Z.ltb_spec (Z.of_nat a + Z.of_nat n) 0) as [?|_]; [lia|].
  destruct (decide (a ≤ length l)%nat) as [Hle|Hgt].
  - replace (Z.to_nat (Z.of_nat a `min` Z.of_nat (length l))) with a by lia.
    destruct (decide (n ≤ length l - a)%nat) as [Hn|Hn].
    + f_equal. lia.
    + rewrite !take_ge; [done| |]; rewrite length_drop; lia.
  - rewrite !drop_ge by lia. by rewrite !take_nil.
Qed.

Lemma elem_of_concat (L : list (list A)) x :
  x ∈ concat L ↔ ∃ b, b ∈ L ∧ x ∈ b.
Proof.
  induction L as [|b L IH]; simpl.
  - split; [by intros ?%elem_of_nil | by intros (b & ?%elem_of_nil & _)].
  - rewrite elem_of_app, IH. split.
    + intros [H|(b' & H1 & H2)]; [exists b; split; [left|done]|].
      exists b'. split; [by right|done].
    + intros (b' & [->|H1]%elem_of_cons & H2); [by left|]. right. eauto.
Qed.

(** A key of a duplicate-free list lies in one chunk only. *)
Lemma concat_NoDup_unique (L : list (list A)) i j bi bj x :
  NoDup (concat L) → L !! i = Some bi → L !! j = Some bj →
  x ∈ bi → x ∈ bj → i = j.
Proof.
  revert i j. induction L as [|b L IH]; intros i j Hnd Hi Hj Hxi Hxj; [done|].
  simpl in Hnd. apply NoDup_app in Hnd as (_ & Hdis & Hnd).
  assert (∀ k bk, L !! k = Some bk → x ∈ bk → x ∈ concat L) as Hin.
  { intros k bk Hk Hx. apply elem_of_concat. exists bk. split; [|done].
    by eapply list_elem_of_lookup_2. }
  destruct i as [|i], j as [|j]; simpl in *.
  - done.
  - injection Hi as <-. destruct (Hdis x Hxi). by eapply Hin.
  - injection Hj as <-. destruct (Hdis x Hxj). by eapply Hin.
  - f_equal. by eapply IH.
Qed.

End Chunks.

(** ** Reasoning about the monad *)

Section Reasoning.

Context {xml : XmlLibrary}.
Context {PS : Type}.
Variable provider : PS -> odict string -> string -> answer * PS.
Variable self : config.

Local Abbreviation M := (M PS).
Local Abbreviation world := (world PS).

Open Scope py_scope.

Definition add_events (w : world) (evs : list event) : world :=
  World (files w) (oracle w) (trace w ++ evs).

(** [wp m Φ w]: running [m] from [w] ends in a result and a world that
    satisfy [Φ]. *)
Definition wp {A} (m : M A) (Φ : exn + A -> world -> Prop) (w : world) : Prop :=
  Φ (m w).1 (m w).2.

Lemma wp_ret {A} (a : A) Φ w : Φ (inr a) w → wp (ret a) Φ w.
Proof. done. Qed.

Lemma wp_raise {A} e (Φ : exn + A -> world -> Prop) w :
  Φ (inl e) w → wp (raise e) Φ w.
Proof. done. Qed.

Lemma wp_bind {A B} (m : M A) (f : A -> M B) Φ w :
  wp m (fun r w' => match r with
                    | inr a => wp (f a) Φ w'
                    | inl e => Φ (inl e) w'
                    end) w →
  wp (bind m f) Φ w.
Proof.
  unfold wp, bind. destruct (m w) as [[e|a] w']; simpl; auto.
Qed.

Lemma wp_mono {A} (m : M A) (Φ Ψ : exn + A -> world -> Prop) w :
  wp m Φ w → (∀ r w', Φ r w' → Ψ r w') → wp m Ψ w.
Proof. unfold wp. auto. Qed.

Lemma wp_emit e Φ w : Φ (inr tt) (add_events w [e]) → wp (emit e) Φ w.
Proof. done. Qed.

Lemma wp_log m Φ w : Φ (inr tt) (add_events w [Log m]) → wp (log m) Φ w.
Proof. done. Qed.

(** The loop rule: [I done s w] holds after the iterations over [done]. *)
Lemma wp_for_each {A S} (I : list A -> S -> world -> Prop)
    (l : list A) (body : A -> S -> M S) (Φ : exn + S -> world -> Prop) s w :
  I [] s w →
  (∀ done a rest s w, l = done ++ a :: rest → I done s w →
     wp (body a s) (fun r w' => match r with
                                | inr s' => I (done ++ [a]) s' w'
                                | inl e => Φ (inl e) w'
                                end) w) →
  (∀ s w, I l s w → Φ (inr s) w) →
  wp (for_each l body s) Φ w.
Proof.
  intros H0 Hbody Hend.
  cut (∀ todo done s w, l = done ++ todo → I done s w →
         wp (for_each todo body s) Φ w).
  { intros H. by apply (H l []). }
  clear s w H0. induction todo as [|a todo IH]; intros done s w Hl HI.
  - simpl. apply wp_ret, Hend. by rewrite Hl, app_nil_r.
  - simpl. apply wp_bind.
    eapply wp_mono; [by eapply Hbody|].
    intros [e|s'] w'; [done|]. intros HI'.
    apply (IH (done ++ [a])); [|done]. by rewrite <- app_assoc.
Qed.

Lemma add_events_nil w : add_events w [] = w.
Proof. destruct w. unfold add_events. simpl. by rewrite app_nil_r. Qed.

Lemma add_events_app w e1 e2 :
  add_events (add_events w e1) e2 = add_events w (e1 ++ e2).
Proof. unfold add_events. simpl. by rewrite app_assoc. Qed.

(** *** The reconciliation loop *)

Definition warnings_only (new : list event) : Prop :=
  ∀ e, e ∈ new → ∃ k, e = Log (WarnExistingKey k) ∨ e = Log (WarnUnexpectedKey k).

(** What one answer [kvs] does to [all_resources]. *)
Record merged (to_translate : odict string) (kvs : list (string * pyval))
    (all all' : gmap string pyval) (new : list event) : Prop := {
  merged_warnings : warnings_only new;
  merged_keeps : all ⊆ all';
  merged_origin : ∀ k v, all' !! k = Some v → all !! k = None →
                    k ∈ Od.keys to_translate ∧ (k, v) ∈ kvs;
  merged_takes : ∀ k, k ∈ kvs.*1 → k ∈ Od.keys to_translate → is_Some (all' !! k);
  merged_existing : ∀ k, k ∈ kvs.*1 → is_Some (all !! k) →
                      Log (WarnExistingKey k) ∈ new;
  merged_unexpected : ∀ k, k ∈ kvs.*1 → all !! k = None →
                        k ∉ Od.keys to_translate →
                        Log (WarnUnexpectedKey k) ∈ new
}.

Lemma merge_translations_cons to_translate k v kvs all w :
  merge_translations to_translate ((k, v) :: kvs) all w =
  if bool_decide (is_Some (all !! k)) then
    merge_translations to_translate kvs all (add_events w [Log (WarnExistingKey k)])
  else if Od.mem to_translate k then
    merge_translations to_translate kvs (<[k:=v]> all) w
  else
    merge_translations to_translate kvs all (add_events w [Log (WarnUnexpectedKey k)]).
Proof.
  unfold merge_translations. simpl. unfold bind at 1.
  destruct (bool_decide (is_Some (all !! k))); [done|].
  by destruct (Od.mem to_translate k).
Qed.

Lemma merge_translations_spec to_translate kvs all w :
  ∃ all' new,
    merge_translations to_translate kvs all w = (inr all', add_events w new)
    ∧ merged to_translate kvs all all' new.
Proof.
  revert all w. induction kvs as [|[k1 v1] kvs IH]; intros all w.
  - exists all, []. rewrite add_events_nil. split; [done|].
    split; try done.
    + by intros e ?%elem_of_nil.
    + intros k v H1 H2. congruence.
    + by intros k ?%elem_of_nil.
    + by intros k ?%elem_of_nil.
    + by intros k ?%elem_of_nil.
  - rewrite merge_translations_cons.
    destruct (bool_decide (is_Some (all !! k1))) eqn:Hex.
    { (* already existing *)
      apply bool_decide_eq_true_1 in Hex. simpl.
      destruct (IH all (add_events w [Log (WarnExistingKey k1)]))
        as (all' & new & Heq & HM).
      rewrite Heq.
      exists all', (Log (WarnExistingKey k1) :: new).
      split. { by rewrite add_events_app. }
      destruct HM. split.
      - intros e [->|He]%elem_of_cons; eauto.
      - done.
      - intros k v H1 H2. destruct (merged_origin0 k v H1 H2). split; [done|by right].
      - intros k [->|Hk]%elem_of_cons Ht; csimpl in *.
        + destruct Hex as [x Hx]. exists x. by eapply lookup_weaken.
        + auto.
      - intros k [->|Hk]%elem_of_cons Hs; csimpl in *; [left|right; auto].
      - intros k [->|Hk]%elem_of_cons Hn Ht; csimpl in *.
        + rewrite Hn in Hex. by destruct Hex.
        + right. auto. }
    apply bool_decide_eq_false_1 in Hex.
    assert (all !! k1 = None) as Hnone.
    { destruct (all !! k1) eqn:E; [|done]. destruct Hex. eauto. }
    destruct (Od.mem to_translate k1) eqn:Hmem; simpl.
    + (* accepted *)
      destruct (IH (<[k1:=v1]> all) w) as (all' & new & Heq & HM).
      rewrite Heq.
      exists all', new. split; [done|].
      apply OdFacts.mem_keys in Hmem.
      destruct HM. split.
      * done.
      * transitivity (<[k1:=v1]> all); [by apply insert_subseteq | done].
      * intros k v H1 H2. destruct (decide (k = k1)) as [->|Hne].
        -- split; [done|].
           assert (all' !! k1 = Some v1) as H3.
           { eapply lookup_weaken; [|done]. apply lookup_insert_eq. }
           assert (v = v1) as -> by congruence. left.
        -- destruct (merged_origin0 k v H1) as [? ?].
           { by rewrite lookup_insert_ne. }
           split; [done|by right].
      * intros k [->|Hk]%elem_of_cons Ht; csimpl in *.
        -- exists v1. eapply lookup_weaken; [|done]. apply lookup_insert_eq.
        -- auto.
      * intros k [->|Hk]%elem_of_cons Hs; csimpl in *.
        -- rewrite Hnone in Hs. by destruct Hs.
        -- apply merged_existing0; [done|].
           destruct Hs as [x Hx]. exists x.
           rewrite lookup_insert_ne; [done|]. intros ->. congruence.
      * intros k [->|Hk]%elem_of_cons Hn Ht; csimpl in *; [done|].
        apply merged_unexpected0; [done| |done].
        rewrite lookup_insert_ne; [done|]. by intros ->.
    + (* unexpected *)
      destruct (IH all (add_events w [Log (WarnUnexpectedKey k1)]))
        as (all' & new & Heq & HM).
      rewrite Heq.
      exists all', (Log (WarnUnexpectedKey k1) :: new).
      split. { by rewrite add_events_app. }
      assert (k1 ∉ Od.keys to_translate) as Hnot.
      { intros ?%OdFacts.mem_keys. congruence. }
      destruct HM. split.
      * intros e [->|He]%elem_of_cons; eauto.
      * done.
      * intros k v H1 H2. destruct (merged_origin0 k v H1 H2). split; [done|by right].
      * intros k [->|Hk]%elem_of_cons Ht; csimpl in *; [done|auto].
      * intros k [->|Hk]%elem_of_cons Hs; csimpl in *.
        -- rewrite Hnone in Hs. by destruct Hs.
        -- right. auto.
      * intros k [->|Hk]%elem_of_cons Hn Ht; csimpl in *; [left|right; auto].
Qed.

(** *** One batch *)

Lemma py_slice_subseteq {A} (l : list A) a b : py_slice l a b ⊆ l.
Proof.
  unfold py_slice. intros x Hx.
  apply subseteq_take in Hx. by apply subseteq_drop in Hx.
Qed.

Lemma py_slice_NoDup {A} (l : list A) a b : NoDup l → NoDup (py_slice l a b).
Proof.
  unfold py_slice. intros H.
  eapply sublist_NoDup; [|apply sublist_take].
  eapply sublist_NoDup; [done|apply sublist_drop].
Qed.

Lemma batch_resources_spec to_translate batch_keys (w : world) :
  batch_keys ⊆ Od.keys to_translate →
  ∃ d, batch_resources_of to_translate batch_keys w = (inr d, w)
       ∧ (∀ k, k ∈ Od.keys d ↔ k ∈ batch_keys)
       ∧ (∀ k v, Od.get d k = Some v → Od.get to_translate k = Some v)
       ∧ (NoDup batch_keys → Od.keys d = batch_keys).
Proof.
  unfold batch_resources_of. intros Hsub.
  cut (∀ d0 : list (string * string),
         ∃ d, for_each batch_keys
                (fun key d => v ← getitem to_translate key; ret (Od.set d key v))
                d0 w = (inr d, w)
              ∧ (∀ k, k ∈ Od.keys d ↔ k ∈ Od.keys d0 ∨ k ∈ batch_keys)
              ∧ (∀ k v, Od.get d k = Some v →
                   Od.get d0 k = Some v ∨ Od.get to_translate k = Some v)
              ∧ (NoDup (Od.keys d0 ++ batch_keys) →
                   Od.keys d = Od.keys d0 ++ batch_keys)).
  { intros H. destruct (H []) as (d & Heq & Hk & Hv & Hn). exists d.
    split_and!; [done| | |].
    - intros k. rewrite Hk. unfold Od.keys at 1. simpl. rewrite elem_of_nil. tauto.
    - intros k v Hg. by destruct (Hv k v Hg).
    - intros Hnd. by apply Hn. }
  induction batch_keys as [|key keys IH]; intros d0.
  - exists d0. split_and!; [done| | |].
    + intros k. rewrite elem_of_nil. tauto.
    + auto.
    + by rewrite app_nil_r.
  - assert (is_Some (Od.get to_translate key)) as [v Hv].
    { apply OdFacts.elem_keys_get, Hsub. left. }
    destruct (IH (λ x Hx, Hsub x (list_elem_of_further _ _ _ Hx)) (Od.set d0 key v))
      as (d & Heq & Hk & Hg & Hn).
    exists d. split_and!.
    + simpl. unfold bind at 1, getitem. rewrite Hv. simpl. apply Heq.
    + intros k. rewrite Hk, OdFacts.keys_set_elem, elem_of_cons. tauto.
    + intros k v' Hd. destruct (Hg k v' Hd) as [H1|H1]; [|by right].
      destruct (decide (key = k)) as [->|Hne].
      * rewrite OdFacts.get_set_eq in H1. right. congruence.
      * rewrite OdFacts.get_set_ne in H1 by done. by left.
    + intros Hnd. rewrite Hn.
      * rewrite OdFacts.keys_set.
        destruct (Od.mem d0 key) eqn:E.
        -- apply OdFacts.mem_keys in E. apply NoDup_app in Hnd as (_ & Hd & _).
           destruct (Hd key E). left.
        -- by rewrite <- app_assoc.
      * rewrite OdFacts.keys_set.
        destruct (Od.mem d0 key) eqn:E.
        -- apply OdFacts.mem_keys in E. apply NoDup_app in Hnd as (_ & Hd & _).
           destruct (Hd key E). left.
        -- by rewrite <- app_assoc.
Qed.

Definition logs_only (l : list event) : Prop := ∀ e, e ∈ l → ∃ m, e = Log m.

Definition is_dict (v : pyval) : bool :=
  match v with PDict _ => true | _ => false end.

(** An answer [run] can work with: a value that is falsy or a [dict]. *)
Definition usable (a : exn + pyval) : bool :=
  match a with
  | inr v => negb (truthy v) || is_dict v
  | inl _ => false
  end.

Lemma translate_batch_spec to_translate lang num i all (w : world) :
  ∃ req a logs r w',
    translate_batch provider self to_translate lang num i all w = (r, w')
    ∧ files w' = files w
    ∧ trace w' = trace w ++ Log (MsgTranslatingBatch (i + 1) num (length req))
                            :: Translate req lang a :: logs
    ∧ logs_only logs
    ∧ (∀ k, k ∈ Od.keys req ↔ k ∈ batch_keys_of self (Od.keys to_translate) i)
    ∧ (∀ k v, Od.get req k = Some v → Od.get to_translate k = Some v)
    ∧ (NoDup (Od.keys to_translate) →
         Od.keys req = batch_keys_of self (Od.keys to_translate) i)
    ∧ match a with
      | inl e => r = inl e
      | inr v =>
          if truthy v then
            match v with
            | PDict kvs =>
                ∃ all' new, r = inr all' ∧ merged to_translate kvs all all' new
                            ∧ new ⊆ logs
            | _ => r = inl AttributeError
            end
          else r = inr all
      end.
Proof.
  unfold translate_batch.
  destruct (batch_resources_spec to_translate
              (batch_keys_of self (Od.keys to_translate) i) w)
    as (req & Hreq & Hk & Hv & Hn).
  { apply py_slice_subseteq. }
  unfold bind at 1. rewrite Hreq.
  unfold bind at 1, log, emit. simpl.
  unfold bind at 1, call_provider. simpl.
  destruct (provider (oracle w) req lang) as [[alog [e|v]] o] eqn:Hp; simpl.
  - (* the provider raises *)
    exists req, (inl e), (Log <$> alog). eexists _, _.
    split_and!; try done.
    + simpl. by rewrite <- app_assoc.
    + intros x (m & -> & _)%list_elem_of_fmap. eauto.
    + intros Hnd. apply Hn. by apply py_slice_NoDup.
  - destruct (truthy v) eqn:Ht.
    + destruct v as [| | | | |kvs].
      6: {
        simpl. unfold bind at 1, ret at 1. unfold bind at 1.
        match goal with
        | |- context [merge_translations ?t ?k ?a ?w0] =>
            destruct (merge_translations_spec t k a w0) as (all' & new & Hm & HM)
        end.
        rewrite Hm. simpl.
        exists req, (inr (PDict kvs)),
          ((Log <$> alog) ++ new ++ [Log (MsgBatchTranslated (i + 1))]).
        eexists _, _. split_and!; try done.
        - simpl. by repeat (rewrite <- app_assoc; simpl).
        - intros x [Hx|[Hx|Hx]%elem_of_app]%elem_of_app.
          + apply list_elem_of_fmap in Hx as (m & -> & _). eauto.
          + destruct (merged_warnings _ _ _ _ _ HM x Hx) as [k [->| ->]]; eauto.
          + apply list_elem_of_singleton in Hx as ->. eauto.
        - intros Hnd. apply Hn. by apply py_slice_NoDup.
        - simpl in *. rewrite Ht. exists all', new. split_and!; [done|done|].
          intros x Hx. apply elem_of_app. right. apply elem_of_app. by left. }
      all: simpl;
        match type of Hp with
        | _ = (Answer _ (inr ?v), _) => exists req, (inr v), (Log <$> alog)
        end;
        eexists _, _; split_and!;
        first [ done
              | simpl; by rewrite <- app_assoc
              | intros x (m & -> & _)%list_elem_of_fmap; by eauto
              | intros Hnd; apply Hn; by apply py_slice_NoDup
              | simpl in *; by rewrite ?Ht ].
    + simpl.
      exists req, (inr v), ((Log <$> alog) ++ [Log (MsgBatchFailed (i + 1))]).
      eexists _, _. split_and!; try done.
      * simpl. by repeat (rewrite <- app_assoc; simpl).
      * intros x [Hx|Hx]%elem_of_app.
        -- apply list_elem_of_fmap in Hx as (m & -> & _). eauto.
        -- apply list_elem_of_singleton in Hx as ->. eauto.
      * intros Hnd. apply Hn. by apply py_slice_NoDup.
      * simpl. by rewrite Ht.
Qed.

(** *** The batch loop *)

(** the requests sent to the provider, in order *)
Definition requests (t : list event) : list (odict string) :=
  omap (fun e => match e with Translate req _ _ => Some req | _ => None end) t.

Definition no_writes (t : list event) : Prop :=
  ∀ p r o c, WriteResx p r o c ∉ t.

(** [batch_keys] of every iteration of [for i in range(num_batches)] *)
Definition all_batches (keys_to_translate : list string) : list (list string) :=
  batch_keys_of self keys_to_translate
    <$> py_range ((Z.of_nat (length keys_to_translate) + batch_size self - 1)
                  / batch_size self).

Lemma requests_app t1 t2 : requests (t1 ++ t2) = requests t1 ++ requests t2.
Proof. apply omap_app. Qed.

Lemma requests_logs t : logs_only t → requests t = [].
Proof.
  induction t as [|e t IH]; intros H; [done|].
  destruct (H e) as [m ->]; [left|]. simpl. apply IH.
  intros x Hx. apply H. by right.
Qed.

(** What the events of the batch loop say, whether it ends or raises. *)
Record batches_trace (to_translate : odict string) (lang : string)
    (all0 : gmap string pyval) (new : list event) : Prop := {
  bt_requests : ∀ req l a, Translate req l a ∈ new →
      l = lang ∧ ∀ k v, Od.get req k = Some v → Od.get to_translate k = Some v;
  bt_existing : ∀ req l kvs k, Translate req l (inr (PDict kvs)) ∈ new →
      k ∈ kvs.*1 → is_Some (all0 !! k) → Log (WarnExistingKey k) ∈ new;
  bt_unexpected : ∀ req l kvs k, Translate req l (inr (PDict kvs)) ∈ new →
      k ∈ kvs.*1 → all0 !! k = None → k ∉ Od.keys to_translate →
      Log (WarnUnexpectedKey k) ∈ new
}.

(** What holds of [all_resources] between two batches. *)
Record batches_state (to_translate : odict string)
    (all0 all : gmap string pyval) (new : list event) : Prop := {
  bs_keeps : all0 ⊆ all;
  bs_origin : ∀ k v, all !! k = Some v → all0 !! k = None →
      k ∈ Od.keys to_translate
      ∧ ∃ req l kvs, Translate req l (inr (PDict kvs)) ∈ new ∧ (k, v) ∈ kvs;
  bs_takes : ∀ req l kvs k, Translate req l (inr (PDict kvs)) ∈ new →
      k ∈ kvs.*1 → k ∈ Od.keys to_translate → is_Some (all !! k);
  bs_usable : ∀ req l a, Translate req l a ∈ new → usable a = true
}.

Lemma batches_trace_nil to_translate lang all0 : batches_trace to_translate lang all0 [].
Proof.
  split.
  - by intros ??? ?%elem_of_nil.
  - by intros ???? ?%elem_of_nil.
  - by intros ???? ?%elem_of_nil.
Qed.

Lemma no_writes_nil : no_writes [].
Proof. by intros ???? ?%elem_of_nil. Qed.

Lemma no_writes_logs t : logs_only t → no_writes t.
Proof. intros H p r o c Hin. by destruct (H _ Hin). Qed.

Lemma no_writes_app t1 t2 : no_writes t1 → no_writes t2 → no_writes (t1 ++ t2).
Proof. intros H1 H2 p r o c [?|?]%elem_of_app; [by eapply H1 | by eapply H2]. Qed.

Lemma batches_state_nil to_translate all0 : batches_state to_translate all0 all0 [].
Proof.
  split.
  - done.
  - intros k v H1 H2. congruence.
  - by intros ???? ?%elem_of_nil.
  - by intros ??? ?%elem_of_nil.
Qed.

Section Step.

Variables (to_translate : odict string) (lang : string).
Variables (all0 all : gmap string pyval) (new logs : list event).
Variables (req : odict string) (a : exn + pyval) (m : message).

Hypothesis Htrace : batches_trace to_translate lang all0 new.
Hypothesis Hstate : batches_state to_translate all0 all new.
Hypothesis Hreq : ∀ k v, Od.get req k = Some v → Od.get to_translate k = Some v.
Hypothesis Hlogs : logs_only logs.

Local Abbreviation step := (Log m :: Translate req lang a :: logs).

Lemma step_translate req' l a' :
  Translate req' l a' ∈ new ++ step →
  Translate req' l a' ∈ new ∨ (req' = req ∧ l = lang ∧ a' = a).
Proof.
  intros [H|H]%elem_of_app; [by left|]. right.
  apply elem_of_cons in H as [H|H]; [done|].
  apply elem_of_cons in H as [H|H]; [by injection H|].
  by destruct (Hlogs _ H).
Qed.

Lemma step_no_writes : no_writes new → no_writes (new ++ step).
Proof.
  intros Hnw p r o c [H|H]%elem_of_app.
  - by eapply Hnw.
  - apply elem_of_cons in H as [H|H]; [done|].
    apply elem_of_cons in H as [H|H]; [done|].
    by destruct (Hlogs _ H).
Qed.

Lemma step_fresh k : all0 !! k = None → k ∉ Od.keys to_translate → all !! k = None.
Proof.
  intros H0 Hk. destruct (all !! k) as [v|] eqn:E; [|done].
  by destruct (bs_origin _ _ _ _ Hstate k v E H0).
Qed.

(** the events after a batch whose answer was merged, or not looked at *)
Lemma step_trace :
  (∀ kvs, a = inr (PDict kvs) → kvs = [] ∨
     ∃ all' newm, merged to_translate kvs all all' newm ∧ newm ⊆ logs) →
  batches_trace to_translate lang all0 (new ++ step).
Proof.
  intros Hm. split.
  - intros req' l a' [H|(-> & -> & ->)]%step_translate; [|done].
    by eapply bt_requests.
  - intros req' l kvs k [H|(-> & -> & Ha)]%step_translate Hk Hs.
    + apply elem_of_app. left. by eapply bt_existing.
    + destruct (Hm kvs (eq_sym Ha)) as [->|(all' & newm & HM & Hsub)].
      { by apply elem_of_nil in Hk. }
      apply elem_of_app. right. right. right. apply Hsub.
      eapply merged_existing; [done..|].
      destruct Hs as [x Hx]. exists x.
      eapply lookup_weaken; [done|]. by eapply bs_keeps.
  - intros req' l kvs k [H|(-> & -> & Ha)]%step_translate Hk H0 Hnot.
    + apply elem_of_app. left. by eapply bt_unexpected.
    + destruct (Hm kvs (eq_sym Ha)) as [->|(all' & newm & HM & Hsub)].
      { by apply elem_of_nil in Hk. }
      apply elem_of_app. right. right. right. apply Hsub.
      eapply merged_unexpected; [done..| |done].
      by apply step_fresh.
Qed.

(** the state after a batch whose answer was falsy *)
Lemma step_state_failed v :
  a = inr v → truthy v = false →
  batches_state to_translate all0 all (new ++ step).
Proof.
  intros Ha Hv. split.
  - by eapply bs_keeps.
  - intros k v' H1 H2.
    destruct (bs_origin _ _ _ _ Hstate k v' H1 H2) as (Hk & r & l & kvs & He & Hin).
    split; [done|]. exists r, l, kvs. split; [|done]. apply elem_of_app. by left.
  - intros req' l kvs k [H|(-> & -> & Ha0)]%step_translate Hk Ht.
    + by eapply bs_takes.
    + rewrite Ha in Ha0. injection Ha0 as <-. simpl in Hv.
      destruct kvs; [by apply elem_of_nil in Hk|done].
  - intros req' l a' [H|(-> & -> & ->)]%step_translate.
    + by eapply bs_usable.
    + rewrite Ha. simpl. by rewrite Hv.
Qed.

(** the state after a batch whose answer was merged *)
Lemma step_state_merged kvs all' newm :
  a = inr (PDict kvs) → merged to_translate kvs all all' newm →
  batches_state to_translate all0 all' (new ++ step).
Proof.
  intros Ha HM. split.
  - transitivity all; [by eapply bs_keeps | by eapply merged_keeps].
  - intros k v H1 H2. destruct (all !! k) as [v'|] eqn:E.
    + assert (all' !! k = Some v') as H3.
      { eapply lookup_weaken; [done|]. by eapply merged_keeps. }
      assert (v' = v) as -> by congruence.
      destruct (bs_origin _ _ _ _ Hstate k v E H2) as (Hk & r & l & kvs' & He & Hin).
      split; [done|]. exists r, l, kvs'. split; [|done]. apply elem_of_app. by left.
    + destruct (merged_origin _ _ _ _ _ HM k v H1 E) as [Hk Hin].
      split; [done|]. exists req, lang, kvs. split; [|done].
      apply elem_of_app. right. right. rewrite Ha. left.
  - intros req' l kvs' k [H|(-> & -> & Ha0)]%step_translate Hk Ht.
    + destruct (bs_takes _ _ _ _ Hstate _ _ _ _ H Hk Ht) as [x Hx].
      exists x. eapply lookup_weaken; [done|]. by eapply merged_keeps.
    + rewrite Ha in Ha0. injection Ha0 as <-. by eapply merged_takes.
  - intros req' l a' [H|(-> & -> & ->)]%step_translate.
    + by eapply bs_usable.
    + rewrite Ha. simpl. apply orb_true_r.
Qed.

End Step.

Lemma requests_step t m req lang a logs :
  logs_only logs →
  requests (t ++ Log m :: Translate req lang a :: logs) = requests t ++ [req].
Proof.
  intros H. rewrite requests_app. simpl. by rewrite (requests_logs logs).
Qed.

Lemma fmap_snoc_take {A B} (f : A -> B) (l done rest : list A) a :
  l = done ++ a :: rest →
  (f <$> done) ++ [f a] = take (S (length done)) (f <$> l).
Proof.
  intros ->. rewrite fmap_app, fmap_cons.
  replace (S (length done)) with (length (f <$> done) + 1)%nat
    by (rewrite length_fmap; lia).
  by rewrite take_app_add.
Qed.

(** The outcome of the batch loop of one file. *)
Definition batches_outcome (to_translate : odict string) (lang : string)
    (all0 : gmap string pyval) (w : world)
    (r : exn + gmap string pyval) (w' : world) : Prop :=
  files w' = files w
  ∧ ∃ new, trace w' = trace w ++ new
    ∧ batches_trace to_translate lang all0 new
    ∧ no_writes new
    ∧ match r with
      | inr all =>
          batches_state to_translate all0 all new
          ∧ (NoDup (Od.keys to_translate) → 1 ≤ batch_size self →
             Od.keys <$> requests new = all_batches (Od.keys to_translate))
      | inl e =>
          ((batch_size self = 0 ∧ e = ZeroDivisionError ∧ new = [])
           ∨ ∃ req l a, Translate req l a ∈ new ∧ usable a = false)
          ∧ (NoDup (Od.keys to_translate) →
             ∃ n, Od.keys <$> requests new
                  = take n (all_batches (Od.keys to_translate)))
      end.

Lemma translate_batches_spec to_translate lang all0 (w : world) :
  wp (translate_batches provider self to_translate lang all0)
     (batches_outcome to_translate lang all0 w) w.
Proof.
  unfold translate_batches.
  destruct to_translate as [|kv0 tr0] eqn:Htt.
  { (* nothing to translate *)
    apply wp_ret. split; [done|]. exists []. rewrite app_nil_r.
    split_and!;
      [done|apply batches_trace_nil|apply no_writes_nil|apply batches_state_nil|].
    intros _ Hbs. unfold all_batches. simpl.
    by rewrite Z.div_small by lia. }
  rewrite <- Htt. clear kv0 tr0 Htt.
  apply wp_bind. unfold floordiv.
  destruct (batch_size self =? 0) eqn:Hbs.
  { apply Z.eqb_eq in Hbs. apply wp_raise. split; [done|]. exists [].
    rewrite app_nil_r.
    split_and!; [done|apply batches_trace_nil|apply no_writes_nil| |].
    - by left.
    - intros _. by exists 0%nat. }
  apply wp_ret.
  set (num := (Z.of_nat (length (Od.keys to_translate)) + batch_size self - 1)
              / batch_size self).
  apply (wp_for_each
    (fun done all w' =>
       files w' = files w
       ∧ ∃ new, trace w' = trace w ++ new
         ∧ batches_trace to_translate lang all0 new
         ∧ no_writes new
         ∧ batches_state to_translate all0 all new
         ∧ (NoDup (Od.keys to_translate) →
            Od.keys <$> requests new
            = batch_keys_of self (Od.keys to_translate) <$> done))).
  - split; [done|]. exists []. rewrite app_nil_r.
    split_and!;
      [done|apply batches_trace_nil|apply no_writes_nil|apply batches_state_nil|done].
  - intros done i rest all w1 Hl (Hf & new & Ht & HT & HW & HS & HR).
    destruct (translate_batch_spec to_translate lang num i all w1)
      as (req & a & logs & r & w2 & Heq & Hf2 & Ht2 & Hlogs & Hk & Hv & Hn & Hres).
    unfold wp. rewrite Heq. simpl.
    assert (trace w2 = trace w ++ new ++
              Log (MsgTranslatingBatch (i + 1) num (length req))
              :: Translate req lang a :: logs) as Ht3.
    { rewrite Ht2, Ht. by rewrite <- app_assoc. }
    assert (NoDup (Od.keys to_translate) →
            Od.keys <$> requests (new ++
              Log (MsgTranslatingBatch (i + 1) num (length req))
              :: Translate req lang a :: logs)
            = batch_keys_of self (Od.keys to_translate) <$> (done ++ [i])) as HR2.
    { intros Hnd. rewrite requests_step by done.
      rewrite !fmap_app, HR by done. simpl. by rewrite Hn. }
    assert (NoDup (Od.keys to_translate) →
            ∃ n, Od.keys <$> requests (new ++
              Log (MsgTranslatingBatch (i + 1) num (length req))
              :: Translate req lang a :: logs)
              = take n (all_batches (Od.keys to_translate))) as HR3.
    { intros Hnd. exists (S (length done)). rewrite HR2 by done.
      rewrite fmap_app. simpl. unfold all_batches. fold num.
      by eapply fmap_snoc_take. }
    assert (no_writes (new ++
              Log (MsgTranslatingBatch (i + 1) num (length req))
              :: Translate req lang a :: logs)) as HW2.
    { by apply step_no_writes. }
    destruct a as [e|v].
    + (* the provider raised *)
      subst r. split; [congruence|]. eexists. split; [done|].
      split_and!; [|done|right|done].
      * eapply step_trace; [done..|]. intros kvs [=].
      * exists req, lang, (inl e). split; [|done].
        apply elem_of_app. right. right. left.
    + destruct (truthy v) eqn:Hv1.
      * destruct v as [| | | | |kvs].
        6: { destruct Hres as (all' & newm & -> & HM & Hsub).
             split; [congruence|]. eexists. split; [done|].
             split_and!; [|done| |done].
             - eapply step_trace; [done..|]. intros kvs' [= <-]. right. eauto.
             - by eapply step_state_merged. }
        all: subst r; (split; [congruence|]); eexists; (split; [done|]);
          (split_and!; [|done|right|done]);
          [ eapply step_trace; [done..|]; by intros kvs [=]
          | eexists req, lang, _; split; [apply elem_of_app; right; right; left|];
            simpl in *; by rewrite ?Hv1 ].
      * subst r. split; [congruence|]. eexists. split; [done|].
        split_and!; [|done| |done].
        -- eapply step_trace; [done..|]. intros kvs [= ->]. left.
           simpl in Hv1. by destruct kvs.
        -- by eapply step_state_failed.
  - intros all w' (Hf & new & Ht & HT & HW & HS & HR). split; [done|].
    exists new. split_and!; [done|done|done|done|].
    intros Hnd _. by rewrite HR.
Qed.

(** *** Copying and classifying the missing keys *)

Lemma classify_missing_cons base_resources key keys all tr (w : world) :
  for_each (key :: keys) (classify_key base_resources) (all, tr) w =
  match Od.get base_resources key with
  | None => (inl KeyError, w)
  | Some v =>
      if no_translate key then
        for_each keys (classify_key base_resources) (<[key:=PStr v]> all, tr)
                 (add_events w [Log (MsgCopying key)])
      else
        for_each keys (classify_key base_resources) (all, Od.set tr key v) w
  end.
Proof.
  simpl. unfold bind at 1, classify_key, getitem.
  destruct (no_translate key); unfold bind at 1;
    by destruct (Od.get base_resources key).
Qed.

Lemma classify_missing_spec base_resources missing all (w : world) :
  missing ⊆ Od.keys base_resources →
  ∃ all' to_translate new,
    classify_missing base_resources missing all w
    = (inr (all', to_translate), add_events w new)
    ∧ logs_only new
    ∧ NoDup (Od.keys to_translate)
    ∧ (∀ k, k ∈ Od.keys to_translate ↔ k ∈ missing ∧ no_translate k = false)
    ∧ (∀ k v, Od.get to_translate k = Some v → Od.get base_resources k = Some v)
    ∧ (∀ k, k ∈ missing → no_translate k = true →
         all' !! k = PStr <$> Od.get base_resources k)
    ∧ (∀ k, ¬ (k ∈ missing ∧ no_translate k = true) → all' !! k = all !! k).
Proof.
  unfold classify_missing. intros Hsub.
  cut (∀ (tr0 : list (string * string)) (all0 : gmap string pyval) (w0 : world),
         NoDup (Od.keys tr0) →
         ∃ all' to_translate new,
           for_each missing (classify_key base_resources) (all0, tr0) w0
           = (inr (all', to_translate), add_events w0 new)
           ∧ logs_only new
           ∧ NoDup (Od.keys to_translate)
           ∧ (∀ k, k ∈ Od.keys to_translate ↔
                   k ∈ Od.keys tr0 ∨ (k ∈ missing ∧ no_translate k = false))
           ∧ (∀ k v, Od.get to_translate k = Some v →
                Od.get tr0 k = Some v ∨ Od.get base_resources k = Some v)
           ∧ (∀ k, k ∈ missing → no_translate k = true →
                all' !! k = PStr <$> Od.get base_resources k)
           ∧ (∀ k, ¬ (k ∈ missing ∧ no_translate k = true) → all' !! k = all0 !! k)).
  { intros H. destruct (H [] all w) as (all' & tr & new & Heq & H1 & H2 & H3 & H4 & H5 & H6).
    { constructor. }
    exists all', tr, new. split_and!; try done.
    - intros k. rewrite H3. split; [|tauto].
      intros [?%elem_of_nil|?]; tauto.
    - intros k v Hg. by destruct (H4 k v Hg). }
  induction missing as [|key keys IH]; intros tr0 all0 w0 Hnd.
  - exists all0, tr0, []. rewrite add_events_nil. split_and!; try done.
    + by intros e ?%elem_of_nil.
    + intros k. rewrite elem_of_nil. tauto.
    + auto.
    + by intros k ?%elem_of_nil.
  - assert (is_Some (Od.get base_resources key)) as [v Hv].
    { apply OdFacts.elem_keys_get, Hsub. left. }
    assert (keys ⊆ Od.keys base_resources) as Hsub'.
    { intros x Hx. apply Hsub. by right. }
    rewrite classify_missing_cons, Hv. destruct (no_translate key) eqn:Hno.
    + destruct (IH Hsub' tr0 (<[key:=PStr v]> all0)
                  (add_events w0 [Log (MsgCopying key)]) Hnd)
        as (all' & tr & new & Heq & H1 & H2 & H3 & H4 & H5 & H6).
      rewrite Heq.
      exists all', tr, (Log (MsgCopying key) :: new).
      split_and!.
      * by rewrite add_events_app.
      * intros e [->|He]%elem_of_cons; eauto.
      * done.
      * intros k. rewrite H3, elem_of_cons. split; [tauto|].
        intros [?|[[->|?] ?]]; [tauto|congruence|tauto].
      * done.
      * intros k [->|Hk]%elem_of_cons Hk2.
        -- destruct (decide (key ∈ keys)) as [Hin|Hin]; [by apply H5|].
           rewrite H6 by tauto. by rewrite lookup_insert_eq, Hv.
        -- by apply H5.
      * intros k Hk. assert (k ≠ key) as Hne.
        { intros ->. apply Hk. split; [left|done]. }
        rewrite H6.
        -- by rewrite lookup_insert_ne.
        -- intros [? ?]. apply Hk. split; [by right|done].
    + destruct (IH Hsub' (Od.set tr0 key v) all0 w0)
        as (all' & tr & new & Heq & H1 & H2 & H3 & H4 & H5 & H6).
      { by apply OdFacts.keys_set_NoDup. }
      rewrite Heq. exists all', tr, new. split_and!; try done.
      * intros k. rewrite H3, OdFacts.keys_set_elem, elem_of_cons. split.
        -- intros [[->|?]|[? ?]]; tauto.
        -- intros [?|[[->|?] ?]]; tauto.
      * intros k v' Hg. destruct (H4 k v' Hg) as [Hs|Hs]; [|by right].
        destruct (decide (key = k)) as [->|Hne].
        -- rewrite OdFacts.get_set_eq in Hs. right. congruence.
        -- rewrite OdFacts.get_set_ne in Hs by done. by left.
      * intros k [->|Hk]%elem_of_cons Hk2; [congruence|by apply H5].
      * intros k Hk. apply H6. intros [? ?]. apply Hk. split; [by right|done].
Qed.

(** The keys to translate are entered in the order of the missing keys. *)
Lemma classify_missing_keys base_resources missing all (w : world)
    all' to_translate w' :
  NoDup missing →
  classify_missing base_resources missing all w = (inr (all', to_translate), w') →
  Od.keys to_translate = filter (λ k, no_translate k = false) missing.
Proof.
  unfold classify_missing. intros Hnd.
  cut (∀ (tr0 : list (string * string)) (all0 : gmap string pyval) (w0 : world),
         (∀ k, k ∈ missing → k ∉ Od.keys tr0) →
         for_each missing (classify_key base_resources) (all0, tr0) w0
         = (inr (all', to_translate), w') →
         Od.keys to_translate
         = Od.keys tr0 ++ filter (λ k, no_translate k = false) missing).
  { intros H Heq. apply (H [] all w); [|done]. by intros k _ ?%elem_of_nil. }
  induction missing as [|key keys IH]; intros tr0 all0 w0 Hfresh.
  - simpl. intros [= _ <- _]. by rewrite app_nil_r.
  - apply NoDup_cons in Hnd as [Hkey Hnd]. rewrite classify_missing_cons.
    destruct (Od.get base_resources key) as [v|]; [|done].
    destruct (no_translate key) eqn:Hno.
    + intros Heq. rewrite filter_cons_False by (by rewrite Hno).
      apply (IH Hnd _ _ _ (λ k Hk, Hfresh k (list_elem_of_further _ _ _ Hk)) Heq).
    + intros Heq. rewrite filter_cons_True by done.
      assert (∀ k, k ∈ keys → k ∉ Od.keys (Od.set tr0 key v)) as Hfresh'.
      { intros k Hk [->|Hin]%OdFacts.keys_set_elem; [done|].
        by apply (Hfresh k); [right|]. }
      rewrite (IH Hnd _ _ _ Hfresh' Heq), OdFacts.keys_set.
      destruct (Od.mem tr0 key) eqn:Hmem.
      * apply OdFacts.mem_keys in Hmem. destruct (Hfresh key); [left|done].
      * by rewrite <- app_assoc.
Qed.

(** *** Reading and writing *)

(** the value [_read_resx] returns for a file with this content *)
Definition resources_of (content : option string) : gmap string string :=
  match content with
  | Some text =>
      match et_data_nodes text with
      | Some data =>
          foldl (fun resources nv => <[nv.1 := nv.2]> resources) ∅
                (omap resource_of_node data)
      | None => ∅
      end
  | None => ∅
  end.

(** the value [_read_resx_ordered] returns *)
Definition ordered_resources_of (content : option string) : list (string * string) :=
  match content with
  | Some text =>
      match et_data_nodes text with
      | Some data => omap resource_of_node data
      | None => []
      end
  | None => []
  end.

(** the value [_get_language_comment] returns *)
Definition language_comment_of (content : option string) : option string :=
  match content with
  | Some text =>
      match Re.re_search LANGUAGE_COMMENT_RE (Str.read_prefix 200 text) with
      | Some m => Some (Str.strip (Re.group_1 m))
      | None => None
      end
  | None => None
  end.

(** [lang_name = lang_comment if lang_comment else lang_code] *)
Definition lang_name_of (lang_code : string) (lang_comment : option string) : string :=
  match lang_comment with
  | Some c => if Str.nonempty c then c else lang_code
  | None => lang_code
  end.

Lemma read_resx_eq file_path (w : world) :
  ∃ logs, _read_resx file_path w
          = (inr (resources_of (Od.get (files w) file_path)), add_events w logs)
          ∧ logs_only logs.
Proof.
  unfold _read_resx, bind, read_file, resources_of. simpl.
  destruct (Od.get (files w) file_path) as [text|].
  - destruct (et_data_nodes text).
    + exists []. rewrite add_events_nil. split; [done|]. by intros e ?%elem_of_nil.
    + exists [Log (MsgParseError file_path)]. split; [done|].
      intros e ->%list_elem_of_singleton. eauto.
  - exists []. rewrite add_events_nil. split; [done|]. by intros e ?%elem_of_nil.
Qed.

Lemma read_resx_ordered_eq file_path (w : world) :
  ∃ logs, _read_resx_ordered file_path w
          = (inr (ordered_resources_of (Od.get (files w) file_path)),
             add_events w logs)
          ∧ logs_only logs.
Proof.
  unfold _read_resx_ordered, bind, read_file, ordered_resources_of. simpl.
  destruct (Od.get (files w) file_path) as [text|].
  - destruct (et_data_nodes text).
    + exists []. rewrite add_events_nil. split; [done|]. by intros e ?%elem_of_nil.
    + exists [Log (MsgParseError file_path)]. split; [done|].
      intros e ->%list_elem_of_singleton. eauto.
  - exists []. rewrite add_events_nil. split; [done|]. by intros e ?%elem_of_nil.
Qed.

Lemma get_language_comment_eq file_path (w : world) :
  _get_language_comment file_path w
  = (inr (language_comment_of (Od.get (files w) file_path)), w).
Proof.
  unfold _get_language_comment, bind, read_file, language_comment_of. simpl.
  by destruct (Od.get (files w) file_path).
Qed.

Lemma write_resx_eq file_path resources base_order lang_comment (w : world) :
  _write_resx file_path resources base_order lang_comment w =
  match resx_text resources base_order lang_comment with
  | inr text =>
      (inr tt, World (Od.set (files w) file_path text) (oracle w)
                     (trace w ++ [WriteResx file_path resources base_order
                                            lang_comment]))
  | inl e => (inl e, w)
  end.
Proof.
  unfold _write_resx.
  by destruct (resx_text resources base_order lang_comment).
Qed.

(** *** One localized file *)

(** [all_resources] and [to_translate] when the batch loop starts *)
Record classified (base_resources : odict string)
    (existing : gmap string string) (all_pre : gmap string pyval)
    (to_translate : odict string) : Prop := {
  cl_nodup : NoDup (Od.keys to_translate);
  cl_keys : ∀ k, k ∈ Od.keys to_translate ↔
              k ∈ Od.keys base_resources ∧ existing !! k = None
              ∧ no_translate k = false;
  cl_values : ∀ k v, Od.get to_translate k = Some v →
                Od.get base_resources k = Some v;
  cl_existing : ∀ k s, existing !! k = Some s → all_pre !! k = Some (PStr s);
  cl_copied : ∀ k, k ∈ Od.keys base_resources → existing !! k = None →
                no_translate k = true →
                all_pre !! k = PStr <$> Od.get base_resources k;
  cl_absent : ∀ k, existing !! k = None →
                ¬ (k ∈ Od.keys base_resources ∧ no_translate k = true) →
                all_pre !! k = None;
  cl_order : NoDup (Od.keys base_resources) →
               Od.keys to_translate
               = filter (λ k, no_translate k = false)
                   (filter (λ k, existing !! k = None) (Od.keys base_resources))
}.

(** What processing one file does: the events of reading and classifying
    ([newp]), of the batch loop ([newb]) and of saving ([newe]). *)
Definition file_outcome (base_resources : odict string)
    (base_resource_keys : list string) (filename : string) (w : world)
    (r : exn + unit) (w' : world) : Prop :=
  let content := Od.get (files w) filename in
  let existing := resources_of content in
  let label := language_comment_of content in
  match Re.re_match LOCALIZED_NAME_RE filename with
  | None => r = inr tt ∧ w' = w
  | Some m =>
      let lang := lang_name_of (Re.group_1 m) label in
      ∃ all_pre to_translate newp newb newe,
        trace w' = trace w ++ newp ++ newb ++ newe
        ∧ logs_only newp
        ∧ classified base_resources existing all_pre to_translate
        ∧ batches_trace to_translate lang all_pre newb
        ∧ no_writes newb
        ∧ ((∃ e, r = inl e ∧ newe = [] ∧ files w' = files w
              ∧ ((batch_size self = 0 ∧ e = ZeroDivisionError ∧ newb = [])
                 ∨ ∃ req l a, Translate req l a ∈ newb ∧ usable a = false)
              ∧ ∃ n, Od.keys <$> requests newb
                     = take n (all_batches (Od.keys to_translate)))
           ∨ (∃ all m1,
                batches_state to_translate all_pre all newb
                ∧ (1 ≤ batch_size self →
                   Od.keys <$> requests newb = all_batches (Od.keys to_translate))
                ∧ match resx_text all base_resource_keys label with
                  | inr text =>
                      r = inr tt
                      ∧ files w' = Od.set (files w) filename text
                      ∧ ∃ m2, newe = [Log m1;
                                      WriteResx filename all base_resource_keys label;
                                      Log m2]
                  | inl e => r = inl e ∧ files w' = files w ∧ newe = [Log m1]
                  end))
  end.

Lemma bind_eq {A B} (m : M A) (f : A -> M B) (w : world) :
  bind m f w = match m w with
               | (inr a, w') => f a w'
               | (inl e, w') => (inl e, w')
               end.
Proof. done. Qed.

Lemma log_eq m (w : world) : log m w = (inr tt, add_events w [Log m]).
Proof. done. Qed.

Lemma files_add_events (w : world) evs : files (add_events w evs) = files w.
Proof. done. Qed.

Lemma trace_add_events (w : world) evs : trace (add_events w evs) = trace w ++ evs.
Proof. done. Qed.

Ltac trace_eq :=
  simpl; rewrite ?app_nil_r; repeat (rewrite <- app_assoc; simpl);
  rewrite ?app_nil_r; done.

Lemma process_file_spec base_resources base_resource_keys filename (w : world) :
  wp (process_file provider self base_resources base_resource_keys filename)
     (file_outcome base_resources base_resource_keys filename w) w.
Proof.
  unfold wp, file_outcome, process_file.
  destruct (Re.re_match LOCALIZED_NAME_RE filename) as [m|]; [|done].
  rewrite bind_eq, get_language_comment_eq.
  rewrite bind_eq, log_eq. rewrite bind_eq.
  match goal with
  | |- context [_read_resx filename ?w0] =>
      destruct (read_resx_eq filename w0) as (rlogs & Hr & Hrl)
  end.
  rewrite Hr. rewrite files_add_events.
  fold (lang_name_of (Re.group_1 m)
          (language_comment_of (Od.get (files w) filename))) in *.
  set (existing := resources_of (Od.get (files w) filename)) in *.
  set (label := language_comment_of (Od.get (files w) filename)) in *.
  set (lang := lang_name_of (Re.group_1 m) label) in *.
  set (missing := filter (λ key : string, existing !! key = None)
                         (Od.keys base_resources)).
  assert (∀ k, k ∈ missing ↔ existing !! k = None ∧ k ∈ Od.keys base_resources)
    as Hmissing.
  { intros k. unfold missing. by rewrite list_elem_of_filter. }
  assert (missing = filter (λ key : string, existing !! key = None)
                           (Od.keys base_resources)) as Hord by done.
  destruct missing as [|k0 miss] eqn:Hmiss.
  - (* no missing key *)
    rewrite bind_eq, log_eq, bind_eq, write_resx_eq.
    exists (PStr <$> existing), [], (Log (MsgProcessing filename lang) :: rlogs), [].
    assert (classified base_resources existing (PStr <$> existing) []) as Hcl.
    { split.
      - constructor.
      - intros k. split; [by intros ?%elem_of_nil|].
        intros (H1 & H2 & _). by apply Hmissing.
      - done.
      - intros k s0 Hk. by rewrite lookup_fmap, Hk.
      - intros k H1 H2 _.
        assert (k ∈ @nil string) as ?%elem_of_nil by (by apply Hmissing). done.
      - intros k Hk _. by rewrite lookup_fmap, Hk.
      - intros _. by rewrite <- Hord. }
    assert (logs_only (Log (MsgProcessing filename lang) :: rlogs)) as Hlp.
    { intros e [->|He]%elem_of_cons; eauto. }
    destruct (resx_text (PStr <$> existing) base_resource_keys label) as [e|text] eqn:Htext.
    + exists [Log MsgNoMissing].
      split_and!; [|done|done|apply batches_trace_nil|apply no_writes_nil|].
      { simpl. trace_eq. }
      right. exists (PStr <$> existing), MsgNoMissing.
      split_and!; [apply batches_state_nil| |by rewrite Htext].
      intros Hbs. unfold all_batches. simpl. by rewrite Z.div_small by lia.
    + rewrite log_eq.
      exists [Log MsgNoMissing;
              WriteResx filename (PStr <$> existing) base_resource_keys label;
              Log MsgOrderSynchronized].
      split_and!; [|done|done|apply batches_trace_nil|apply no_writes_nil|].
      { simpl. trace_eq. }
      right. exists (PStr <$> existing), MsgNoMissing.
      split_and!; [apply batches_state_nil| |rewrite Htext].
      * intros Hbs. unfold all_batches. simpl. by rewrite Z.div_small by lia.
      * split_and!; [done|done|by eexists].
  - rewrite <- Hmiss in *. clear k0 miss Hmiss.
    rewrite bind_eq, log_eq, bind_eq.
    match goal with
    | |- context [classify_missing ?b ?ms ?a ?w0] =>
        destruct (classify_missing_spec b ms a w0)
          as (all_pre & tr & clogs & Hc & Hcl & Hnd & Hk & Hv & Hcopy & Hkeep)
    end.
    { intros k Hk. by apply Hmissing. }
    rewrite Hc.
    assert (classified base_resources existing all_pre tr) as Hclass.
    { split.
      - done.
      - intros k. rewrite Hk, Hmissing. tauto.
      - done.
      - intros k s0 Hs. rewrite Hkeep.
        + by rewrite lookup_fmap, Hs.
        + intros [Hm _]. apply Hmissing in Hm. destruct Hm. congruence.
      - intros k H1 H2 H3. apply Hcopy; [|done]. by apply Hmissing.
      - intros k H1 H2. rewrite Hkeep.
        + by rewrite lookup_fmap, H1.
        + intros [Hm ?]. apply Hmissing in Hm. tauto.
      - intros Hbase. rewrite <- Hord.
        eapply classify_missing_keys; [|done]. rewrite Hord. by apply NoDup_filter. }
    rewrite bind_eq.
    match goal with
    | |- context [translate_batches _ _ _ _ _ ?w0] =>
        pose proof (translate_batches_spec tr lang all_pre w0) as Hb;
        set (w3 := w0) in *
    end.
    unfold wp, batches_outcome in Hb.
    destruct (translate_batches provider self tr lang all_pre w3) as [[e|all] w4].
    + (* the batch loop raised *)
      simpl in Hb. destruct Hb as (Hf & newb & Ht & HT & HW & Hcause & Hreq).
      exists all_pre, tr,
        (Log (MsgProcessing filename lang) :: rlogs
         ++ Log (MsgFoundMissing (length missing)) :: clogs), newb, [].
      split_and!; [| |done|done|done|].
      { simpl. rewrite Ht. unfold w3. simpl.
        trace_eq. }
      { intros x [->|[Hx|[->|Hx]%elem_of_cons]%elem_of_app]%elem_of_cons; eauto. }
      left. exists e. split_and!; [done|done|simpl; by rewrite Hf|done|by apply Hreq].
    + simpl in Hb. destruct Hb as (Hf & newb & Ht & HT & HW & HS & Hreq).
      rewrite bind_eq, log_eq, bind_eq, write_resx_eq.
      exists all_pre, tr,
        (Log (MsgProcessing filename lang) :: rlogs
         ++ Log (MsgFoundMissing (length missing)) :: clogs), newb.
      assert (logs_only (Log (MsgProcessing filename lang) :: rlogs
         ++ Log (MsgFoundMissing (length missing)) :: clogs)) as Hlp.
      { intros x [->|[Hx|[->|Hx]%elem_of_cons]%elem_of_app]%elem_of_cons; eauto. }
      destruct (resx_text all base_resource_keys label) as [e|text] eqn:Htext.
      * exists [Log MsgSaving]. split_and!; [|done|done|done|done|].
        { simpl. rewrite Ht. unfold w3. simpl.
          trace_eq. }
        right. exists all, MsgSaving. split_and!; [done|by apply Hreq|].
        rewrite Htext. split_and!; [done|simpl; by rewrite Hf|done].
      * rewrite log_eq.
        exists [Log MsgSaving; WriteResx filename all base_resource_keys label;
                Log (MsgUpdated filename)].
        split_and!; [|done|done|done|done|].
        { simpl. rewrite Ht. unfold w3. simpl.
          trace_eq. }
        right. exists all, MsgSaving. split_and!; [done|by apply Hreq|].
        rewrite Htext. split_and!; [done| |by eexists].
        simpl. by rewrite Hf.
Qed.

(** The same, told about the events [new] of the whole call. *)
Definition file_report (base_resources : odict string)
    (base_resource_keys : list string) (filename : string) (w : world)
    (r : exn + unit) (w' : world) (new : list event) : Prop :=
  let content := Od.get (files w) filename in
  let existing := resources_of content in
  let label := language_comment_of content in
  ∃ all_pre to_translate lang,
    classified base_resources existing all_pre to_translate
    ∧ batches_trace to_translate lang all_pre new
    ∧ (∀ p res order c, WriteResx p res order c ∈ new →
         p = filename ∧ order = base_resource_keys ∧ c = label
         ∧ batches_state to_translate all_pre res new
         ∧ r = inr tt
         ∧ ∃ text, resx_text res order c = inr text
                   ∧ files w' = Od.set (files w) filename text)
    ∧ (∀ e, r = inl e → files w' = files w ∧ no_writes new)
    ∧ (r = inr tt → ∃ res, WriteResx filename res base_resource_keys label ∈ new)
    ∧ ((∀ req l a, Translate req l a ∈ new → usable a = true) →
       batch_size self ≠ 0 →
       ∃ all, batches_state to_translate all_pre all new
              ∧ (1 ≤ batch_size self →
                 Od.keys <$> requests new = all_batches (Od.keys to_translate))
              ∧ match resx_text all base_resource_keys label with
                | inr text =>
                    r = inr tt
                    ∧ WriteResx filename all base_resource_keys label ∈ new
                    ∧ files w' = Od.set (files w) filename text
                | inl e => r = inl e
                end).

Lemma batches_trace_among to_translate lang all0 newp newb newe :
  logs_only newp → (∀ req l a, Translate req l a ∉ newe) →
  batches_trace to_translate lang all0 newb →
  batches_trace to_translate lang all0 (newp ++ newb ++ newe).
Proof.
  intros Hp He HT.
  assert (∀ req l a, Translate req l a ∈ newp ++ newb ++ newe →
                     Translate req l a ∈ newb) as Hin.
  { intros req l a [H|[H|H]%elem_of_app]%elem_of_app; [|done|].
    - by destruct (Hp _ H).
    - by destruct (He _ _ _ H). }
  assert (∀ e, e ∈ newb → e ∈ newp ++ newb ++ newe) as Hsub.
  { intros e H. apply elem_of_app. right. apply elem_of_app. by left. }
  split.
  - intros req l a H%Hin. by eapply bt_requests.
  - intros req l kvs k H%Hin Hk Hs. apply Hsub. by eapply bt_existing.
  - intros req l kvs k H%Hin Hk Hs Hn. apply Hsub. by eapply bt_unexpected.
Qed.

Lemma batches_state_among to_translate all0 all newp newb newe :
  logs_only newp → (∀ req l a, Translate req l a ∉ newe) →
  batches_state to_translate all0 all newb →
  batches_state to_translate all0 all (newp ++ newb ++ newe).
Proof.
  intros Hp He HS.
  assert (∀ req l a, Translate req l a ∈ newp ++ newb ++ newe →
                     Translate req l a ∈ newb) as Hin.
  { intros req l a [H|[H|H]%elem_of_app]%elem_of_app; [|done|].
    - by destruct (Hp _ H).
    - by destruct (He _ _ _ H). }
  assert (∀ e, e ∈ newb → e ∈ newp ++ newb ++ newe) as Hsub.
  { intros e H. apply elem_of_app. right. apply elem_of_app. by left. }
  split.
  - by eapply bs_keeps.
  - intros k v H1 H2.
    destruct (bs_origin _ _ _ _ HS k v H1 H2) as (Hk & req & l & kvs & Hev & Hkv).
    split; [done|]. exists req, l, kvs. split; [by apply Hsub|done].
  - intros req l kvs k H%Hin Hk Ht. by eapply bs_takes.
  - intros req l a H%Hin. by eapply bs_usable.
Qed.

Lemma requests_among newp newb newe :
  logs_only newp → requests newe = [] →
  requests (newp ++ newb ++ newe) = requests newb.
Proof.
  intros Hp He. rewrite !requests_app, He, (requests_logs newp) by done.
  by rewrite app_nil_r.
Qed.

Lemma file_outcome_report base_resources base_resource_keys filename
    (w : world) r w' :
  is_Some (Re.re_match LOCALIZED_NAME_RE filename) →
  file_outcome base_resources base_resource_keys filename w r w' →
  ∃ new, trace w' = trace w ++ new
         ∧ file_report base_resources base_resource_keys filename w r w' new.
Proof.
  unfold file_outcome, file_report. intros [m Hm]. rewrite Hm.
  set (existing := resources_of (Od.get (files w) filename)).
  set (label := language_comment_of (Od.get (files w) filename)).
  intros (all_pre & tr & newp & newb & newe & Ht & Hp & Hcl & HT & HW & Hcase).
  exists (newp ++ newb ++ newe). split; [done|].
  exists all_pre, tr, (lang_name_of (Re.group_1 m) label).
  assert (∀ p res order c, WriteResx p res order c ∈ newp ++ newb ++ newe →
                           WriteResx p res order c ∈ newe) as Hwr.
  { intros p res order c [H|[H|H]%elem_of_app]%elem_of_app; [| |done].
    - by destruct (Hp _ H).
    - by destruct (HW _ _ _ _ H). }
  destruct Hcase as [(e & -> & -> & Hf & Hcause & Hn)
                    |(all & m1 & HS & Hreq & Hwrite)].
  - (* the batch loop raised *)
    assert (∀ req l a, Translate req l a ∉ @nil event) as Hnil.
    { by intros ??? ?%elem_of_nil. }
    split_and!.
    + done.
    + by apply batches_trace_among.
    + intros p res order c H%Hwr. by apply elem_of_nil in H.
    + intros e' _. split; [done|]. rewrite app_nil_r.
      apply no_writes_app; [by apply no_writes_logs|done].
    + done.
    + intros Hus Hbs. exfalso.
      destruct Hcause as [(? & _)|(req & l & a & Hin & Hu)]; [done|].
      rewrite (Hus req l a) in Hu; [done|].
      apply elem_of_app. right. apply elem_of_app. by left.
  - destruct (resx_text all base_resource_keys label) as [e|text] eqn:Htext.
    + (* serialisation failed *)
      destruct Hwrite as (-> & Hf & ->).
      assert (∀ req l a, Translate req l a ∉ [Log m1]) as Hnil.
      { by intros ??? ?%list_elem_of_singleton. }
      split_and!.
      * done.
      * by apply batches_trace_among.
      * intros p res order c H%Hwr. by apply list_elem_of_singleton in H.
      * intros e' _. split; [done|].
        apply no_writes_app; [by apply no_writes_logs|].
        apply no_writes_app; [done|].
        apply no_writes_logs. intros x ->%list_elem_of_singleton. eauto.
      * done.
      * intros Hus Hbs. exists all. rewrite Htext. split_and!; [|..|done].
        -- by apply batches_state_among.
        -- intros H1. rewrite requests_among by done. by apply Hreq.
    + (* the file was written *)
      destruct Hwrite as (-> & Hf & m2 & ->).
      assert (∀ req l a,
                Translate req l a
                ∉ [Log m1; WriteResx filename all base_resource_keys label; Log m2])
        as Hnil.
      { intros ??? H. repeat (apply elem_of_cons in H as [H|H]; [done|]).
        by apply elem_of_nil in H. }
      assert (WriteResx filename all base_resource_keys label
              ∈ newp ++ newb
                ++ [Log m1; WriteResx filename all base_resource_keys label; Log m2])
        as Hin.
      { apply elem_of_app. right. apply elem_of_app. right. right. left. }
      split_and!.
      * done.
      * by apply batches_trace_among.
      * intros p res order c H%Hwr.
        apply elem_of_cons in H as [H|H]; [done|].
        apply elem_of_cons in H as [H|H].
        -- injection H as -> -> -> ->. split_and!; try done.
           ++ by apply batches_state_among.
           ++ by exists text.
        -- apply list_elem_of_singleton in H. done.
      * by intros e' [=].
      * intros _. by exists all.
      * intros Hus Hbs. exists all. rewrite Htext. split_and!; [|..|done|done|done].
        -- by apply batches_state_among.
        -- intros H1. rewrite requests_among by done. by apply Hreq.
Qed.

(** *** The batches are the consecutive chunks of the keys *)

Lemma all_batches_chunks keys :
  1 ≤ batch_size self →
  all_batches keys
  = chunk (Z.to_nat (batch_size self)) keys
      <$> seq 0 (Z.to_nat ((Z.of_nat (length keys) + batch_size self - 1)
                           / batch_size self)).
Proof.
  intros Hbs. unfold all_batches, py_range. rewrite <- list_fmap_compose.
  apply list_fmap_ext. intros _ i _. simpl. unfold batch_keys_of.
  rewrite <- (Z2Nat.id (batch_size self)) at 1 2 3 by lia.
  apply py_slice_chunk.
Qed.

Lemma num_batches_bounds (len : nat) :
  1 ≤ batch_size self →
  let n := Z.to_nat (batch_size self) in
  let m := Z.to_nat ((Z.of_nat len + batch_size self - 1) / batch_size self) in
  (len ≤ m * n ∧ m * n < len + n)%nat.
Proof.
  intros Hbs n m.
  pose proof (Z.mul_div_le (Z.of_nat len + batch_size self - 1) (batch_size self)
                ltac:(lia)) as H1.
  pose proof (Z.mul_succ_div_gt (Z.of_nat len + batch_size self - 1)
                (batch_size self) ltac:(lia)) as H2.
  assert (0 ≤ (Z.of_nat len + batch_size self - 1) / batch_size self) as H3.
  { apply Z.div_pos; lia. }
  assert (Z.of_nat (m * n)
          = batch_size self
            * ((Z.of_nat len + batch_size self - 1) / batch_size self)) as H4.
  { unfold m, n. rewrite Nat2Z.inj_mul, !Z2Nat.id by lia. lia. }
  lia.
Qed.

Lemma all_batches_concat keys :
  1 ≤ batch_size self → concat (all_batches keys) = keys.
Proof.
  intros Hbs. rewrite all_batches_chunks, concat_chunks by done.
  apply take_ge. by destruct (num_batches_bounds (length keys) Hbs).
Qed.

Lemma all_batches_lengths keys i b :
  1 ≤ batch_size self → all_batches keys !! i = Some b →
  (1 ≤ length b ≤ Z.to_nat (batch_size self))%nat
  ∧ ((S i < length (all_batches keys))%nat →
     length b = Z.to_nat (batch_size self)).
Proof.
  intros Hbs. rewrite all_batches_chunks by done.
  rewrite list_lookup_fmap, length_fmap, length_seq.
  destruct (num_batches_bounds (length keys) Hbs) as [H1 H2].
  set (n := Z.to_nat (batch_size self)) in *.
  set (m := Z.to_nat ((Z.of_nat (length keys) + batch_size self - 1)
                      / batch_size self)) in *.
  intros Hi. destruct (seq 0 m !! i) as [j|] eqn:Hj; [|done].
  apply lookup_seq in Hj as [-> Hlt]. simpl in Hi. injection Hi as <-.
  rewrite length_chunk. assert (1 ≤ n)%nat by lia. split; nia.
Qed.

(** *** The entries of a written file *)

Lemma elem_of_data_entries resources base_order k v :
  (k, v) ∈ data_entries resources base_order
  ↔ k ∈ base_order ∧ resources !! k = Some v.
Proof.
  unfold data_entries. rewrite list_elem_of_omap. split.
  - intros (name & Hin & Hf). destruct (resources !! name) as [v'|] eqn:E; [|done].
    simpl in Hf. injection Hf as -> ->. done.
  - intros [Hin Hk]. exists k. split; [done|]. by rewrite Hk.
Qed.

Lemma data_entries_keys resources base_order :
  (data_entries resources base_order).*1
  = filter (fun name => is_Some (resources !! name)) base_order.
Proof.
  unfold data_entries. induction base_order as [|name names IH]; [done|].
  csimpl. destruct (resources !! name) as [v|] eqn:E; csimpl.
  - rewrite filter_cons_True by (by rewrite E). by rewrite IH.
  - rewrite filter_cons_False; [done|]. rewrite E. by intros [? ?].
Qed.

Lemma element_texts_keys l data : element_texts l = inr data → data.*1 = l.*1.
Proof.
  revert data. induction l as [|[name v] l IH]; intros data; simpl.
  - by intros [= <-].
  - destruct (element_text v) as [e|t]; [done|].
    destruct (element_texts l) as [e|ts]; [done|].
    intros [= <-]. csimpl. by rewrite (IH ts).
Qed.

(** C4. Every file [_write_resx] writes holds one [data] entry per name of
    the base order that the merged mapping contains, in the base order:
    the emitted names are the base order restricted to the keys of the
    mapping, a key outside the base order is left out (without any log
    line), and the file is the declaration, the language comment and the
    pretty-printed entries. *)
Theorem write_resx_follows_base_order file_path resources base_order
    lang_comment (w : world) :
  (data_entries resources base_order).*1
  = filter (fun name => is_Some (resources !! name)) base_order
  ∧ (∀ name, name ∉ base_order → name ∉ (data_entries resources base_order).*1)
  ∧ match _write_resx file_path resources base_order lang_comment w with
    | (inr _, w') =>
        ∃ data pretty,
          data.*1 = filter (fun name => is_Some (resources !! name)) base_order
          ∧ pretty_xml RESX_HEADERS data = Some pretty
          ∧ Od.get (files w') file_path
            = Some (XML_DECLARATION +:+ comment_line lang_comment
                    +:+ strip_declaration pretty)
          ∧ trace w' = trace w ++ [WriteResx file_path resources base_order
                                             lang_comment]
    | (inl _, w') => w' = w
    end.
Proof.
  split_and!.
  - apply data_entries_keys.
  - intros name Hnot. rewrite data_entries_keys, list_elem_of_filter. tauto.
  - rewrite write_resx_eq. unfold resx_text.
    destruct (element_texts (data_entries resources base_order)) as [e|data] eqn:Hd;
      [done|].
    destruct (pretty_xml RESX_HEADERS data) as [pretty|] eqn:Hp; [|done].
    exists data, pretty. split_and!; [|done| |done].
    + by rewrite (element_texts_keys _ _ Hd), data_entries_keys.
    + simpl. apply OdFacts.get_set_eq.
Qed.

(** *** One localized file: what is kept, copied, translated *)

Lemma process_file_report base_resources base_resource_keys filename
    (w : world) r w' new :
  is_Some (Re.re_match LOCALIZED_NAME_RE filename) →
  process_file provider self base_resources base_resource_keys filename w = (r, w') →
  trace w' = trace w ++ new →
  file_report base_resources base_resource_keys filename w r w' new.
Proof.
  intros Hm Hrun Ht.
  pose proof (process_file_spec base_resources base_resource_keys filename w) as H.
  unfold wp in H. rewrite Hrun in H. simpl in H.
  destruct (file_outcome_report _ _ _ _ _ _ Hm H) as (new' & Ht' & Hrep).
  rewrite Ht in Ht'. apply app_inv_head in Ht'. by subst new'.
Qed.

Lemma process_file_skipped base_resources base_resource_keys filename (w : world) :
  Re.re_match LOCALIZED_NAME_RE filename = None →
  process_file provider self base_resources base_resource_keys filename w
  = (inr tt, w).
Proof. unfold process_file. by intros ->. Qed.

(** the value a key holds when the batch loop starts: the one read from
    the file or, for a missing no-translate key, the base value *)
Definition kept_value (base_resources : odict string)
    (existing : gmap string string) (k : string) : option pyval :=
  match existing !! k with
  | Some s => Some (PStr s)
  | None => if no_translate k then PStr <$> Od.get base_resources k else None
  end.

Lemma classified_kept base_resources existing all_pre to_translate k :
  classified base_resources existing all_pre to_translate →
  k ∉ Od.keys to_translate →
  all_pre !! k = kept_value base_resources existing k.
Proof.
  intros Hcl Hk. unfold kept_value.
  destruct (existing !! k) as [s|] eqn:He; [by eapply cl_existing|].
  destruct (no_translate k) eqn:Hno.
  - destruct (decide (k ∈ Od.keys base_resources)) as [Hin|Hin].
    + by eapply cl_copied.
    + rewrite (cl_absent _ _ _ _ Hcl k) by tauto.
      destruct (Od.get base_resources k) eqn:E; [|done].
      destruct Hin. apply OdFacts.elem_keys_get. eauto.
  - eapply cl_absent; [done|done|]. intros [_ ?]. congruence.
Qed.

Lemma state_outside to_translate all_pre all new k :
  batches_state to_translate all_pre all new →
  k ∉ Od.keys to_translate →
  all !! k = all_pre !! k.
Proof.
  intros HS Hk. destruct (all_pre !! k) as [v|] eqn:E.
  - eapply lookup_weaken; [done|]. by eapply bs_keeps.
  - destruct (all !! k) as [v|] eqn:E2; [|done].
    by destruct (bs_origin _ _ _ _ HS k v E2 E).
Qed.

Lemma process_file_skipped_events base_resources base_resource_keys filename
    (w : world) r w' new :
  Re.re_match LOCALIZED_NAME_RE filename = None →
  process_file provider self base_resources base_resource_keys filename w = (r, w') →
  trace w' = trace w ++ new →
  r = inr tt ∧ w' = w ∧ new = [].
Proof.
  intros Hm Hrun Ht. rewrite process_file_skipped in Hrun by done.
  injection Hrun as <- <-. split_and!; [done|done|].
  rewrite <- (app_nil_r (trace w)) in Ht at 1. by apply app_inv_head in Ht.
Qed.

(** C8. For a batch size of at least 1 the translatable missing keys of a
    localized file, which are the keys of the base file that the file
    lacks and that match no no-translate pattern, in the order of the base
    keys, are cut into consecutive batches: the concatenation of the
    batches is that list (so the base order is kept), every batch has
    between 1 and [batch_size] keys, all but the last have exactly
    [batch_size], every key is in a batch and in one only, and the
    requests sent to the provider are these batches, in this order: all
    of them, unless an answer that is neither a mapping nor falsy broke
    the loop off, the call then raising after the first ones.  (The keys
    of a [dict] are distinct, which an association list has to be told.) *)
Theorem batches_partition_keys base_resources base_resource_keys filename
    (w : world) r w' new :
  1 ≤ batch_size self →
  NoDup (Od.keys base_resources) →
  is_Some (Re.re_match LOCALIZED_NAME_RE filename) →
  process_file provider self base_resources base_resource_keys filename w = (r, w') →
  trace w' = trace w ++ new →
  let existing := resources_of (Od.get (files w) filename) in
  let missing := filter (λ k, existing !! k = None) (Od.keys base_resources) in
  let keys := filter (λ k, no_translate k = false) missing in
  let batches := all_batches keys in
  concat batches = keys
  ∧ (∀ i b, batches !! i = Some b →
       (1 ≤ length b ≤ Z.to_nat (batch_size self))%nat
       ∧ ((S i < length batches)%nat → length b = Z.to_nat (batch_size self)))
  ∧ (∀ k, k ∈ keys → ∃ i b, batches !! i = Some b ∧ k ∈ b)
  ∧ (∀ i j bi bj k, batches !! i = Some bi → batches !! j = Some bj →
       k ∈ bi → k ∈ bj → i = j)
  ∧ ∃ n, Od.keys <$> requests new = take n batches
         ∧ (n = length batches
            ∨ ((∃ e, r = inl e) ∧ files w' = files w
               ∧ ∃ req l a, Translate req l a ∈ new ∧ usable a = false)).
Proof.
  intros Hbs Hbase [m Hm] Hrun Ht existing missing keys batches.
  assert (NoDup keys) as Hnd by (by do 2 apply NoDup_filter).
  assert (concat batches = keys) as Hcat by (by apply all_batches_concat).
  split_and!.
  - done.
  - intros i b Hi. by apply all_batches_lengths.
  - intros k Hk. rewrite <- Hcat in Hk.
    apply elem_of_concat in Hk as (b & Hb & Hk).
    apply list_elem_of_lookup_1 in Hb as [i Hi]. by exists i, b.
  - intros i j bi bj k Hi Hj Hki Hkj.
    eapply concat_NoDup_unique; [|done..]. by rewrite Hcat.
  - pose proof (process_file_spec base_resources base_resource_keys filename w) as H.
    unfold wp in H. rewrite Hrun in H. unfold file_outcome in H.
    rewrite Hm in H. simpl in H.
    destruct H as (all_pre & tr & newp & newb & newe & Ht' & Hp & Hcl & HT & HW & Hcase).
    rewrite Ht in Ht'. apply app_inv_head in Ht'. subst new.
    assert (Od.keys tr = keys) as Hkeys by (by apply (cl_order _ _ _ _ Hcl)).
    rewrite Hkeys in Hcase. fold batches in Hcase.
    destruct Hcase as [(e & -> & -> & Hf & Hcause & n & Hn)
                      |(all & m1 & HS & Hreq & Hwrite)].
    + exists n. rewrite requests_among by done. split; [done|]. right.
      split_and!; [by exists e|done|].
      destruct Hcause as [(? & _)|(req & l & a & Hin & Hu)]; [lia|].
      exists req, l, a. split; [|done].
      apply elem_of_app. right. apply elem_of_app. by left.
    + exists (length batches). rewrite firstn_all. split; [|by left].
      rewrite requests_among; [by apply Hreq|done|].
      destruct (resx_text all base_resource_keys
                  (language_comment_of (Od.get (files w) filename)))
        as [e|text].
      * by destruct Hwrite as (_ & _ & ->).
      * by destruct Hwrite as (_ & _ & m2 & ->).
Qed.

(** C3, as the code has it.  A key read from a localized file is in no
    request, every answer of the provider that contains it is met with
    the warning about an already existing key, and the mapping handed to
    [_write_resx] holds the value that was read.  When the file has been
    processed without an exception it has been rewritten, and the rewrite
    holds an entry for the key exactly when the key is in the base order,
    with the value that was read; a key outside the base order has no
    entry any more.  When processing raises, the file is left as it was.
    With usable answers and a batch size other than 0 it raises only if
    the merged mapping cannot be serialised. *)
Theorem existing_values_are_kept base_resources base_resource_keys filename
    (w : world) r w' new k s :
  is_Some (Re.re_match LOCALIZED_NAME_RE filename) →
  process_file provider self base_resources base_resource_keys filename w = (r, w') →
  trace w' = trace w ++ new →
  resources_of (Od.get (files w) filename) !! k = Some s →
  let label := language_comment_of (Od.get (files w) filename) in
  (∀ req l a, Translate req l a ∈ new → k ∉ Od.keys req)
  ∧ (∀ req l kvs, Translate req l (inr (PDict kvs)) ∈ new → k ∈ kvs.*1 →
       Log (WarnExistingKey k) ∈ new)
  ∧ (∀ p res order c, WriteResx p res order c ∈ new →
       p = filename ∧ order = base_resource_keys ∧ res !! k = Some (PStr s))
  ∧ match r with
    | inr _ =>
        ∃ res text,
          WriteResx filename res base_resource_keys label ∈ new
          ∧ resx_text res base_resource_keys label = inr text
          ∧ files w' = Od.set (files w) filename text
          ∧ (k ∈ base_resource_keys →
             ∀ v, (k, v) ∈ data_entries res base_resource_keys ↔ v = PStr s)
          ∧ (k ∉ base_resource_keys →
             k ∉ (data_entries res base_resource_keys).*1)
    | inl _ => files w' = files w
    end
  ∧ ((∀ req l a, Translate req l a ∈ new → usable a = true) →
     batch_size self ≠ 0 →
     ∃ all, all !! k = Some (PStr s)
            ∧ match resx_text all base_resource_keys label with
              | inr _ => r = inr tt
              | inl e => r = inl e
              end).
Proof.
  intros Hm Hrun Ht Hk label. subst label.
  destruct (process_file_report _ _ _ _ _ _ _ Hm Hrun Ht)
    as (all_pre & tr & lang & Hcl & HT & Hwrites & Hfail & Hdone & Hok).
  assert (all_pre !! k = Some (PStr s)) as Hpre by (by eapply cl_existing).
  assert (k ∉ Od.keys tr) as Hnot.
  { intros Hin. apply (cl_keys _ _ _ _ Hcl) in Hin as (_ & ? & _). congruence. }
  assert (∀ res, batches_state tr all_pre res new → res !! k = Some (PStr s))
    as Hkeep.
  { intros res HS. eapply lookup_weaken; [done|]. by eapply bs_keeps. }
  split_and!.
  - intros req l a Hev Hin. apply Hnot.
    apply OdFacts.elem_keys_get in Hin as [v Hv].
    destruct (bt_requests _ _ _ _ HT _ _ _ Hev) as [_ Hsub].
    apply OdFacts.elem_keys_get. exists v. by apply Hsub.
  - intros req l kvs Hev Hin. eapply bt_existing; [done..|]. by rewrite Hpre.
  - intros p res order c Hev.
    destruct (Hwrites _ _ _ _ Hev) as (-> & -> & _ & HS & _). auto.
  - destruct r as [e|[]]; [by destruct (Hfail e)|].
    destruct Hdone as [res Hev]; [done|].
    destruct (Hwrites _ _ _ _ Hev) as (_ & _ & _ & HS & _ & text & Htext & Hf).
    exists res, text. split_and!; [done..| |].
    + intros Hin v. rewrite elem_of_data_entries, (Hkeep res HS).
      split; [by intros [_ [= <-]]|by intros ->].
    + intros Hout. rewrite data_entries_keys, list_elem_of_filter. tauto.
  - intros Hus Hbs. destruct (Hok Hus Hbs) as (all & HS & _ & Hwrite).
    exists all. split; [by apply Hkeep|].
    destruct (resx_text all base_resource_keys _); [done|]. by destruct Hwrite.
Qed.

(** C1, as the code has it.  A key of an answer that is not among the keys
    to translate of the file (the missing, translatable keys of all its
    batches) is dropped with a warning, and the mapping handed to
    [_write_resx] holds for it what the file or the base copy gave before
    the batches, nothing else. *)
Theorem keys_outside_to_translate_are_dropped base_resources base_resource_keys
    filename (w : world) r w' new k :
  process_file provider self base_resources base_resource_keys filename w = (r, w') →
  trace w' = trace w ++ new →
  ¬ (k ∈ Od.keys base_resources
     ∧ resources_of (Od.get (files w) filename) !! k = None
     ∧ no_translate k = false) →
  (∀ req l kvs, Translate req l (inr (PDict kvs)) ∈ new → k ∈ kvs.*1 →
     Log (WarnExistingKey k) ∈ new ∨ Log (WarnUnexpectedKey k) ∈ new)
  ∧ (∀ p res order c, WriteResx p res order c ∈ new →
       res !! k
       = kept_value base_resources (resources_of (Od.get (files w) filename)) k
       ∧ ∀ v, (k, v) ∈ data_entries res order →
              kept_value base_resources
                (resources_of (Od.get (files w) filename)) k = Some v).
Proof.
  intros Hrun Ht Hk.
  destruct (Re.re_match LOCALIZED_NAME_RE filename) as [m|] eqn:Hm.
  2: { destruct (process_file_skipped_events _ _ _ _ _ _ _ Hm Hrun Ht)
         as (-> & -> & ->).
       split; [by intros ??? ?%elem_of_nil|by intros ???? ?%elem_of_nil]. }
  destruct (process_file_report _ _ _ _ _ _ _ (mk_is_Some _ _ Hm) Hrun Ht)
    as (all_pre & tr & lang & Hcl & HT & Hwrites & _).
  assert (k ∉ Od.keys tr) as Hnot.
  { intros Hin. apply Hk. by apply (cl_keys _ _ _ _ Hcl). }
  split.
  - intros req l kvs Hev Hin. destruct (all_pre !! k) as [v|] eqn:E.
    + left. eapply bt_existing; [done..|]. by rewrite E.
    + right. by eapply bt_unexpected.
  - intros p res order c Hev.
    destruct (Hwrites _ _ _ _ Hev) as (_ & _ & _ & HS & _).
    assert (res !! k
            = kept_value base_resources
                (resources_of (Od.get (files w) filename)) k) as Hres.
    { rewrite (state_outside _ _ _ _ _ HS Hnot). by eapply classified_kept. }
    split; [done|]. intros v [_ Hv]%elem_of_data_entries. congruence.
Qed.

(** C5. A missing key that matches a no-translate pattern is in no
    request sent to the provider, and the mapping handed to [_write_resx]
    holds the base value for it.  When the file has been processed
    without an exception it has been rewritten, and the rewrite holds one
    value for the key, the base value (the key is in the base order:
    [run] passes the keys of the base file as [base_resource_keys]); when
    processing raises, the file is left as it was.  With usable answers
    and a batch size other than 0 it raises only if the merged mapping
    cannot be serialised. *)
Theorem no_translate_keys_are_copied base_resources base_resource_keys
    filename (w : world) r w' new k :
  is_Some (Re.re_match LOCALIZED_NAME_RE filename) →
  process_file provider self base_resources base_resource_keys filename w = (r, w') →
  trace w' = trace w ++ new →
  k ∈ Od.keys base_resources →
  resources_of (Od.get (files w) filename) !! k = None →
  no_translate k = true →
  let label := language_comment_of (Od.get (files w) filename) in
  ∃ v, Od.get base_resources k = Some v
    ∧ (∀ req l a, Translate req l a ∈ new → k ∉ Od.keys req)
    ∧ (∀ p res order c, WriteResx p res order c ∈ new →
         p = filename ∧ order = base_resource_keys ∧ res !! k = Some (PStr v))
    ∧ match r with
      | inr _ =>
          ∃ res text,
            WriteResx filename res base_resource_keys label ∈ new
            ∧ resx_text res base_resource_keys label = inr text
            ∧ files w' = Od.set (files w) filename text
            ∧ (k ∈ base_resource_keys →
               ∀ v', (k, v') ∈ data_entries res base_resource_keys ↔ v' = PStr v)
      | inl _ => files w' = files w
      end
    ∧ ((∀ req l a, Translate req l a ∈ new → usable a = true) →
       batch_size self ≠ 0 →
       ∃ all, all !! k = Some (PStr v)
              ∧ match resx_text all base_resource_keys label with
                | inr _ => r = inr tt
                | inl e => r = inl e
                end).
Proof.
  intros Hm Hrun Ht Hbase Hmissing Hno label. subst label.
  destruct (process_file_report _ _ _ _ _ _ _ Hm Hrun Ht)
    as (all_pre & tr & lang & Hcl & HT & Hwrites & Hfail & Hdone & Hok).
  assert (k ∉ Od.keys tr) as Hnot.
  { intros Hin. apply (cl_keys _ _ _ _ Hcl) in Hin as (_ & _ & ?). congruence. }
  pose proof Hbase as [v Hv]%OdFacts.elem_keys_get. exists v.
  assert (∀ res, batches_state tr all_pre res new → res !! k = Some (PStr v))
    as Hkeep.
  { intros res HS. rewrite (state_outside _ _ _ _ _ HS Hnot).
    rewrite (cl_copied _ _ _ _ Hcl k) by done. by rewrite Hv. }
  split_and!.
  - done.
  - intros req l a Hev Hin. apply Hnot.
    apply OdFacts.elem_keys_get in Hin as [x Hx].
    destruct (bt_requests _ _ _ _ HT _ _ _ Hev) as [_ Hsub].
    apply OdFacts.elem_keys_get. exists x. by apply Hsub.
  - intros p res order c Hev.
    destruct (Hwrites _ _ _ _ Hev) as (-> & -> & _ & HS & _). auto.
  - destruct r as [e|[]]; [by destruct (Hfail e)|].
    destruct Hdone as [res Hev]; [done|].
    destruct (Hwrites _ _ _ _ Hev) as (_ & _ & _ & HS & _ & text & Htext & Hf).
    exists res, text. split_and!; [done..|].
    intros Horder v'. rewrite elem_of_data_entries, (Hkeep res HS).
    split; [by intros [_ [= <-]]|by intros ->].
  - intros Hus Hbs. destruct (Hok Hus Hbs) as (all & HS & _ & Hwrite).
    exists all. split; [by apply Hkeep|].
    destruct (resx_text all base_resource_keys _); [done|]. by destruct Hwrite.
Qed.

(** C6, as the code has it.  When every answer of the provider is usable
    (a mapping, or a falsy value: the failure signal) and the batch size
    is at least 1, a failed batch stops nothing: every batch of the file
    is requested, in order; the keys of a failed batch stay out of the
    merged mapping unless the answer to another batch supplied them;
    every key to translate that an answer contains gets a value; no value
    of a key to translate comes from anywhere but an answer; and the file
    is rewritten from the merged mapping, the call returning normally
    (it raises only if that mapping cannot be serialised). *)
Theorem failed_batch_is_isolated base_resources base_resource_keys filename
    (w : world) r w' new :
  is_Some (Re.re_match LOCALIZED_NAME_RE filename) →
  process_file provider self base_resources base_resource_keys filename w = (r, w') →
  trace w' = trace w ++ new →
  1 ≤ batch_size self →
  (∀ req l a, Translate req l a ∈ new → usable a = true) →
  ∃ (to_translate : list (string * string)) (all : gmap string pyval),
    (∀ k, k ∈ Od.keys to_translate ↔
          k ∈ Od.keys base_resources
          ∧ resources_of (Od.get (files w) filename) !! k = None
          ∧ no_translate k = false)
    ∧ Od.keys <$> requests new = all_batches (Od.keys to_translate)
    ∧ (∀ req l v k, Translate req l (inr v) ∈ new → truthy v = false →
         k ∈ Od.keys req →
         (∀ req' l' kvs, Translate req' l' (inr (PDict kvs)) ∈ new → k ∉ kvs.*1) →
         all !! k = None)
    ∧ (∀ req l kvs k, Translate req l (inr (PDict kvs)) ∈ new → k ∈ kvs.*1 →
         k ∈ Od.keys to_translate → is_Some (all !! k))
    ∧ (∀ k v, all !! k = Some v → k ∈ Od.keys to_translate →
         ∃ req l kvs, Translate req l (inr (PDict kvs)) ∈ new ∧ (k, v) ∈ kvs)
    ∧ match resx_text all base_resource_keys
              (language_comment_of (Od.get (files w) filename)) with
      | inr text =>
          r = inr tt
          ∧ WriteResx filename all base_resource_keys
              (language_comment_of (Od.get (files w) filename)) ∈ new
          ∧ files w' = Od.set (files w) filename text
      | inl e => r = inl e
      end.
Proof.
  intros Hm Hrun Ht Hbs Hus.
  destruct (process_file_report _ _ _ _ _ _ _ Hm Hrun Ht)
    as (all_pre & tr & lang & Hcl & HT & _ & _ & _ & Hok).
  destruct (Hok Hus) as (all & HS & Hreq & Hwrite); [lia|].
  assert (∀ k, k ∈ Od.keys tr → all_pre !! k = None) as Hpre.
  { intros k (_ & Hnone & Hno)%(cl_keys _ _ _ _ Hcl).
    eapply cl_absent; [done..|]. intros [_ ?]. congruence. }
  exists tr, all. split_and!.
  - by apply (cl_keys _ _ _ _ Hcl).
  - by apply Hreq.
  - intros req l v k Hev Hv Hk Hother.
    destruct (all !! k) as [x|] eqn:E; [|done]. exfalso.
    assert (k ∈ Od.keys tr) as Hin.
    { apply OdFacts.elem_keys_get in Hk as [y Hy].
      destruct (bt_requests _ _ _ _ HT _ _ _ Hev) as [_ Hsub].
      apply OdFacts.elem_keys_get. exists y. by apply Hsub. }
    destruct (bs_origin _ _ _ _ HS k x E (Hpre k Hin))
      as (_ & req' & l' & kvs & Hev' & Hkv).
    apply (Hother _ _ _ Hev'). apply list_elem_of_fmap. by exists (k, x).
  - intros req l kvs k Hev Hk Hin. by eapply bs_takes.
  - intros k v Hv Hin. by destruct (bs_origin _ _ _ _ HS k v Hv (Hpre k Hin)).
  - done.
Qed.

(** *** The whole run *)

Definition header_log : list event :=
  [Log MsgBanner; Log (MsgBaseUrl (base_url self)); Log (MsgModel (model_id self));
   Log (MsgI18nPath (i18n_path self))].

(** what [_read_resx_ordered] logs for a file with this content *)
Definition parse_log (content : option string) (file_path : string) : list event :=
  match content with
  | Some text =>
      match et_data_nodes text with
      | Some _ => []
      | None => [Log (MsgParseError file_path)]
      end
  | None => []
  end.

(** [localized_files] *)
Definition localized_files_of (w : world) : list string :=
  filter (fun f => Str.startswith f "Strings." && Str.endswith f ".resx")
         (Od.keys (files w)).

(** [for filename in localized_files: ...] *)
Definition process_files (base_resources : odict string)
    (base_resource_keys : list string) (names : list string) : M unit :=
  for_each names
    (fun filename _ =>
       process_file provider self base_resources base_resource_keys filename) tt.

Lemma read_resx_ordered_exact file_path (w : world) :
  _read_resx_ordered file_path w
  = (inr (ordered_resources_of (Od.get (files w) file_path)),
     add_events w (parse_log (Od.get (files w) file_path) file_path)).
Proof.
  unfold _read_resx_ordered, bind, read_file, ordered_resources_of, parse_log.
  simpl. destruct (Od.get (files w) file_path) as [text|].
  - destruct (et_data_nodes text); [|done]. by rewrite add_events_nil.
  - by rewrite add_events_nil.
Qed.

Lemma run_eq (w : world) :
  run provider self w =
  if Od.mem (files w) base_resx_path then
    let ordered := ordered_resources_of (Od.get (files w) base_resx_path) in
    let base_resources := Od.of_pairs ordered in
    let w2 := add_events w
                (header_log ++ Log MsgReadingBase
                 :: parse_log (Od.get (files w) base_resx_path) base_resx_path
                 ++ [Log (MsgFoundBase (length base_resources))]) in
    match process_files base_resources ordered.*1 (localized_files_of w) w2 with
    | (inr _, w3) => (inr tt, add_events w3 [Log MsgComplete])
    | (inl e, w3) => (inl e, w3)
    end
  else
    (inr tt, add_events w (header_log ++ [Log (MsgBaseNotFound base_resx_path)])).
Proof.
  unfold run.
  rewrite bind_eq, log_eq. rewrite bind_eq, log_eq.
  rewrite bind_eq, log_eq. rewrite bind_eq, log_eq.
  rewrite bind_eq. unfold path_exists at 1. cbv beta iota.
  rewrite !add_events_app. simpl app.
  rewrite files_add_events.
  destruct (Od.mem (files w) base_resx_path) eqn:Hmem; cbv beta iota.
  - change (negb true) with false. cbv iota.
    rewrite bind_eq, log_eq. rewrite bind_eq, read_resx_ordered_exact.
    rewrite files_add_events.
    rewrite bind_eq, log_eq. rewrite bind_eq. unfold listdir at 1. cbv beta iota.
    rewrite !add_events_app, files_add_events. simpl app.
    rewrite bind_eq.
    unfold process_files, localized_files_of, header_log. cbv zeta.
    rewrite ?files_add_events.
    match goal with
    | |- context [for_each ?l ?b ?s ?w0] => destruct (for_each l b s w0) as [[e|[]] w3]
    end; [done|]. by rewrite log_eq.
  - change (negb false) with true. cbv iota. by rewrite log_eq, add_events_app.
Qed.

Lemma process_file_step base_resources base_resource_keys filename
    (w : world) r w' :
  process_file provider self base_resources base_resource_keys filename w = (r, w') →
  ∃ new, trace w' = trace w ++ new
    ∧ (∀ p res o c, WriteResx p res o c ∈ new →
         p = filename ∧ is_Some (Re.re_match LOCALIZED_NAME_RE filename))
    ∧ (files w' = files w
       ∨ (is_Some (Re.re_match LOCALIZED_NAME_RE filename)
          ∧ ∃ text, files w' = Od.set (files w) filename text)).
Proof.
  intros Hrun.
  destruct (Re.re_match LOCALIZED_NAME_RE filename) as [m|] eqn:Hm.
  - pose proof (process_file_spec base_resources base_resource_keys filename w) as H.
    unfold wp in H. rewrite Hrun in H. simpl in H.
    destruct (file_outcome_report _ _ _ _ _ _ (mk_is_Some _ _ Hm) H)
      as (new & Ht & all_pre & tr & lang & _ & _ & Hwrites & Hfail & Hdone & _).
    exists new. split_and!; [done| |].
    + intros p res o c Hev. by destruct (Hwrites _ _ _ _ Hev) as (-> & _).
    + destruct r as [e|[]].
      * left. by destruct (Hfail e).
      * right. split; [done|]. destruct Hdone as [res Hev]; [done|].
        destruct (Hwrites _ _ _ _ Hev) as (_ & _ & _ & _ & _ & text & _ & Hf).
        by exists text.
  - rewrite process_file_skipped in Hrun by done. injection Hrun as <- <-.
    exists []. rewrite app_nil_r.
    split_and!; [done|by intros ???? ?%elem_of_nil|by left].
Qed.

Lemma process_files_cons base_resources base_resource_keys f names (w : world) :
  process_files base_resources base_resource_keys (f :: names) w =
  match process_file provider self base_resources base_resource_keys f w with
  | (inr _, w1) => process_files base_resources base_resource_keys names w1
  | (inl e, w1) => (inl e, w1)
  end.
Proof.
  unfold process_files. simpl. rewrite bind_eq.
  by destruct (process_file provider self base_resources base_resource_keys f w)
    as [[e|[]] w1].
Qed.

(** The loop over the files writes only the files it lists whose names
    match the pattern, and keeps the directory listing. *)
Lemma process_files_frame base_resources base_resource_keys names (w : world) r w' :
  process_files base_resources base_resource_keys names w = (r, w') →
  ∃ new, trace w' = trace w ++ new
    ∧ (∀ p res o c, WriteResx p res o c ∈ new →
         p ∈ names ∧ is_Some (Re.re_match LOCALIZED_NAME_RE p))
    ∧ (∀ g, g ∉ names ∨ Re.re_match LOCALIZED_NAME_RE g = None →
         Od.get (files w') g = Od.get (files w) g)
    ∧ (names ⊆ Od.keys (files w) → Od.keys (files w') = Od.keys (files w)).
Proof.
  revert w. induction names as [|f names IH]; intros w Hrun.
  - injection Hrun as <- <-. exists []. rewrite app_nil_r.
    split_and!; [done|by intros ???? ?%elem_of_nil|done|done].
  - rewrite process_files_cons in Hrun.
    destruct (process_file provider self base_resources base_resource_keys f w)
      as [r1 w1] eqn:Hstep.
    destruct (process_file_step _ _ _ _ _ _ Hstep) as (new1 & Ht1 & Hw1 & Hf1).
    assert (∀ g, g ≠ f ∨ Re.re_match LOCALIZED_NAME_RE g = None →
                 Od.get (files w1) g = Od.get (files w) g) as Hframe1.
    { intros g Hg. destruct Hf1 as [->|(Hm & text & ->)]; [done|].
      apply OdFacts.get_set_ne. intros <-. destruct Hg as [?|Hg]; [done|].
      rewrite Hg in Hm. by destruct Hm. }
    assert (f ∈ Od.keys (files w) → Od.keys (files w1) = Od.keys (files w)) as Hkeys1.
    { intros Hin. destruct Hf1 as [->|(Hm & text & ->)]; [done|].
      rewrite OdFacts.keys_set. by apply OdFacts.mem_keys in Hin as ->. }
    destruct r1 as [e|[]].
    + injection Hrun as <- <-. exists new1. split_and!; [done| | |].
      * intros p res o c Hev. destruct (Hw1 _ _ _ _ Hev) as [-> ?].
        split; [left|done].
      * intros g Hg. apply Hframe1. destruct Hg as [Hg|Hg]; [|by right].
        left. intros ->. apply Hg. left.
      * intros Hsub. apply Hkeys1, Hsub. left.
    + destruct (IH w1 Hrun) as (new2 & Ht2 & Hw2 & Hf2 & Hk2).
      exists (new1 ++ new2). split_and!.
      * by rewrite Ht2, Ht1, app_assoc.
      * intros p res o c [Hev|Hev]%elem_of_app.
        -- destruct (Hw1 _ _ _ _ Hev) as [-> ?]. split; [left|done].
        -- destruct (Hw2 _ _ _ _ Hev) as [? ?]. split; [by right|done].
      * intros g Hg. rewrite Hf2, Hframe1; [done| |].
        -- destruct Hg as [Hg|Hg]; [|by right]. left. intros ->. apply Hg. left.
        -- destruct Hg as [Hg|Hg]; [|by right]. left. intros ?. apply Hg. by right.
      * intros Hsub. rewrite Hk2, Hkeys1; [done| |].
        -- apply Hsub. left.
        -- rewrite Hkeys1 by (apply Hsub; left). intros x Hx. apply Hsub. by right.
Qed.

Lemma logs_only_cons m t : logs_only t → logs_only (Log m :: t).
Proof. intros H e [->|He]%elem_of_cons; eauto. Qed.

Lemma logs_only_nil : logs_only [].
Proof. by intros e ?%elem_of_nil. Qed.

Lemma logs_only_app t1 t2 : logs_only t1 → logs_only t2 → logs_only (t1 ++ t2).
Proof. intros H1 H2 e [?|?]%elem_of_app; auto. Qed.

Lemma logs_only_parse_log content file_path : logs_only (parse_log content file_path).
Proof.
  unfold parse_log. destruct content as [text|]; [|apply logs_only_nil].
  destruct (et_data_nodes text); [apply logs_only_nil|].
  apply logs_only_cons, logs_only_nil.
Qed.

Lemma logs_only_start content file_path m :
  logs_only (header_log ++ Log MsgReadingBase
             :: parse_log content file_path ++ [Log m]).
Proof.
  apply logs_only_app; [repeat apply logs_only_cons; apply logs_only_nil|].
  apply logs_only_cons, logs_only_app; [apply logs_only_parse_log|].
  apply logs_only_cons, logs_only_nil.
Qed.

(** C10. [Strings.resx] passes the filter of the directory listing, does
    not match the pattern of the localized names, so the loop body does
    nothing for it; and a run leaves the content of [Strings.resx] as it
    was and never calls [_write_resx] on it. *)
Theorem base_file_is_never_a_target (w : world) :
  Str.startswith base_resx_path "Strings." && Str.endswith base_resx_path ".resx"
  = true
  ∧ Re.re_match LOCALIZED_NAME_RE base_resx_path = None
  ∧ (∀ base_resources base_resource_keys (w0 : world),
       process_file provider self base_resources base_resource_keys
                    base_resx_path w0 = (inr tt, w0))
  ∧ match run provider self w with
    | (r, w') =>
        Od.get (files w') base_resx_path = Od.get (files w) base_resx_path
        ∧ ∃ new, trace w' = trace w ++ new
                 ∧ ∀ res order c, WriteResx base_resx_path res order c ∉ new
    end.
Proof.
  assert (Re.re_match LOCALIZED_NAME_RE base_resx_path = None) as Hno
    by (by vm_compute).
  split_and!; [by vm_compute|done|by intros; apply process_file_skipped|].
  rewrite run_eq. destruct (Od.mem (files w) base_resx_path).
  - cbv zeta.
    match goal with
    | |- context [process_files ?b ?k ?n ?w2] =>
        destruct (process_files b k n w2) as [r w3] eqn:Hloop;
        destruct (process_files_frame _ _ _ _ _ _ Hloop) as (new & Ht & Hw & Hf & _)
    end.
    assert (∀ res order c, WriteResx base_resx_path res order c ∉ new) as Hnw.
    { intros res order c Hev. destruct (Hw _ _ _ _ Hev) as [_ Hm].
      rewrite Hno in Hm. by destruct Hm. }
    destruct r as [e|[]].
    + split; [by rewrite Hf by (by right)|].
      eexists. split; [rewrite Ht; simpl; by rewrite <- app_assoc|].
      intros res order c [Hev|Hev]%elem_of_app; [|by eapply Hnw].
      exact (no_writes_logs _ (logs_only_start _ _ _) _ _ _ _ Hev).
    + split; [simpl; by rewrite Hf by (by right)|].
      eexists. split; [simpl; rewrite Ht; simpl; by rewrite <- !app_assoc|].
      intros res order c [Hev|[Hev|Hev]%elem_of_app]%elem_of_app;
        [|by eapply Hnw|by apply list_elem_of_singleton in Hev].
      exact (no_writes_logs _ (logs_only_start _ _ _) _ _ _ _ Hev).
  - split; [done|]. eexists. split; [done|].
    intros res order c Hev.
    refine (no_writes_logs _ _ _ _ _ _ Hev).
    apply logs_only_app; repeat apply logs_only_cons; apply logs_only_nil.
Qed.

(** *** A second run *)

Definition same_value (v : option pyval) (s : option string) : bool :=
  match v, s with
  | Some (PStr a), Some b => String.eqb a b
  | None, None => true
  | _, _ => false
  end.

(** The file a call of [_write_resx] wrote reads back as it was written:
    [_get_language_comment] finds the comment that was put in, and
    [_read_resx] the value of every name of the base order. *)
Definition reads_back (e : event) : bool :=
  match e with
  | WriteResx _ res order c =>
      match resx_text res order c with
      | inr text =>
          String.eqb (comment_line (language_comment_of (Some text)))
                     (comment_line c)
          && forallb (fun k => same_value (res !! k)
                                 (resources_of (Some text) !! k)) order
      | inl _ => true
      end
  | _ => true
  end.

(** The provider answered a call with a mapping that has every requested
    key. *)
Definition answers_all (e : event) : bool :=
  match e with
  | Translate req _ (inr (PDict kvs)) =>
      forallb (fun k => bool_decide (k ∈ kvs.*1)) (Od.keys req)
  | Translate _ _ _ => false
  | _ => true
  end.

(** A file content that a run only reproduces. *)
Definition settled (base_resources : odict string)
    (base_resource_keys : list string) (text : string) : Prop :=
  ∃ res c,
    resx_text res base_resource_keys c = inr text
    ∧ comment_line (language_comment_of (Some text)) = comment_line c
    ∧ (∀ k, k ∈ base_resource_keys →
         same_value (res !! k) (resources_of (Some text) !! k) = true)
    ∧ (∀ k, k ∈ Od.keys base_resources → is_Some (res !! k)).

Lemma forallb_elem_of {A} (f : A -> bool) (l : list A) x :
  forallb f l = true → x ∈ l → f x = true.
Proof.
  intros H Hx. apply list_elem_of_In in Hx.
  by apply (proj1 (forallb_forall f l) H).
Qed.

Lemma filter_none {A} (P : A -> Prop) `{!∀ x, Decision (P x)} (l : list A) :
  (∀ x, x ∈ l → ¬ P x) → filter P l = [].
Proof.
  induction l as [|a l IH]; intros Hall; [done|].
  rewrite filter_cons_False by (apply Hall; left).
  apply IH. intros x Hx. apply Hall. by right.
Qed.

Lemma data_entries_ext (r1 r2 : gmap string pyval) order :
  (∀ k, k ∈ order → r1 !! k = r2 !! k) →
  data_entries r1 order = data_entries r2 order.
Proof.
  unfold data_entries. induction order as [|k order IH]; intros H; [done|].
  csimpl. rewrite (H k) by left. rewrite IH; [done|].
  intros x Hx. apply H. by right.
Qed.

Lemma same_value_lookup (res : gmap string pyval) (existing : gmap string string) k :
  same_value (res !! k) (existing !! k) = true →
  (PStr <$> existing) !! k = res !! k.
Proof.
  rewrite lookup_fmap. unfold same_value.
  destruct (res !! k) as [[]|], (existing !! k); try done.
  by intros ->%String.eqb_eq.
Qed.

Lemma requests_elem t req :
  req ∈ requests t → ∃ l a, Translate req l a ∈ t.
Proof.
  unfold requests. rewrite list_elem_of_omap.
  intros (e & He & Hr). destruct e; try done. injection Hr as ->. eauto.
Qed.

(** A settled file is rewritten with the text it has, without any call of
    the provider. *)
Lemma settled_rewrite base_resources base_resource_keys filename text (w : world) :
  Od.keys base_resources ⊆ base_resource_keys →
  is_Some (Re.re_match LOCALIZED_NAME_RE filename) →
  Od.get (files w) filename = Some text →
  settled base_resources base_resource_keys text →
  ∃ logs, process_file provider self base_resources base_resource_keys filename w
          = (inr tt, add_events w logs)
          ∧ requests logs = [].
Proof.
  intros Hsub [m Hm] Hfile (res & c & Htext & Hc & Hvals & Hall).
  unfold process_file. rewrite Hm.
  rewrite bind_eq, get_language_comment_eq.
  rewrite bind_eq, log_eq. rewrite bind_eq.
  match goal with
  | |- context [_read_resx filename ?w0] =>
      destruct (read_resx_eq filename w0) as (rlogs & Hr & Hrl)
  end.
  rewrite Hr. rewrite files_add_events, Hfile.
  set (existing := resources_of (Some text)) in *.
  set (label := language_comment_of (Some text)) in *.
  assert (∀ k, k ∈ base_resource_keys → (PStr <$> existing) !! k = res !! k) as Hsame.
  { intros k Hk. by apply same_value_lookup, Hvals. }
  rewrite filter_none.
  2: { intros k Hk Hnone. destruct (Hall k Hk) as [v Hv].
       rewrite <- Hsame, lookup_fmap, Hnone in Hv by (by apply Hsub). done. }
  rewrite bind_eq, log_eq, bind_eq, write_resx_eq.
  assert (resx_text (PStr <$> existing) base_resource_keys label = inr text) as ->.
  { rewrite <- Htext. unfold resx_text.
    rewrite (data_entries_ext _ res) by done. by rewrite Hc. }
  rewrite log_eq.
  eexists. split.
  - unfold add_events. simpl. rewrite (OdFacts.set_id _ _ _ Hfile).
    f_equal. f_equal. by repeat (rewrite <- app_assoc; simpl).
  - simpl. rewrite requests_app, (requests_logs rlogs) by done. done.
Qed.

Lemma second_run_idle base_resources base_resource_keys names (w : world) :
  Od.keys base_resources ⊆ base_resource_keys →
  (∀ g, g ∈ names → is_Some (Re.re_match LOCALIZED_NAME_RE g) →
     ∃ text, Od.get (files w) g = Some text
             ∧ settled base_resources base_resource_keys text) →
  ∃ logs, process_files base_resources base_resource_keys names w
          = (inr tt, add_events w logs)
          ∧ requests logs = [].
Proof.
  intros Hsub. revert w. induction names as [|f names IH]; intros w Hset.
  - exists []. by rewrite add_events_nil.
  - rewrite process_files_cons.
    assert (∃ logs1,
              process_file provider self base_resources base_resource_keys f w
              = (inr tt, add_events w logs1) ∧ requests logs1 = [])
      as (logs1 & Hstep & Hreq1).
    { destruct (Re.re_match LOCALIZED_NAME_RE f) as [m|] eqn:Hm.
      - destruct (Hset f) as (text & Hf & Hs); [left|by rewrite Hm|].
        eapply settled_rewrite; [done|by rewrite Hm|done|done].
      - exists []. by rewrite add_events_nil, process_file_skipped. }
    rewrite Hstep.
    destruct (IH (add_events w logs1)) as (logs2 & Hloop & Hreq2).
    { intros g Hg Hm. apply Hset; [by right|done]. }
    rewrite Hloop. exists (logs1 ++ logs2). split.
    + by rewrite add_events_app.
    + by rewrite requests_app, Hreq1, Hreq2.
Qed.

Lemma answers_all_usable new req l a :
  forallb answers_all new = true → Translate req l a ∈ new →
  usable a = true ∧ ∃ kvs, a = inr (PDict kvs) ∧ ∀ k, k ∈ Od.keys req → k ∈ kvs.*1.
Proof.
  intros Hall Hev. pose proof (forallb_elem_of _ _ _ Hall Hev) as H.
  simpl in H. destruct a as [e|[]]; try done.
  split; [simpl; apply orb_true_r|]. eexists. split; [done|].
  intros k Hk. apply (forallb_elem_of _ _ _ H) in Hk.
  by apply bool_decide_eq_true in Hk.
Qed.

(** After a file was processed with complete answers, it is settled. *)
Lemma processed_file_settled base_resources base_resource_keys filename
    (w : world) w' new :
  1 ≤ batch_size self →
  is_Some (Re.re_match LOCALIZED_NAME_RE filename) →
  process_file provider self base_resources base_resource_keys filename w
  = (inr tt, w') →
  trace w' = trace w ++ new →
  forallb answers_all new = true →
  forallb reads_back new = true →
  ∃ text, Od.get (files w') filename = Some text
          ∧ settled base_resources base_resource_keys text.
Proof.
  intros Hbs Hm Hrun Ht Hans Hback.
  destruct (process_file_report _ _ _ _ _ _ _ Hm Hrun Ht)
    as (all_pre & tr & lang & Hcl & HT & _ & _ & _ & Hok).
  destruct Hok as (all & HS & Hreq & Hwrite); [|lia|].
  { intros req l a Hev. by destruct (answers_all_usable _ _ _ _ Hans Hev). }
  set (label := language_comment_of (Od.get (files w) filename)) in *.
  destruct (resx_text all base_resource_keys label) as [e|text] eqn:Htext; [done|].
  destruct Hwrite as (_ & Hev & Hf).
  exists text. split; [rewrite Hf; apply OdFacts.get_set_eq|].
  exists all, label. pose proof (forallb_elem_of _ _ _ Hback Hev) as Hrb.
  simpl in Hrb. rewrite Htext in Hrb. apply andb_true_iff in Hrb as [Hc Hv].
  split_and!.
  - done.
  - by apply String.eqb_eq.
  - intros k Hk. by apply (forallb_elem_of _ _ _ Hv).
  - intros k Hk.
    destruct (resources_of (Od.get (files w) filename) !! k) as [s0|] eqn:Hex.
    { exists (PStr s0). eapply lookup_weaken; [|by eapply bs_keeps].
      by eapply cl_existing. }
    destruct (no_translate k) eqn:Hno.
    { apply OdFacts.elem_keys_get in Hk as Hget. destruct Hget as [v Hv0].
      exists (PStr v). eapply lookup_weaken; [|by eapply bs_keeps].
      rewrite (cl_copied _ _ _ _ Hcl k) by done. by rewrite Hv0. }
    assert (k ∈ Od.keys tr) as Hin by (by apply (cl_keys _ _ _ _ Hcl)).
    rewrite <- (all_batches_concat (Od.keys tr) Hbs) in Hin.
    apply elem_of_concat in Hin as (b & Hb & Hkb).
    rewrite <- Hreq in Hb by done.
    apply list_elem_of_fmap in Hb as (req & -> & Hrq).
    apply requests_elem in Hrq as (l & a & Hev2).
    destruct (answers_all_usable _ _ _ _ Hans Hev2) as (_ & kvs & -> & Hkvs).
    eapply bs_takes; [done|done|by apply Hkvs|].
    by apply (cl_keys _ _ _ _ Hcl).
Qed.

Lemma first_run_settles base_resources base_resource_keys names (w : world) w' new :
  1 ≤ batch_size self →
  process_files base_resources base_resource_keys names w = (inr tt, w') →
  trace w' = trace w ++ new →
  forallb answers_all new = true →
  forallb reads_back new = true →
  ∀ g, g ∈ names → is_Some (Re.re_match LOCALIZED_NAME_RE g) →
       ∃ text, Od.get (files w') g = Some text
               ∧ settled base_resources base_resource_keys text.
Proof.
  intros Hbs. revert w new.
  induction names as [|f names IH]; intros w new Hrun Ht Hans Hback g Hg Hm.
  { by apply elem_of_nil in Hg. }
  rewrite process_files_cons in Hrun.
  destruct (process_file provider self base_resources base_resource_keys f w)
    as [[e|[]] w1] eqn:Hstep; [done|].
  destruct (process_file_step _ _ _ _ _ _ Hstep) as (new1 & Ht1 & _ & _).
  destruct (process_files_frame _ _ _ _ _ _ Hrun) as (new2 & Ht2 & _ & Hframe & _).
  assert (new = new1 ++ new2) as ->.
  { rewrite Ht2, Ht1, <- app_assoc in Ht. by apply app_inv_head in Ht. }
  rewrite forallb_app in Hans, Hback.
  apply andb_true_iff in Hans as [Hans1 Hans2].
  apply andb_true_iff in Hback as [Hback1 Hback2].
  destruct (decide (g ∈ names)) as [Hin|Hnotin].
  - by eapply IH.
  - apply elem_of_cons in Hg as [->|?]; [|done].
    rewrite Hframe by (by left).
    by eapply processed_file_settled.
Qed.

Lemma localized_files_subseteq (w : world) : localized_files_of w ⊆ Od.keys (files w).
Proof. intros x Hx. unfold localized_files_of in Hx. by apply list_elem_of_filter in Hx as [_ ?]. Qed.

(** C7, as the code has it.  When the first run ends normally with a batch
    size of at least 1, every answer of the provider held all the
    requested keys, and every file the run wrote reads back as it was
    written, a second run ends normally, leaves every file with the text
    it has and sends nothing to the provider. *)
Theorem second_run_reproduces_the_files (w0 : world) w1 new1 :
  run provider self w0 = (inr tt, w1) →
  trace w1 = trace w0 ++ new1 →
  1 ≤ batch_size self →
  forallb answers_all new1 = true →
  forallb reads_back new1 = true →
  ∃ w2 new2, run provider self w1 = (inr tt, w2)
             ∧ files w2 = files w1
             ∧ trace w2 = trace w1 ++ new2
             ∧ requests new2 = [].
Proof.
  intros Hrun Ht Hbs Hans Hback.
  rewrite run_eq in Hrun. rewrite run_eq.
  destruct (Od.mem (files w0) base_resx_path) eqn:Hmem.
  2: { injection Hrun as <-. rewrite files_add_events, Hmem.
       eexists _, _. split_and!; [done|done|done|].
       apply requests_logs, logs_only_app;
         repeat apply logs_only_cons; apply logs_only_nil. }
  cbv zeta in Hrun.
  set (ordered := ordered_resources_of (Od.get (files w0) base_resx_path)) in *.
  set (base := Od.of_pairs ordered) in *.
  match type of Hrun with
  | context [process_files _ _ _ ?w] => set (w2 := w) in *
  end.
  destruct (process_files base ordered.*1 (localized_files_of w0) w2)
    as [[e|[]] w3] eqn:Hloop; [done|].
  injection Hrun as <-.
  destruct (process_files_frame _ _ _ _ _ _ Hloop) as (newl & Htl & _ & Hframe & Hkeys).
  assert (Od.keys (files w3) = Od.keys (files w0)) as Hk.
  { rewrite Hkeys; [done|]. exact (localized_files_subseteq w0). }
  assert (Od.get (files w3) base_resx_path = Od.get (files w0) base_resx_path) as Hb.
  { rewrite Hframe; [done|]. right. by vm_compute. }
  assert (new1 = (header_log ++ Log MsgReadingBase
                  :: parse_log (Od.get (files w0) base_resx_path) base_resx_path
                  ++ [Log (MsgFoundBase (length base))])
                 ++ newl ++ [Log MsgComplete]) as ->.
  { simpl in Ht. rewrite Htl in Ht. unfold w2 in Ht. simpl in Ht.
    rewrite <- !app_assoc in Ht. apply app_inv_head in Ht.
    rewrite <- Ht. by repeat (rewrite <- app_assoc; simpl). }
  rewrite !forallb_app in Hans, Hback.
  apply andb_true_iff in Hans as [_ [Hans _]%andb_true_iff].
  apply andb_true_iff in Hback as [_ [Hback _]%andb_true_iff].
  pose proof (first_run_settles _ _ _ _ _ _ Hbs Hloop Htl Hans Hback) as Hset.
  rewrite !files_add_events.
  assert (Od.mem (files w3) base_resx_path = true) as ->.
  { apply OdFacts.mem_keys. rewrite Hk. by apply OdFacts.mem_keys. }
  cbv zeta. rewrite Hb. fold ordered. fold base.
  assert (localized_files_of (add_events w3 [Log MsgComplete]) = localized_files_of w0)
    as ->.
  { unfold localized_files_of. by rewrite files_add_events, Hk. }
  match goal with
  | |- context [process_files _ _ _ ?w] =>
      destruct (second_run_idle base ordered.*1 (localized_files_of w0) w)
        as (logs & Hrun2 & Hreq2)
  end.
  { intros k Hk0. by apply (OdFacts.of_pairs_keys ordered k). }
  { intros g Hg Hm. rewrite !files_add_events. by apply Hset. }
  rewrite Hrun2.
  exists (add_events (add_events w3 [Log MsgComplete])
            ((header_log ++ Log MsgReadingBase
              :: parse_log (Od.get (files w0) base_resx_path) base_resx_path
              ++ [Log (MsgFoundBase (length base))])
             ++ logs ++ [Log MsgComplete])).
  eexists. split_and!; [|done|done|].
  - by rewrite !add_events_app, <- !app_assoc.
  - rewrite requests_app, (requests_logs _ (logs_only_start _ _ _)).
    by rewrite requests_app, Hreq2.
Qed.

(** Without a base file the run stops before it lists the directory. *)
Lemma run_without_base_file (w : world) :
  Od.get (files w) base_resx_path = None →
  run provider self w
  = (inr tt, add_events w (header_log ++ [Log (MsgBaseNotFound base_resx_path)])).
Proof.
  intros Hnone. rewrite run_eq. unfold Od.mem. rewrite Hnone.
  rewrite bool_decide_eq_false_2; [done|]. by intros [? ?].
Qed.

End Reasoning.

(** ** The provider of the source *)

Section ProviderFacts.

Context {PS : Type}.
Variable create : PS -> odict string -> string -> OpenAI.completion * PS.
Variable json_loads : string -> option pyval.
Variable self : config.

(** A transport error ([APIError]) is answered with [None]. *)
Lemma api_error_returns_none st req lang st' :
  create st req lang = (OpenAI.RaiseAPIError, st') →
  answer_value (OpenAI._invoke_ai_translation create json_loads self st req lang).1
  = inr PNone.
Proof. unfold OpenAI._invoke_ai_translation. by intros ->. Qed.

(** Content that [json.loads] rejects is answered with [None]. *)
Lemma undecodable_content_returns_none st req lang st' content choices :
  create st req lang = (OpenAI.Response (Some content :: choices), st') →
  (∀ text, json_loads text = None) →
  answer_value (OpenAI._invoke_ai_translation create json_loads self st req lang).1
  = inr PNone.
Proof.
  unfold OpenAI._invoke_ai_translation, OpenAI.read_response.
  intros -> Hjson. simpl. by rewrite Hjson.
Qed.

(** A response without any choice raises [IndexError]. *)
Lemma response_without_choices_raises st req lang st' :
  create st req lang = (OpenAI.Response [], st') →
  answer_value (OpenAI._invoke_ai_translation create json_loads self st req lang).1
  = inl IndexError.
Proof. unfold OpenAI._invoke_ai_translation. by intros ->. Qed.

End ProviderFacts.

(** C9, at the failing input.  When the first choice of the response has no
    content ([message.content] is [None]), [_invoke_ai_translation] does
    not return [None]: the [AttributeError] of [None.strip()] leaves it,
    whatever [json.loads] and the rest of the response are. *)
Theorem response_without_content_raises {PS : Type}
    (json_loads : string -> option pyval) (self : config)
    (choices : list (option string)) (st : PS) (req : odict string) (lang : string) :
  answer_value
    (OpenAI._invoke_ai_translation
       (fun st _ _ => (OpenAI.Response (None :: choices), st))
       json_loads self st req lang).1
  = inl AttributeError.
Proof. reflexivity. Qed.

(** * Runs on concrete directories *)

(** a resource file as the tool writes it *)
Definition resx (label : option string) (entries : list (string * string)) : string :=
  XML_DECLARATION +:+ comment_line label
  +:+ strip_declaration
        (default "" (MiniXml.pretty RESX_HEADERS
                       ((fun kv => (kv.1, Some kv.2)) <$> entries))).

(** a provider that gives the answers of a script, one per call *)
Definition scripted (script : list answer) (req : odict string) (lang : string)
  : answer * list answer :=
  match script with
  | a :: rest => (a, rest)
  | [] => (Answer [] (inr PNone), [])
  end.

(** a provider that answers every call with a string for every key *)
Definition echo (st : unit) (req : odict string) (lang : string) : answer * unit :=
  (Answer [] (inr (PDict ((fun kv => (kv.1, PStr (lang +:+ ": " +:+ kv.2))) <$> req))),
   st).

Definition mapping (kvs : list (string * string)) : answer :=
  Answer [] (inr (PDict ((fun kv => (kv.1, PStr kv.2)) <$> kvs))).

Definition failure : answer :=
  Answer [MsgApiError; MsgTranslationFailed 3] (inr PNone).

Definition settings (batch_size : Z) : config :=
  Config "https://api.example/v1" "model" batch_size 3 "I18N".

(** the answers a run received, with their requests *)
Definition answered (t : list event) : list (odict string * (exn + pyval)) :=
  omap (fun e => match e with Translate req _ a => Some (req, a) | _ => None end) t.

Definition logged (t : list event) : list message :=
  omap (fun e => match e with Log m => Some m | _ => None end) t.

Definition french : string := "Strings.fr.resx".

Definition base_AB : string := resx None [("A", "Hi"); ("B", "Bye")].

(** A base file with the keys A and B, and a French file without entries. *)
Definition dir_two_batches (script : list answer) : world (list answer) :=
  World [(base_resx_path, base_AB); (french, resx (Some "Francais") [])] script [].

(** C1 does not hold as stated.  With a batch size of 1 the keys A and B go
    in two requests.  The answer to the request for A also holds B: B is
    not in the requested batch, yet it is accepted (it is a key to
    translate of the file), the later answer for B is dropped, and the
    file is written with the unsolicited value. *)
Lemma key_of_another_batch_is_accepted :
  let out := run (xml := MiniXml.library) scripted (settings 1)
               (dir_two_batches [mapping [("A", "Salut"); ("B", "unsolicited")];
                                 mapping [("B", "Au revoir")]]) in
  out.1 = inr tt
  ∧ answered (trace out.2)
    = [ ([("A", "Hi")], inr (PDict [("A", PStr "Salut"); ("B", PStr "unsolicited")]));
        ([("B", "Bye")], inr (PDict [("B", PStr "Au revoir")])) ]
  ∧ Od.get (files out.2) french
    = Some (resx (Some "Francais") [("A", "Salut"); ("B", "unsolicited")]).
Proof. vm_compute. split_and!; reflexivity. Qed.

(** a French file with a key, Z, that the base file does not have *)
Definition dir_stray_key : world unit :=
  World [(base_resx_path, resx None [("A", "Hi")]);
         (french, resx (Some "Francais") [("A", "Salut"); ("Z", "Zut")])] tt [].

(** C3 does not hold as stated.  The key Z is in the French file before
    the run and not in the base file: the run asks the provider nothing,
    rewrites the file in the base order, and Z and its value are gone. *)
Lemma key_outside_the_base_order_is_lost :
  let out := run (xml := MiniXml.library) echo (settings 20) dir_stray_key in
  resources_of (xml := MiniXml.library) (Od.get (files dir_stray_key) french) !! "Z"
  = Some "Zut"
  ∧ out.1 = inr tt
  ∧ answered (trace out.2) = []
  ∧ Od.get (files out.2) french = Some (resx (Some "Francais") [("A", "Salut")])
  ∧ resources_of (xml := MiniXml.library) (Od.get (files out.2) french) !! "Z" = None.
Proof. vm_compute. split_and!; reflexivity. Qed.

(** C6 does not hold as stated.  The batch of B fails (the provider returns
    [None]), but the answer to the batch of A held B too: the key of the
    failed batch is in the merged mapping and in the file. *)
Lemma key_of_a_failed_batch_is_present :
  let out := run (xml := MiniXml.library) scripted (settings 1)
               (dir_two_batches [mapping [("A", "Salut"); ("B", "unsolicited")];
                                 failure]) in
  out.1 = inr tt
  ∧ answered (trace out.2)
    = [ ([("A", "Hi")], inr (PDict [("A", PStr "Salut"); ("B", PStr "unsolicited")]));
        ([("B", "Bye")], inr PNone) ]
  ∧ Od.get (files out.2) french
    = Some (resx (Some "Francais") [("A", "Salut"); ("B", "unsolicited")]).
Proof. vm_compute. split_and!; reflexivity. Qed.

(** a language label of 160 characters *)
Definition long_label : string := Str.text (replicate 160 (ascii_of_nat 120)).

(** a complete French file that starts with its language comment *)
Definition labelled : string :=
  "<!-- " +:+ long_label +:+ " -->" +:+ Str.nl
  +:+ strip_declaration
        (default "" (MiniXml.pretty RESX_HEADERS
                       [("A", Some "Salut"); ("B", Some "Au revoir")])).

Definition dir_long_label : world unit :=
  World [(base_resx_path, base_AB); (french, labelled)] tt [].

(** C7 does not hold as stated.  The first run finds the language comment
    in the first 200 characters of the file and writes it after the XML
    declaration, where it ends beyond the 200th character; the second run
    no longer finds it and writes the file without it.  No key is missing
    and the provider is never called. *)
Lemma long_language_comment_is_lost :
  let first := run (xml := MiniXml.library) echo (settings 20) dir_long_label in
  let second := run (xml := MiniXml.library) echo (settings 20) first.2 in
  first.1 = inr tt
  ∧ second.1 = inr tt
  ∧ answered (trace second.2) = []
  ∧ Od.get (files first.2) french
    = Some (resx (Some long_label) [("A", "Salut"); ("B", "Au revoir")])
  ∧ Od.get (files second.2) french
    = Some (resx None [("A", "Salut"); ("B", "Au revoir")])
  ∧ Od.get (files second.2) french ≠ Od.get (files first.2) french.
Proof.
  vm_compute. split_and!; try reflexivity. discriminate.
Qed.

(** a directory whose base file is not well-formed *)
Definition dir_bad_base : world unit :=
  World [(base_resx_path, "<root><data>");
         (french, resx (Some "Francais") [("A", "Salut"); ("B", "Au revoir")])] tt [].

(** C2, at the failing input.  The base file exists and cannot be parsed:
    the run logs the parse error, goes on with an empty base, processes
    the French file and rewrites it without any of its entries, and ends
    normally. *)
Theorem unparsable_base_file_empties_the_localized_files :
  let out := run (xml := MiniXml.library) echo (settings 20) dir_bad_base in
  et_data_nodes (XmlLibrary := MiniXml.library) "<root><data>" = None
  ∧ out.1 = inr tt
  ∧ logged (trace out.2)
    = [MsgBanner; MsgBaseUrl "https://api.example/v1"; MsgModel "model";
       MsgI18nPath "I18N"; MsgReadingBase; MsgParseError "Strings.resx";
       MsgFoundBase 0; MsgProcessing "Strings.fr.resx" "Francais"; MsgNoMissing;
       MsgOrderSynchronized; MsgComplete]
  ∧ Od.get (files dir_bad_base) french
    = Some (resx (Some "Francais") [("A", "Salut"); ("B", "Au revoir")])
  ∧ Od.get (files out.2) french = Some (resx (Some "Francais") []).
Proof. vm_compute. split_and!; reflexivity. Qed.

(** The exception of C9 leaves [run] too: the run stops in the first batch,
    before the file is rewritten and before the closing log line. *)
Example response_without_content_aborts_the_run :
  let out := I18nSync_run (xml := MiniXml.library)
               (fun (st : unit) _ _ => (OpenAI.Response [None], st))
               (fun _ => None) (settings 20)
               (World [(base_resx_path, base_AB);
                       (french, resx (Some "Francais") [])] tt []) in
  out.1 = inl AttributeError
  ∧ answered (trace out.2) = [([("A", "Hi"); ("B", "Bye")], inl AttributeError)]
  ∧ Od.get (files out.2) french = Some (resx (Some "Francais") []).
Proof. vm_compute. split_and!; reflexivity. Qed.

(** ** The properties at concrete inputs *)

#[local] Existing Instance MiniXml.library.

Definition language_key : string := "SettingsSelectionItem_Common_Language_zh".

(** the base entries of the scenario: the last key is a language name *)
Definition scenario_base : odict string :=
  [("A", "Hi"); ("B", "Bye"); (language_key, "Zhongwen")].

(** the scenario: the localized file has the first key only *)
Definition scenario : world (list answer) :=
  World [(base_resx_path, resx None scenario_base);
         (french, resx (Some "Francais") [("A", "Salut")])]
        [mapping [("B", "Au revoir"); ("A", "overwritten"); ("Z", "unsolicited")]] [].

Definition scenario_run : (exn + unit) * world (list answer) :=
  process_file scripted (settings 20)
    scenario_base (Od.keys scenario_base) french scenario.

Lemma scenario_run_trace :
  trace scenario_run.2 = trace scenario ++ trace scenario_run.2.
Proof. reflexivity. Qed.

(** C3 in the scenario: the key A, which the file has, with the answer
    that tries to overwrite it. *)
Lemma existing_values_are_kept_witness :
  is_Some (Re.re_match LOCALIZED_NAME_RE french)
  ∧ resources_of (Od.get (files scenario) french) !! "A" = Some "Salut"
  ∧ let new := trace scenario_run.2 in
    let label := language_comment_of (Od.get (files scenario) french) in
    (∀ req l a, Translate req l a ∈ new → "A" ∉ Od.keys req)
    ∧ (∀ req l kvs, Translate req l (inr (PDict kvs)) ∈ new → "A" ∈ kvs.*1 →
         Log (WarnExistingKey "A") ∈ new)
    ∧ (∀ p res order c, WriteResx p res order c ∈ new →
         p = french ∧ order = Od.keys scenario_base
         ∧ res !! "A" = Some (PStr "Salut"))
    ∧ match scenario_run.1 with
      | inr _ =>
          ∃ res text,
            WriteResx french res (Od.keys scenario_base) label ∈ new
            ∧ resx_text res (Od.keys scenario_base) label = inr text
            ∧ files scenario_run.2 = Od.set (files scenario) french text
            ∧ ("A" ∈ Od.keys scenario_base →
               ∀ v, ("A", v) ∈ data_entries res (Od.keys scenario_base)
                    ↔ v = PStr "Salut")
            ∧ ("A" ∉ Od.keys scenario_base →
               "A" ∉ (data_entries res (Od.keys scenario_base)).*1)
      | inl _ => files scenario_run.2 = files scenario
      end
    ∧ ((∀ req l a, Translate req l a ∈ new → usable a = true) →
       batch_size (settings 20) ≠ 0 →
       ∃ all, all !! "A" = Some (PStr "Salut")
              ∧ match resx_text all (Od.keys scenario_base) label with
                | inr _ => scenario_run.1 = inr tt
                | inl e => scenario_run.1 = inl e
                end).
Proof.
  assert (is_Some (Re.re_match LOCALIZED_NAME_RE french)) as Hm.
  { vm_compute. eexists. reflexivity. }
  assert (resources_of (Od.get (files scenario) french) !! "A" = Some "Salut")
    as Hk by (vm_compute; reflexivity).
  split_and!; [exact Hm|exact Hk|].
  exact (existing_values_are_kept scripted (settings 20)
           scenario_base (Od.keys scenario_base) french scenario
           scenario_run.1 scenario_run.2 (trace scenario_run.2) "A" "Salut"
           Hm (surjective_pairing _) scenario_run_trace Hk).
Defined.

(** C1 in the scenario: the key Z of the answer, which the base file does
    not have. *)
Lemma keys_outside_to_translate_are_dropped_witness :
  ¬ ("Z" ∈ Od.keys scenario_base
     ∧ resources_of (Od.get (files scenario) french) !! "Z" = None
     ∧ no_translate "Z" = false)
  ∧ (∀ req l kvs, Translate req l (inr (PDict kvs)) ∈ trace scenario_run.2 →
       "Z" ∈ kvs.*1 →
       Log (WarnExistingKey "Z") ∈ trace scenario_run.2
       ∨ Log (WarnUnexpectedKey "Z") ∈ trace scenario_run.2)
  ∧ (∀ p res order c, WriteResx p res order c ∈ trace scenario_run.2 →
       res !! "Z"
       = kept_value scenario_base (resources_of (Od.get (files scenario) french)) "Z"
       ∧ ∀ v, ("Z", v) ∈ data_entries res order →
              kept_value scenario_base
                (resources_of (Od.get (files scenario) french)) "Z" = Some v).
Proof.
  assert (¬ ("Z" ∈ Od.keys scenario_base
             ∧ resources_of (Od.get (files scenario) french) !! "Z" = None
             ∧ no_translate "Z" = false)) as Hk.
  { intros [Hin _]. apply list_elem_of_In in Hin. vm_compute in Hin.
    repeat destruct Hin as [Hin|Hin]; try discriminate Hin. exact Hin. }
  split; [exact Hk|].
  exact (keys_outside_to_translate_are_dropped scripted (settings 20)
           scenario_base (Od.keys scenario_base) french scenario
           scenario_run.1 scenario_run.2 (trace scenario_run.2) "Z"
           (surjective_pairing _) scenario_run_trace Hk).
Defined.

(** C5 in the scenario: the language name, missing in the file. *)
Lemma no_translate_keys_are_copied_witness :
  is_Some (Re.re_match LOCALIZED_NAME_RE french)
  ∧ language_key ∈ Od.keys scenario_base
  ∧ resources_of (Od.get (files scenario) french) !! language_key = None
  ∧ no_translate language_key = true
  ∧ let new := trace scenario_run.2 in
    let label := language_comment_of (Od.get (files scenario) french) in
    ∃ v, Od.get scenario_base language_key = Some v
      ∧ (∀ req l a, Translate req l a ∈ new → language_key ∉ Od.keys req)
      ∧ (∀ p res order c, WriteResx p res order c ∈ new →
           p = french ∧ order = Od.keys scenario_base
           ∧ res !! language_key = Some (PStr v))
      ∧ match scenario_run.1 with
        | inr _ =>
            ∃ res text,
              WriteResx french res (Od.keys scenario_base) label ∈ new
              ∧ resx_text res (Od.keys scenario_base) label = inr text
              ∧ files scenario_run.2 = Od.set (files scenario) french text
              ∧ (language_key ∈ Od.keys scenario_base →
                 ∀ v', (language_key, v') ∈ data_entries res (Od.keys scenario_base)
                       ↔ v' = PStr v)
        | inl _ => files scenario_run.2 = files scenario
        end
      ∧ ((∀ req l a, Translate req l a ∈ new → usable a = true) →
         batch_size (settings 20) ≠ 0 →
         ∃ all, all !! language_key = Some (PStr v)
                ∧ match resx_text all (Od.keys scenario_base) label with
                  | inr _ => scenario_run.1 = inr tt
                  | inl e => scenario_run.1 = inl e
                  end).
Proof.
  assert (is_Some (Re.re_match LOCALIZED_NAME_RE french)) as Hm.
  { vm_compute. eexists. reflexivity. }
  assert (language_key ∈ Od.keys scenario_base) as Hin.
  { apply list_elem_of_In. vm_compute. right. right. left. reflexivity. }
  assert (resources_of (Od.get (files scenario) french) !! language_key = None)
    as Hmissing by (vm_compute; reflexivity).
  assert (no_translate language_key = true) as Hno by (vm_compute; reflexivity).
  split_and!; [exact Hm|exact Hin|exact Hmissing|exact Hno|].
  exact (no_translate_keys_are_copied scripted (settings 20)
           scenario_base (Od.keys scenario_base) french scenario
           scenario_run.1 scenario_run.2 (trace scenario_run.2) language_key
           Hm (surjective_pairing _) scenario_run_trace Hin Hmissing Hno).
Defined.

(** what the scenario expects: B is sent for translation, the language name
    is copied, A is left as it is, and the file has the base order *)
Example scenario_outcome :
  scenario_run.1 = inr tt
  ∧ answered (trace scenario_run.2)
    = [([("B", "Bye")],
        inr (PDict [("B", PStr "Au revoir"); ("A", PStr "overwritten");
                    ("Z", PStr "unsolicited")]))]
  ∧ Od.get (files scenario_run.2) french
    = Some (resx (Some "Francais")
              [("A", "Salut"); ("B", "Au revoir"); (language_key, "Zhongwen")]).
Proof. vm_compute. split_and!; reflexivity. Qed.

(** a base file with three keys and a French file without entries *)
Definition three_keys : odict string := [("A", "One"); ("B", "Two"); ("C", "Three")].

Definition dir_three_batches : world (list answer) :=
  World [(base_resx_path, resx None three_keys); (french, resx (Some "Francais") [])]
        [mapping [("A", "Un")]; failure; mapping [("C", "Trois")]] [].

(** three batches of one key; the second one fails *)
Definition three_batches_run : (exn + unit) * world (list answer) :=
  process_file scripted (settings 1) three_keys (Od.keys three_keys) french
    dir_three_batches.

Definition usable_event (e : event) : bool :=
  match e with
  | Translate _ _ a => usable a
  | _ => true
  end.

Lemma usable_events new :
  forallb usable_event new = true →
  ∀ req l a, Translate req l a ∈ new → usable a = true.
Proof. intros Hall req l a Hev. exact (forallb_elem_of usable_event new _ Hall Hev). Qed.

(** three keys in two batches: the batch size is 2 *)
Definition dir_two_of_three : world (list answer) :=
  World [(base_resx_path, resx None three_keys); (french, resx (Some "Francais") [])]
        [mapping [("A", "Un"); ("B", "Deux")]; mapping [("C", "Trois")]] [].

Definition two_of_three_run : (exn + unit) * world (list answer) :=
  process_file scripted (settings 2) three_keys (Od.keys three_keys) french
    dir_two_of_three.

(** C8 on three keys and a batch size of 2. *)
Lemma batches_partition_keys_witness :
  1 ≤ batch_size (settings 2)
  ∧ NoDup (Od.keys three_keys)
  ∧ is_Some (Re.re_match LOCALIZED_NAME_RE french)
  ∧ let new := trace two_of_three_run.2 in
    let existing := resources_of (Od.get (files dir_two_of_three) french) in
    let missing := filter (λ k, existing !! k = None) (Od.keys three_keys) in
    let keys := filter (λ k, no_translate k = false) missing in
    let batches := all_batches (settings 2) keys in
    batches = [["A"; "B"]; ["C"]]
    ∧ concat batches = keys
    ∧ (∀ i b, batches !! i = Some b →
         (1 ≤ length b ≤ Z.to_nat (batch_size (settings 2)))%nat
         ∧ ((S i < length batches)%nat → length b = Z.to_nat (batch_size (settings 2))))
    ∧ (∀ k, k ∈ keys → ∃ i b, batches !! i = Some b ∧ k ∈ b)
    ∧ (∀ i j bi bj k, batches !! i = Some bi → batches !! j = Some bj →
         k ∈ bi → k ∈ bj → i = j)
    ∧ ∃ n, Od.keys <$> requests new = take n batches
           ∧ (n = length batches
              ∨ ((∃ e, two_of_three_run.1 = inl e)
                 ∧ files two_of_three_run.2 = files dir_two_of_three
                 ∧ ∃ req l a, Translate req l a ∈ new ∧ usable a = false)).
Proof.
  assert (1 ≤ batch_size (settings 2)) as Hbs by (vm_compute; discriminate).
  assert (NoDup (Od.keys three_keys)) as Hnd.
  { apply (bool_decide_unpack _). vm_compute. exact I. }
  assert (is_Some (Re.re_match LOCALIZED_NAME_RE french)) as Hm.
  { vm_compute. eexists. reflexivity. }
  split_and!; [exact Hbs|exact Hnd|exact Hm|].
  intros new existing missing keys batches.
  split; [vm_compute; reflexivity|].
  exact (batches_partition_keys scripted (settings 2) three_keys (Od.keys three_keys)
           french dir_two_of_three two_of_three_run.1 two_of_three_run.2
           (trace two_of_three_run.2) Hbs Hnd Hm (surjective_pairing _) eq_refl).
Defined.

(** the two batches are requested in the base order and the file is written *)
Example two_of_three_outcome :
  two_of_three_run.1 = inr tt
  ∧ answered (trace two_of_three_run.2)
    = [([("A", "One"); ("B", "Two")], inr (PDict [("A", PStr "Un"); ("B", PStr "Deux")]));
       ([("C", "Three")], inr (PDict [("C", PStr "Trois")]))]
  ∧ Od.get (files two_of_three_run.2) french
    = Some (resx (Some "Francais") [("A", "Un"); ("B", "Deux"); ("C", "Trois")]).
Proof. vm_compute. split_and!; reflexivity. Qed.

(** C6 on three batches, the second of which fails. *)
Lemma failed_batch_is_isolated_witness :
  is_Some (Re.re_match LOCALIZED_NAME_RE french)
  ∧ 1 ≤ batch_size (settings 1)
  ∧ (∀ req l a, Translate req l a ∈ trace three_batches_run.2 → usable a = true)
  ∧ ∃ (to_translate : list (string * string)) (all : gmap string pyval),
      (∀ k, k ∈ Od.keys to_translate ↔
            k ∈ Od.keys three_keys
            ∧ resources_of (Od.get (files dir_three_batches) french) !! k = None
            ∧ no_translate k = false)
      ∧ Od.keys <$> requests (trace three_batches_run.2)
        = all_batches (settings 1) (Od.keys to_translate)
      ∧ (∀ req l v k, Translate req l (inr v) ∈ trace three_batches_run.2 →
           truthy v = false → k ∈ Od.keys req →
           (∀ req' l' kvs, Translate req' l' (inr (PDict kvs)) ∈ trace three_batches_run.2 →
              k ∉ kvs.*1) →
           all !! k = None)
      ∧ (∀ req l kvs k, Translate req l (inr (PDict kvs)) ∈ trace three_batches_run.2 →
           k ∈ kvs.*1 → k ∈ Od.keys to_translate → is_Some (all !! k))
      ∧ (∀ k v, all !! k = Some v → k ∈ Od.keys to_translate →
           ∃ req l kvs, Translate req l (inr (PDict kvs)) ∈ trace three_batches_run.2
                        ∧ (k, v) ∈ kvs)
      ∧ match resx_text all (Od.keys three_keys)
                (language_comment_of (Od.get (files dir_three_batches) french)) with
        | inr text =>
            three_batches_run.1 = inr tt
            ∧ WriteResx french all (Od.keys three_keys)
                (language_comment_of (Od.get (files dir_three_batches) french))
              ∈ trace three_batches_run.2
            ∧ files three_batches_run.2 = Od.set (files dir_three_batches) french text
        | inl e => three_batches_run.1 = inl e
        end.
Proof.
  assert (is_Some (Re.re_match LOCALIZED_NAME_RE french)) as Hm.
  { vm_compute. eexists. reflexivity. }
  assert (1 ≤ batch_size (settings 1)) as Hbs by (vm_compute; discriminate).
  assert (∀ req l a, Translate req l a ∈ trace three_batches_run.2 → usable a = true)
    as Hus.
  { apply usable_events. vm_compute. reflexivity. }
  split_and!; [exact Hm|exact Hbs|exact Hus|].
  exact (failed_batch_is_isolated scripted (settings 1) three_keys (Od.keys three_keys)
           french dir_three_batches three_batches_run.1 three_batches_run.2
           (trace three_batches_run.2) Hm (surjective_pairing _) eq_refl Hbs Hus).
Defined.

(** the three batches: the keys of the first and of the third are written
    with their translations, the key of the second is not in the file *)
Example three_batches_outcome :
  three_batches_run.1 = inr tt
  ∧ answered (trace three_batches_run.2)
    = [([("A", "One")], inr (PDict [("A", PStr "Un")]));
       ([("B", "Two")], inr PNone);
       ([("C", "Three")], inr (PDict [("C", PStr "Trois")]))]
  ∧ Od.get (files three_batches_run.2) french
    = Some (resx (Some "Francais") [("A", "Un"); ("C", "Trois")]).
Proof. vm_compute. split_and!; reflexivity. Qed.

(** the scenario with a provider that answers every request in full *)
Definition dir_scenario : world unit :=
  World [(base_resx_path, resx None scenario_base);
         (french, resx (Some "Francais") [("A", "Salut")])] tt [].

Definition first_run : (exn + unit) * world unit :=
  run echo (settings 20) dir_scenario.

(** C7 on the scenario. *)
Lemma second_run_reproduces_the_files_witness :
  run echo (settings 20) dir_scenario = (inr tt, first_run.2)
  ∧ 1 ≤ batch_size (settings 20)
  ∧ forallb answers_all (trace first_run.2) = true
  ∧ forallb reads_back (trace first_run.2) = true
  ∧ ∃ w2 new2, run echo (settings 20) first_run.2 = (inr tt, w2)
               ∧ files w2 = files first_run.2
               ∧ trace w2 = trace first_run.2 ++ new2
               ∧ requests new2 = [].
Proof.
  assert (run echo (settings 20) dir_scenario = (inr tt, first_run.2)) as Hrun
    by (vm_compute; reflexivity).
  assert (1 ≤ batch_size (settings 20)) as Hbs by (vm_compute; discriminate).
  assert (forallb answers_all (trace first_run.2) = true) as Hans
    by (vm_compute; reflexivity).
  assert (forallb reads_back (trace first_run.2) = true) as Hback
    by (vm_compute; reflexivity).
  split_and!; [exact Hrun|exact Hbs|exact Hans|exact Hback|].
  exact (second_run_reproduces_the_files echo (settings 20) dir_scenario first_run.2
           (trace first_run.2) Hrun eq_refl Hbs Hans Hback).
Defined.

(** the second run of the scenario, computed *)
Example second_run_outcome :
  let second := run echo (settings 20) first_run.2 in
  second.1 = inr tt
  ∧ answered (trace first_run.2)
    = [([("B", "Bye")], inr (PDict [("B", PStr "Francais: Bye")]))]
  ∧ Od.get (files first_run.2) french
    = Some (resx (Some "Francais")
              [("A", "Salut"); ("B", "Francais: Bye"); (language_key, "Zhongwen")])
  ∧ files second.2 = files first_run.2.
Proof. vm_compute. split_and!; reflexivity. Qed.

(** * Further properties *)

(** ** Strings and patterns *)

Module StrFacts.

Lemma chars_text (l : list ascii) : Str.chars (Str.text l) = l.
Proof. apply list_ascii_of_string_of_list_ascii. Qed.

Lemma text_chars (s : string) : Str.text (Str.chars s) = s.
Proof. apply string_of_list_ascii_of_string. Qed.

Lemma chars_app (s t : string) : Str.chars (s +:+ t) = Str.chars s ++ Str.chars t.
Proof. induction s as [|a s IH]; simpl; [done|]. by rewrite <- IH. Qed.

Lemma length_chars (s : string) : length (Str.chars s) = String.length s.
Proof. induction s as [|a s IH]; simpl; [done|]. by rewrite IH. Qed.

Lemma ascii_eqb_refl (a : ascii) : Str.ascii_eqb a a = true.
Proof. unfold Str.ascii_eqb. by apply bool_decide_eq_true_2. Qed.

Lemma prefixb_app (p l : list ascii) : Str.prefixb p (p ++ l) = true.
Proof. induction p as [|a p IH]; simpl; [done|]. by rewrite ascii_eqb_refl, IH. Qed.

Lemma prefixb_spec (p l : list ascii) :
  Str.prefixb p l = true ↔ ∃ l', l = p ++ l'.
Proof.
  revert l. induction p as [|a p IH]; intros l; simpl.
  - split; [by exists l|done].
  - destruct l as [|b l]; [split; [done|by intros [? ?]]|].
    rewrite andb_true_iff, IH. unfold Str.ascii_eqb. rewrite bool_decide_eq_true.
    split.
    + intros [-> [l' ->]]. by exists l'.
    + intros [l' [= -> ->]]. split; [done|by exists l'].
Qed.

(** a literal whose first character differs from the head of the input
    does not match *)
Lemma prefixb_head_ne (a b : ascii) (p l : list ascii) :
  a ≠ b → Str.prefixb (a :: p) (b :: l) = false.
Proof.
  intros Hne. simpl. unfold Str.ascii_eqb.
  by rewrite bool_decide_eq_false_2.
Qed.

(** the leading white space of a list and what [lstrip] leaves *)
Lemma lstrip_split (l : list ascii) :
  ∃ ws, l = ws ++ Str.lstrip l ∧ forallb Str.isspace ws = true.
Proof.
  induction l as [|a l (ws & IH & Hws)]; [by exists []|]. simpl.
  destruct (Str.isspace a) eqn:Ha.
  - exists (a :: ws). simpl. rewrite Ha, Hws. split; [by f_equal|done].
  - by exists [].
Qed.

Lemma lstrip_head (l : list ascii) a l' :
  Str.lstrip l = a :: l' → Str.isspace a = false.
Proof.
  induction l as [|b l IH]; simpl; [done|].
  destruct (Str.isspace b) eqn:Hb; [done|]. by intros [= <- _].
Qed.

Lemma lstrip_id a (l : list ascii) :
  Str.isspace a = false → Str.lstrip (a :: l) = a :: l.
Proof. intros H. simpl. by rewrite H. Qed.

Lemma lstrip_spaces (ws l : list ascii) :
  forallb Str.isspace ws = true → Str.lstrip (ws ++ l) = Str.lstrip l.
Proof.
  induction ws as [|a ws IH]; simpl; [done|].
  intros [Ha Hws]%andb_true_iff. rewrite Ha. auto.
Qed.

(** [lstrip] leaves something of a list that ends in a character that is
    no white space *)
Lemma lstrip_last (l : list ascii) a :
  Str.isspace a = false → Str.lstrip (l ++ [a]) ≠ [].
Proof.
  intros Ha. induction l as [|b l IH]; simpl.
  - by rewrite Ha.
  - by destruct (Str.isspace b).
Qed.

End StrFacts.

Module ReFacts.
Import StrFacts.

Lemma bind_none {A B} (f : A → list B) (l : list A) :
  (∀ x, x ∈ l → f x = []) → l ≫= f = [].
Proof.
  induction l as [|a l IH]; intros H; [done|]. csimpl.
  rewrite (H a) by left. apply IH. intros x Hx. apply H. by right.
Qed.

Lemma head_bind_skip {A B} (f : A → list B) (l1 l2 : list A) x y ys :
  (∀ z, z ∈ l1 → f z = []) → f x = y :: ys →
  head ((l1 ++ x :: l2) ≫= f) = Some y.
Proof.
  intros H1 Hx. rewrite bind_app, (bind_none f l1 H1). csimpl. by rewrite Hx.
Qed.

Lemma run_length_stop c (m l : list ascii) a :
  forallb (Re.in_class c) m = true → Re.in_class c a = false →
  Re.run_length c (m ++ a :: l) = length m.
Proof.
  intros Hm Ha. induction m as [|b m IH]; simpl in *; [by rewrite Ha|].
  apply andb_true_iff in Hm as [-> Hm]. by rewrite IH.
Qed.

Lemma run_length_ge c (m l : list ascii) :
  forallb (Re.in_class c) m = true → (length m ≤ Re.run_length c (m ++ l))%nat.
Proof.
  intros Hm. induction m as [|b m IH]; simpl in *; [lia|].
  apply andb_true_iff in Hm as [-> Hm]. specialize (IH Hm). lia.
Qed.

Lemma rev_seq_S n : rev (seq 0 (S n)) = n :: rev (seq 0 n).
Proof. rewrite seq_S, rev_app_distr. done. Qed.

Lemma lit_hit (s : string) (l : list ascii) :
  Re.rx_run (Re.Lit s) (Str.chars s ++ l) = [Re.Cand (Str.chars s) l None].
Proof. simpl. by rewrite prefixb_app, drop_app_length. Qed.

Lemma lit_miss (s : string) (l : list ascii) :
  Str.prefixb (Str.chars s) l = false → Re.rx_run (Re.Lit s) l = [].
Proof. simpl. by intros ->. Qed.

(** [\s*] followed by a literal, on white space followed by the literal:
    the first candidate takes all the white space *)
Lemma spaces_lit_hit (s : string) (ws tail : list ascii) a p :
  Str.chars s = a :: p → Str.isspace a = false →
  forallb Str.isspace ws = true →
  head (Re.rx_run (Re.Cat (Re.Rep true 0 Re.Space) (Re.Lit s))
          (ws ++ Str.chars s ++ tail))
  = Some (Re.Cand (ws ++ Str.chars s) tail None).
Proof.
  intros Hs Ha Hws.
  change (Re.rx_run (Re.Cat (Re.Rep true 0 Re.Space) (Re.Lit s))
            (ws ++ Str.chars s ++ tail))
    with (Re.rx_run (Re.Rep true 0 Re.Space) (ws ++ Str.chars s ++ tail)
          ≫= (fun k1 =>
                (fun k2 => Re.Cand (Re.matched k1 ++ Re.matched k2) (Re.rest k2)
                             (match Re.group1 k1 with
                              | Some g => Some g
                              | None => Re.group1 k2
                              end))
                  <$> Re.rx_run (Re.Lit s) (Re.rest k1))).
  change (Re.rx_run (Re.Rep true 0 Re.Space) (ws ++ Str.chars s ++ tail))
    with ((fun n => Re.Cand (take n (ws ++ Str.chars s ++ tail))
                      (drop n (ws ++ Str.chars s ++ tail)) None)
            <$> Re.rep_counts true 0
                  (Re.run_length Re.Space (ws ++ Str.chars s ++ tail))).
  assert (Re.run_length Re.Space (ws ++ Str.chars s ++ tail) = length ws) as ->.
  { rewrite Hs. simpl app. by apply run_length_stop. }
  unfold Re.rep_counts. rewrite Nat.sub_0_r, rev_seq_S. csimpl.
  rewrite drop_app_length, take_app_length, prefixb_app, drop_app_length. done.
Qed.

(** ... and on white space followed by something else: no candidate *)
Lemma spaces_lit_miss (s : string) (ws q : list ascii) a p b :
  Str.chars s = a :: p → Str.isspace a = false →
  forallb Str.isspace ws = true →
  head q = Some b → Str.isspace b = false →
  Str.prefixb (Str.chars s) q = false →
  Re.rx_run (Re.Cat (Re.Rep true 0 Re.Space) (Re.Lit s)) (ws ++ q) = [].
Proof.
  intros Hs Ha Hws Hq Hb Hmiss.
  destruct q as [|b' q]; [done|]. injection Hq as ->.
  change (Re.rx_run (Re.Cat (Re.Rep true 0 Re.Space) (Re.Lit s)) (ws ++ b :: q))
    with (((fun n => Re.Cand (take n (ws ++ b :: q)) (drop n (ws ++ b :: q)) None)
             <$> Re.rep_counts true 0 (Re.run_length Re.Space (ws ++ b :: q)))
          ≫= (fun k1 =>
                (fun k2 => Re.Cand (Re.matched k1 ++ Re.matched k2) (Re.rest k2)
                             (match Re.group1 k1 with
                              | Some g => Some g
                              | None => Re.group1 k2
                              end))
                  <$> Re.rx_run (Re.Lit s) (Re.rest k1))).
  rewrite (run_length_stop Re.Space ws q b) by done.
  apply bind_none. intros k (n & -> & Hn)%list_elem_of_fmap. simpl Re.rest.
  unfold Re.rep_counts in Hn. rewrite Nat.sub_0_r in Hn.
  apply list_elem_of_In, in_rev, list_elem_of_In, elem_of_seq in Hn.
  rewrite lit_miss; [done|].
  destruct (decide (n = length ws)) as [->|Hne].
  - by rewrite drop_app_length.
  - rewrite drop_app_le by lia.
    destruct (drop n ws) as [|x ws'] eqn:Hd.
    { apply (f_equal length) in Hd. rewrite length_drop in Hd. simpl in Hd. lia. }
    rewrite Hs. simpl app. apply prefixb_head_ne. intros ->.
    assert (x ∈ ws) as Hx.
    { apply (subseteq_drop n). rewrite Hd. left. }
    rewrite forallb_forall in Hws. apply list_elem_of_In, Hws in Hx. congruence.
Qed.

(** the patterns [open \s* (c+?) \s* close] of the tool *)
Definition bracket (op : string) (c : Re.cclass) (cl : string) : Re.regex :=
  Re.Cat (Re.Lit op)
    (Re.Cat (Re.Rep true 0 Re.Space)
       (Re.Cat (Re.Group (Re.Rep false 1 c))
          (Re.Cat (Re.Rep true 0 Re.Space) (Re.Lit cl)))).


(** how [Cat] combines a candidate of each part *)
Definition join (k1 k2 : Re.candidate) : Re.candidate :=
  Re.Cand (Re.matched k1 ++ Re.matched k2) (Re.rest k2)
          (match Re.group1 k1 with
           | Some g => Some g
           | None => Re.group1 k2
           end).

Lemma cat_eq r1 r2 (l : list ascii) :
  Re.rx_run (Re.Cat r1 r2) l
  = Re.rx_run r1 l ≫= (fun k1 => join k1 <$> Re.rx_run r2 (Re.rest k1)).
Proof. done. Qed.

(** the first candidate of [r1 r2]: the first candidate of [r1] after which
    [r2] matches, with the first candidate of [r2] there *)
Lemma head_cat r1 r2 (l : list ascii) l1 k1 l2 k2 :
  Re.rx_run r1 l = l1 ++ k1 :: l2 →
  (∀ z, z ∈ l1 → Re.rx_run r2 (Re.rest z) = []) →
  head (Re.rx_run r2 (Re.rest k1)) = Some k2 →
  head (Re.rx_run (Re.Cat r1 r2) l) = Some (join k1 k2).
Proof.
  intros H1 Hskip H2. rewrite cat_eq, H1.
  destruct (Re.rx_run r2 (Re.rest k1)) as [|k ks] eqn:E; [done|].
  injection H2 as ->.
  eapply head_bind_skip.
  - intros z Hz. by rewrite Hskip.
  - by rewrite E.
Qed.

Lemma lazy_group_eq c (l : list ascii) :
  Re.rx_run (Re.Group (Re.Rep false 1 c)) l
  = (fun n => Re.Cand (take n l) (drop n l) (Some (take n l)))
      <$> seq 1 (Re.run_length c l).
Proof.
  cbn [Re.rx_run]. unfold Re.rep_counts.
  replace (S (Re.run_length c l) - 1)%nat with (Re.run_length c l) by lia.
  by rewrite <- list_fmap_compose.
Qed.

Lemma greedy_spaces_eq (ws l : list ascii) b :
  forallb Str.isspace ws = true → Str.isspace b = false →
  ∃ ks, Re.rx_run (Re.Rep true 0 Re.Space) (ws ++ b :: l)
        = Re.Cand ws (b :: l) None :: ks.
Proof.
  intros Hws Hb. cbn [Re.rx_run]. rewrite (run_length_stop Re.Space ws l b) by done.
  unfold Re.rep_counts. rewrite Nat.sub_0_r, rev_seq_S. csimpl.
  rewrite take_app_length, drop_app_length. eauto.
Qed.

(** The first candidate of a bracket pattern on
    [open ws1 body ws2 close tail]: the group is [body], when [body]
    starts and ends with characters that are no white space and [close]
    does not show up earlier. *)
Lemma bracket_head op c cl (ws1 body ws2 tail : list ascii) a p b0 body' m bl :
  Str.chars cl = a :: p → Str.isspace a = false →
  forallb Str.isspace ws1 = true → forallb Str.isspace ws2 = true →
  body = b0 :: body' → Str.isspace b0 = false →
  body = m ++ [bl] → Str.isspace bl = false →
  forallb (Re.in_class c) body = true →
  (∀ n, (0 < n < length body)%nat →
     Str.prefixb (Str.chars cl)
       (Str.lstrip (drop n body) ++ ws2 ++ Str.chars cl ++ tail) = false) →
  head (Re.rx_run (bracket op c cl)
          (Str.chars op ++ ws1 ++ body ++ ws2 ++ Str.chars cl ++ tail))
  = Some (Re.Cand (Str.chars op ++ ws1 ++ body ++ ws2 ++ Str.chars cl) tail
                  (Some body)).
Proof.
  intros Hcl Ha Hws1 Hws2 Hb0 Hsp0 Hbl Hspl Hclass Hearly.
  set (X := ws2 ++ Str.chars cl ++ tail).
  set (R3 := Re.Cat (Re.Rep true 0 Re.Space) (Re.Lit cl)).
  assert (0 < length body)%nat as Hlen by (rewrite Hb0; simpl; lia).
  (* the group and what follows it *)
  assert (head (Re.rx_run (Re.Cat (Re.Group (Re.Rep false 1 c)) R3) (body ++ X))
          = Some (Re.Cand (body ++ ws2 ++ Str.chars cl) tail (Some body))) as H2.
  { pose proof (run_length_ge c body X Hclass) as Hrun.
    assert (seq 1 (Re.run_length c (body ++ X))
            = seq 1 (length body - 1) ++ length body
              :: seq (S (length body)) (Re.run_length c (body ++ X) - length body))
      as Hseq.
    { replace (Re.run_length c (body ++ X))
        with ((length body - 1) + S (Re.run_length c (body ++ X) - length body))%nat
        at 1 by lia.
      rewrite seq_app. simpl. repeat f_equal; lia. }
    replace (Re.Cand (body ++ ws2 ++ Str.chars cl) tail (Some body))
      with (join (Re.Cand (take (length body) (body ++ X))
                          (drop (length body) (body ++ X))
                          (Some (take (length body) (body ++ X))))
                 (Re.Cand (ws2 ++ Str.chars cl) tail None)).
    2: { unfold join. simpl. by rewrite take_app_length. }
    eapply head_cat.
    - rewrite lazy_group_eq, Hseq, fmap_app, fmap_cons. done.
    - intros z (n & -> & Hn)%list_elem_of_fmap. apply elem_of_seq in Hn.
      simpl Re.rest. rewrite drop_app_le by lia.
      destruct (lstrip_split (drop n body)) as (wsq & Hq & Hwsq).
      assert (drop n body = drop n m ++ [bl]) as Hdrop.
      { rewrite Hbl, drop_app_le; [done|].
        rewrite Hbl, length_app in Hn. simpl in Hn. lia. }
      destruct (Str.lstrip (drop n body)) as [|b q] eqn:Hl.
      { rewrite Hdrop in Hl. by apply lstrip_last in Hl. }
      rewrite Hq, <- app_assoc. unfold R3.
      eapply spaces_lit_miss; [done|done|done|done|by eapply lstrip_head|].
      rewrite <- Hl. apply Hearly. lia.
    - simpl Re.rest. rewrite drop_app_length. unfold R3, X.
      by eapply spaces_lit_hit. }
  (* the white space before the group *)
  assert (head (Re.rx_run (Re.Cat (Re.Rep true 0 Re.Space)
                             (Re.Cat (Re.Group (Re.Rep false 1 c)) R3))
                  (ws1 ++ body ++ X))
          = Some (Re.Cand (ws1 ++ body ++ ws2 ++ Str.chars cl) tail (Some body)))
    as H1.
  { destruct (greedy_spaces_eq ws1 (body' ++ X) b0 Hws1 Hsp0) as [ks Hks].
    replace (Re.Cand (ws1 ++ body ++ ws2 ++ Str.chars cl) tail (Some body))
      with (join (Re.Cand ws1 (body ++ X) None)
                 (Re.Cand (body ++ ws2 ++ Str.chars cl) tail (Some body)))
      by done.
    eapply (head_cat _ _ _ []).
    - rewrite Hb0. simpl app. by rewrite Hks.
    - by intros z ?%elem_of_nil.
    - done. }
  unfold bracket.
  replace (Re.Cand (Str.chars op ++ ws1 ++ body ++ ws2 ++ Str.chars cl) tail
                   (Some body))
    with (join (Re.Cand (Str.chars op) (ws1 ++ body ++ X) None)
               (Re.Cand (ws1 ++ body ++ ws2 ++ Str.chars cl) tail (Some body)))
    by done.
  eapply (head_cat _ _ _ []).
  - simpl app. apply lit_hit.
  - by intros z ?%elem_of_nil.
  - done.
Qed.

End ReFacts.

(** ** What a text must be like to come back from a pattern *)

(** [p in s] *)
Fixpoint occurs (p l : list ascii) : bool :=
  Str.prefixb p l || match l with [] => false | _ :: l' => occurs p l' end.

Definition contains (s p : string) : bool := occurs (Str.chars p) (Str.chars s).

(** no line feed in [s]: every character is matched by [.] *)
Definition single_line (s : string) : bool :=
  forallb (Re.in_class Re.Dot) (Str.chars s).

(** no carriage return in [s]: a text-mode read delivers [s] as it is *)
Definition no_carriage_return (l : list ascii) : bool :=
  forallb (fun a => negb (Str.ascii_eqb a Str.carriage_return)) l.

Definition carriage_free (s : string) : bool := no_carriage_return (Str.chars s).

(** [s] is not empty and neither starts nor ends with white space *)
Definition trimmed (s : string) : bool :=
  match Str.chars s, rev (Str.chars s) with
  | a :: _, b :: _ => negb (Str.isspace a) && negb (Str.isspace b)
  | _, _ => false
  end.

Module PatternFacts.
Import StrFacts ReFacts.

Lemma trimmed_ends (s : string) :
  trimmed s = true →
  ∃ a l b m, Str.chars s = a :: l ∧ Str.isspace a = false
             ∧ Str.chars s = m ++ [b] ∧ Str.isspace b = false.
Proof.
  unfold trimmed. destruct (Str.chars s) as [|a l] eqn:Hs; [done|].
  destruct (rev (a :: l)) as [|b m] eqn:Hr; [done|].
  intros [Ha Hb]%andb_true_iff. apply negb_true_iff in Ha, Hb.
  exists a, l, b, (rev m). split_and!; [done|done| |done].
  rewrite <- (rev_involutive (a :: l)), Hr. done.
Qed.

Lemma strip_trimmed (ws1 ws2 : list ascii) (s : string) :
  forallb Str.isspace ws1 = true → forallb Str.isspace ws2 = true →
  trimmed s = true →
  Str.strip (Str.text (ws1 ++ Str.chars s ++ ws2)) = s.
Proof.
  intros H1 H2 (a & l & b & m & Ha & Hsa & Hb & Hsb)%trimmed_ends.
  unfold Str.strip. rewrite chars_text, lstrip_spaces by done.
  assert (Str.lstrip (Str.chars s ++ ws2) = Str.chars s ++ ws2) as ->.
  { rewrite Ha. simpl. by rewrite Hsa. }
  rewrite rev_app_distr, lstrip_spaces.
  2: { rewrite forallb_forall in *. intros x Hx. apply H2. by apply in_rev. }
  assert (Str.lstrip (rev (Str.chars s)) = rev (Str.chars s)) as ->.
  { rewrite Hb, rev_app_distr. simpl. by rewrite Hsb. }
  by rewrite rev_involutive, text_chars.
Qed.

Lemma universal_newlines_app (pre l : list ascii) :
  no_carriage_return pre = true →
  Str.universal_newlines (pre ++ l) = pre ++ Str.universal_newlines l.
Proof.
  induction pre as [|a pre IH]; [done|].
  cbn [no_carriage_return forallb app Str.universal_newlines].
  intros [Ha Hpre]%andb_true_iff. apply negb_true_iff in Ha. rewrite Ha.
  f_equal. by apply IH.
Qed.

Lemma occurs_drop (p l : list ascii) n :
  occurs p l = false → Str.prefixb p (drop n l) = false.
Proof.
  revert n. induction l as [|a l IH]; intros n; simpl.
  - rewrite orb_false_r. intros H. by destruct n.
  - intros [H1 H2]%orb_false_iff. destruct n as [|n]; [done|]. by apply IH.
Qed.

Lemma occurs_prefix (p l : list ascii) :
  Str.prefixb p l = true → occurs p l = true.
Proof. intros H. destruct l; simpl; by rewrite H. Qed.

Lemma occurs_app (p a b : list ascii) : occurs p (a ++ p ++ b) = true.
Proof.
  induction a as [|x a IH]; simpl.
  - apply occurs_prefix, prefixb_app.
  - rewrite IH. apply orb_true_r.
Qed.

Lemma prefixb_take (p l : list ascii) n :
  Str.prefixb p (take n l) = true → Str.prefixb p l = true.
Proof.
  rewrite !prefixb_spec. intros [l' H]. exists (l' ++ drop n l).
  by rewrite app_assoc, <- H, take_drop.
Qed.

Lemma occurs_take (p l : list ascii) n :
  occurs p l = false → occurs p (take n l) = false.
Proof.
  revert n. induction l as [|a l IH]; intros n; simpl.
  - by destruct n.
  - intros [H1 H2]%orb_false_iff. destruct n as [|n]; simpl.
    + rewrite orb_false_r. destruct p; [done|done].
    + rewrite (IH n H2), orb_false_r.
      destruct (Str.prefixb p (a :: take n l)) eqn:E; [|done].
      apply (prefixb_take p (a :: l) (S n)) in E. congruence.
Qed.

End PatternFacts.

(** ** The language code of a file name (lines 212-220 of [run]) *)

Section FileNames.
Import StrFacts ReFacts PatternFacts.

Lemma run_length_all c (l : list ascii) :
  forallb (Re.in_class c) l = true → Re.run_length c l = length l.
Proof.
  induction l as [|a l IH]; simpl; [done|].
  intros [-> H]%andb_true_iff. by rewrite IH.
Qed.

Lemma prefixb_short (p l : list ascii) :
  (length l < length p)%nat → Str.prefixb p l = false.
Proof.
  intros Hlen. destruct (Str.prefixb p l) eqn:E; [|done].
  apply prefixb_spec in E as [l' ->]. rewrite length_app in Hlen. lia.
Qed.

Lemma greedy_group_eq c (l : list ascii) :
  Re.rx_run (Re.Group (Re.Rep true 1 c)) l
  = (fun n => Re.Cand (take n l) (drop n l) (Some (take n l)))
      <$> rev (seq 1 (Re.run_length c l)).
Proof.
  cbn [Re.rx_run]. unfold Re.rep_counts.
  replace (S (Re.run_length c l) - 1)%nat with (Re.run_length c l) by lia.
  by rewrite <- list_fmap_compose.
Qed.

(** X1.  A name [Strings.<code>.resx] with a code that is not empty and has
    no line feed passes the filter of the directory listing and matches
    the pattern of the localized names, and the language code the loop
    takes from it ([match.group(1)]) is [code], whatever dots and [.resx]
    the code has inside. *)
Theorem language_code_of_file_name (code : string) :
  code ≠ "" → single_line code = true →
  let name := "Strings." +:+ code +:+ ".resx" in
  Str.startswith name "Strings." && Str.endswith name ".resx" = true
  ∧ ∃ m, Re.re_match LOCALIZED_NAME_RE name = Some m
         ∧ Re.group_1 m = code
         ∧ Re.rest m = [].
Proof.
  intros Hne Hline name.
  assert (Str.chars name
          = Str.chars "Strings." ++ Str.chars code ++ Str.chars ".resx") as Hname.
  { unfold name. by rewrite !chars_app. }
  split.
  - apply andb_true_iff. unfold Str.startswith, Str.endswith. rewrite Hname. split.
    + apply prefixb_app.
    + rewrite !rev_app_distr, <- app_assoc. apply prefixb_app.
  - set (l := Str.chars code ++ Str.chars ".resx").
    assert (0 < length (Str.chars code))%nat as Hlen.
    { destruct code; [done|simpl; lia]. }
    assert (Re.run_length Re.Dot l = (length (Str.chars code) + 5)%nat) as Hrun.
    { unfold l. rewrite run_length_all, length_app; [done|].
      rewrite forallb_app. apply andb_true_iff. split; [done|by vm_compute]. }
    assert (rev (seq 1 (length (Str.chars code) + 5))
            = rev (seq (S (length (Str.chars code))) 5)
              ++ length (Str.chars code)
              :: rev (seq 1 (length (Str.chars code) - 1))) as Hseq.
    { replace (length (Str.chars code) + 5)%nat
        with ((length (Str.chars code) - 1) + 6)%nat at 1 by lia.
      rewrite seq_app, rev_app_distr.
      replace (1 + (length (Str.chars code) - 1))%nat
        with (length (Str.chars code)) by lia.
      change 6%nat with (1 + 5)%nat. rewrite (seq_app 1 5), rev_app_distr.
      simpl seq at 2. simpl rev at 2. rewrite <- app_assoc.
      replace (length (Str.chars code) + 1)%nat
        with (S (length (Str.chars code))) by lia. done. }
    assert (head (Re.rx_run (Re.Cat (Re.Group (Re.Rep true 1 Re.Dot)) (Re.Lit ".resx")) l)
            = Some (join (Re.Cand (take (length (Str.chars code)) l)
                                  (drop (length (Str.chars code)) l)
                                  (Some (take (length (Str.chars code)) l)))
                         (Re.Cand (Str.chars ".resx") [] None))) as Hin.
    { eapply head_cat.
      - rewrite greedy_group_eq, Hrun, Hseq, fmap_app, fmap_cons. done.
      - intros z (n & -> & Hn)%list_elem_of_fmap.
        apply list_elem_of_In, in_rev, list_elem_of_In, elem_of_seq in Hn.
        simpl Re.rest. apply lit_miss, prefixb_short.
        unfold l. rewrite length_drop, length_app. simpl. lia.
      - simpl Re.rest. unfold l. rewrite drop_app_length.
        reflexivity. }
    eexists. split_and!.
    + unfold Re.re_match, LOCALIZED_NAME_RE. rewrite Hname. fold l.
      eapply (head_cat _ _ _ []).
      * rewrite lit_hit. reflexivity.
      * by intros z ?%elem_of_nil.
      * simpl Re.rest. exact Hin.
    + unfold Re.group_1, join. simpl. unfold l.
      rewrite take_app_length. apply text_chars.
    + done.
Qed.

End FileNames.

(** ** The language comment (lines 104-111 and 137-141) *)

Section LanguageComment.
Import StrFacts ReFacts PatternFacts.

Lemma search_from_eq r (l : list ascii) fuel :
  Re.search_from r l fuel
  = match head (Re.rx_run r l) with
    | Some k => Some k
    | None =>
        match fuel, l with
        | S fuel', _ :: l' => Re.search_from r l' fuel'
        | _, _ => None
        end
    end.
Proof. destruct l; [|done]. simpl. by destruct (head _), fuel. Qed.

Lemma search_hit r (l : list ascii) fuel k :
  head (Re.rx_run r l) = Some k → Re.search_from r l fuel = Some k.
Proof. intros H. by rewrite search_from_eq, H. Qed.

Lemma search_skip op r' (pre l : list ascii) fuel :
  (∀ i, (i < length pre)%nat →
     Str.prefixb (Str.chars op) (drop i (pre ++ l)) = false) →
  Re.search_from (Re.Cat (Re.Lit op) r') (pre ++ l) (length pre + fuel)
  = Re.search_from (Re.Cat (Re.Lit op) r') l fuel.
Proof.
  induction pre as [|a pre IH]; intros H; [done|].
  cbn [length Nat.add app]. rewrite search_from_eq.
  rewrite cat_eq, lit_miss by (apply (H 0%nat); simpl; lia). csimpl.
  apply IH. intros i Hi. apply (H (S i)). simpl. lia.
Qed.

Lemma elem_cat r1 r2 (l : list ascii) k :
  k ∈ Re.rx_run (Re.Cat r1 r2) l →
  ∃ k1 k2, k1 ∈ Re.rx_run r1 l ∧ k2 ∈ Re.rx_run r2 (Re.rest k1) ∧ k = join k1 k2.
Proof.
  rewrite cat_eq. intros (k1 & Hk & Hk1)%list_elem_of_bind.
  apply list_elem_of_fmap in Hk as (k2 & -> & Hk2). eauto.
Qed.

Lemma elem_lit s (l : list ascii) k :
  k ∈ Re.rx_run (Re.Lit s) l → Re.matched k = Str.chars s ∧ l = Str.chars s ++ Re.rest k.
Proof.
  cbn [Re.rx_run]. destruct (Str.prefixb (Str.chars s) l) eqn:E.
  - intros ->%list_elem_of_singleton. split; [done|]. simpl.
    apply prefixb_spec in E as [l' ->]. by rewrite drop_app_length.
  - by intros ?%elem_of_nil.
Qed.

(** a candidate splits the input into what it matched and the rest *)
Lemma rx_run_split r (l : list ascii) k :
  k ∈ Re.rx_run r l → l = Re.matched k ++ Re.rest k.
Proof.
  revert l k. induction r as [s|g least c|r IH|r1 IH1 r2 IH2]; intros l k Hk.
  - apply elem_lit in Hk as [-> ?]. done.
  - cbn [Re.rx_run] in Hk. apply list_elem_of_fmap in Hk as (n & -> & _).
    simpl. by rewrite take_drop.
  - cbn [Re.rx_run] in Hk. apply list_elem_of_fmap in Hk as (k' & -> & Hk).
    simpl. by apply IH.
  - apply elem_cat in Hk as (k1 & k2 & H1 & H2 & ->). simpl.
    rewrite <- app_assoc, <- (IH2 _ _ H2). by apply IH1.
Qed.

(** a bracket pattern matches nowhere in a text without its closing
    literal *)
Lemma search_none op c cl (l : list ascii) fuel :
  occurs (Str.chars cl) l = false →
  Re.search_from (bracket op c cl) l fuel = None.
Proof.
  assert (∀ l', occurs (Str.chars cl) l' = false →
                Re.rx_run (bracket op c cl) l' = []) as Hno.
  { intros l' Hocc. destruct (Re.rx_run (bracket op c cl) l') as [|k ks] eqn:E; [done|].
    exfalso. assert (k ∈ Re.rx_run (bracket op c cl) l') as Hk by (rewrite E; left).
    pose proof (rx_run_split _ _ _ Hk) as Hsplit.
    unfold bracket in Hk.
    apply elem_cat in Hk as (k1 & ka & _ & Hk & ->).
    apply elem_cat in Hk as (k2 & kb & _ & Hk & ->).
    apply elem_cat in Hk as (k3 & kc & _ & Hk & ->).
    apply elem_cat in Hk as (k4 & k5 & _ & Hk & ->).
    apply elem_lit in Hk as [Hm _]. simpl in Hsplit. rewrite Hm in Hsplit.
    rewrite Hsplit in Hocc.
    rewrite !app_assoc, <- (app_assoc _ (Str.chars cl)) in Hocc.
    by rewrite occurs_app in Hocc. }
  revert l. induction fuel as [|fuel IH]; intros l Hocc; rewrite search_from_eq.
  - by rewrite Hno.
  - rewrite Hno by done. simpl. destruct l as [|a l]; [done|].
    apply IH. simpl in Hocc. by apply orb_false_iff in Hocc as [_ ?].
Qed.

End LanguageComment.

Section LanguageCommentRoundTrip.
Import StrFacts ReFacts PatternFacts.

Lemma comment_re_bracket : LANGUAGE_COMMENT_RE = bracket "<!--" Re.Dot "-->".
Proof. done. Qed.

Lemma ascii_eqb_ne (a b : ascii) : a ≠ b → Str.ascii_eqb a b = false.
Proof. intros H. unfold Str.ascii_eqb. by rewrite bool_decide_eq_false_2. Qed.

(** no [-->] starts in a text without [-->] that is followed by [ -->] *)
Lemma comment_close_not_early (body tail : list ascii) n :
  occurs (Str.chars "-->") body = false →
  Str.prefixb (Str.chars "-->")
    (Str.lstrip (drop n body) ++ Str.chars " " ++ Str.chars "-->" ++ tail) = false.
Proof.
  intros Hocc.
  destruct (lstrip_split (drop n body)) as (ws & Hq & _).
  assert (Str.lstrip (drop n body) = drop (n + length ws) body) as ->.
  { symmetry. rewrite <- drop_drop.
    set (q := Str.lstrip (drop n body)) in *. rewrite Hq. apply drop_app_length. }
  pose proof (occurs_drop _ _ (n + length ws) Hocc) as H.
  destruct (drop (n + length ws) body) as [|x [|y [|z q]]]; simpl in *.
  - done.
  - apply andb_false_r.
  - by rewrite !andb_false_r.
  - done.
Qed.

Lemma declaration_has_no_comment (l : list ascii) i :
  (i < length (Str.chars XML_DECLARATION))%nat →
  Str.prefixb (Str.chars "<!--") (drop i (Str.chars XML_DECLARATION ++ l)) = false.
Proof.
  intros Hi. do 39 (destruct i as [|i]; [by vm_compute|]).
  vm_compute in Hi. lia.
Qed.

Lemma language_comment_found (c rest : string) :
  trimmed c = true → single_line c = true → carriage_free c = true →
  contains c "-->" = false →
  (String.length c ≤ 152)%nat →
  language_comment_of (Some (XML_DECLARATION +:+ comment_line (Some c) +:+ rest))
  = Some c.
Proof.
  intros Htrim Hline Hcr Hno Hlen.
  destruct (trimmed_ends c Htrim) as (a & l & b & m & Ha & Hsa & Hb & Hsb).
  assert (Str.nonempty c = true) as Hne.
  { destruct c; [done|done]. }
  unfold language_comment_of, comment_line. rewrite Hne.
  set (M := Str.chars "<!--" ++ Str.chars " " ++ Str.chars c ++ Str.chars " "
            ++ Str.chars "-->").
  set (T := Str.universal_newlines (Str.chars Str.nl ++ Str.chars rest)).
  assert (Str.universal_newlines
            (Str.chars (XML_DECLARATION +:+ ("<!-- " +:+ c +:+ " -->" +:+ Str.nl)
                        +:+ rest))
          = Str.chars XML_DECLARATION ++ M ++ T) as Hchars.
  { rewrite !chars_app. unfold M, T.
    rewrite <- !app_assoc, !(app_assoc (Str.chars XML_DECLARATION)).
    rewrite !(app_assoc _ _ (Str.chars Str.nl ++ Str.chars rest)).
    rewrite universal_newlines_app; [by rewrite <- !app_assoc|].
    unfold no_carriage_return. rewrite !forallb_app.
    by rewrite (Hcr : forallb _ (Str.chars c) = true). }
  assert (length M = (String.length c + 9)%nat) as HlenM.
  { unfold M. rewrite !length_app, !length_chars. simpl. lia. }
  set (T' := take (152 - String.length c) T).
  assert (Str.chars (Str.read_prefix 200
            (XML_DECLARATION +:+ ("<!-- " +:+ c +:+ " -->" +:+ Str.nl) +:+ rest))
          = Str.chars XML_DECLARATION ++ M ++ T') as Hpre.
  { unfold Str.read_prefix. rewrite chars_text, Hchars.
    change 200%nat with (length (Str.chars XML_DECLARATION) + 161)%nat.
    rewrite take_app_add. f_equal.
    replace 161%nat with (length M + (152 - String.length c))%nat by lia.
    by rewrite take_app_add. }
  unfold Re.re_search. rewrite <- length_chars, Hpre, length_app.
  rewrite comment_re_bracket. unfold bracket at 1.
  rewrite search_skip by (intros i Hi; by apply declaration_has_no_comment).
  fold (bracket "<!--" Re.Dot "-->").
  erewrite search_hit.
  2: { unfold M. rewrite <- !app_assoc.
       eapply (bracket_head "<!--" Re.Dot "-->" (Str.chars " ") (Str.chars c)
                 (Str.chars " ") T'); try done.
       intros n _. apply comment_close_not_early. exact Hno. }
  unfold Re.group_1. simpl.
  rewrite <- (app_nil_r (Str.chars c)) at 1.
  change (Str.chars c ++ []) with ([] ++ Str.chars c ++ []).
  by rewrite strip_trimmed.
Qed.

Lemma occurs_skip (p pre l : list ascii) :
  (∀ i, (i < length pre)%nat → Str.prefixb p (drop i (pre ++ l)) = false) →
  occurs p (pre ++ l) = occurs p l.
Proof.
  induction pre as [|a pre IH]; intros H; [done|]. cbn [app occurs].
  pose proof (H 0%nat ltac:(simpl; lia)) as H0. cbn [drop app] in H0.
  rewrite H0. cbn [orb].
  apply IH. intros i Hi. apply (H (S i)). simpl. lia.
Qed.

Lemma no_close_before_cut (c : list ascii) :
  occurs (Str.chars "-->") c = false →
  occurs (Str.chars "-->") (c ++ Str.chars " --") = false.
Proof.
  induction c as [|x c IH]; [done|].
  intros [H1 H2]%orb_false_iff. specialize (IH H2).
  change ((x :: c) ++ Str.chars " --") with (x :: c ++ Str.chars " --").
  cbn [occurs]. rewrite IH, orb_false_r.
  destruct c as [|y [|z c]]; simpl in *.
  - apply andb_false_r.
  - by rewrite !andb_false_r.
  - done.
Qed.

Lemma language_comment_lost (c rest : string) :
  carriage_free c = true → contains c "-->" = false → (152 < String.length c)%nat →
  language_comment_of (Some (XML_DECLARATION +:+ comment_line (Some c) +:+ rest))
  = None.
Proof.
  intros Hcr Hno Hlen.
  assert (Str.nonempty c = true) as Hne.
  { destruct c; [simpl in Hlen; lia|done]. }
  unfold language_comment_of, comment_line. rewrite Hne.
  set (P := Str.chars XML_DECLARATION ++ Str.chars "<!-- ").
  set (S := Str.universal_newlines
              (Str.chars ">" ++ Str.chars Str.nl ++ Str.chars rest)).
  assert (Str.universal_newlines
            (Str.chars (XML_DECLARATION +:+ ("<!-- " +:+ c +:+ " -->" +:+ Str.nl)
                        +:+ rest))
          = P ++ (Str.chars c ++ Str.chars " --") ++ S) as Hchars.
  { rewrite !chars_app. unfold P, S.
    change (Str.chars " -->") with (Str.chars " --" ++ Str.chars ">").
    rewrite <- !app_assoc,
      !(app_assoc _ _ (Str.chars ">" ++ Str.chars Str.nl ++ Str.chars rest)).
    rewrite universal_newlines_app; [by rewrite <- !app_assoc|].
    unfold no_carriage_return. rewrite !forallb_app.
    by rewrite (Hcr : forallb _ (Str.chars c) = true). }
  assert (occurs (Str.chars "-->")
            (take 200 (P ++ (Str.chars c ++ Str.chars " --") ++ S)) = false) as Hocc.
  { rewrite app_assoc, take_app_le.
    2: { rewrite !length_app, length_chars. unfold P. simpl. lia. }
    apply occurs_take. unfold P. rewrite <- app_assoc.
    rewrite occurs_skip.
    2: { intros i Hi. do 39 (destruct i as [|i]; [by vm_compute|]).
         vm_compute in Hi. lia. }
    rewrite occurs_skip.
    2: { intros i Hi. do 5 (destruct i as [|i]; [by vm_compute|]).
         vm_compute in Hi. lia. }
    by apply no_close_before_cut. }
  unfold Re.re_search, Str.read_prefix. rewrite chars_text, Hchars.
  rewrite comment_re_bracket, search_none; done.
Qed.

End LanguageCommentRoundTrip.

Section WrittenComment.
Import StrFacts.

Context {xml : XmlLibrary} {PS : Type}.

Lemma written_text file_path resources base_order lang_comment (w w' : world PS) :
  _write_resx file_path resources base_order lang_comment w = (inr tt, w') →
  ∃ rest, Od.get (files w') file_path
          = Some (XML_DECLARATION +:+ comment_line lang_comment +:+ rest).
Proof.
  rewrite write_resx_eq. unfold resx_text.
  destruct (element_texts (data_entries resources base_order)) as [e|data]; [done|].
  destruct (pretty_xml RESX_HEADERS data) as [pretty|]; [|done].
  intros [= <-]. eexists. simpl. apply OdFacts.get_set_eq.
Qed.

(** X2.  A language comment that [_write_resx] wrote is read back by
    [_get_language_comment] when it is not empty, neither starts nor ends
    with white space, has no line feed, no carriage return (which the
    text-mode read would turn into a line feed) and no [-->], and is at
    most 152 characters long (with the XML declaration and the comment
    delimiters it then ends within the 200 characters that are read). *)
Theorem written_language_comment_is_read_back file_path resources base_order
    (c : string) (w w' : world PS) :
  trimmed c = true → single_line c = true → carriage_free c = true →
  contains c "-->" = false →
  (String.length c ≤ 152)%nat →
  _write_resx file_path resources base_order (Some c) w = (inr tt, w') →
  _get_language_comment file_path w' = (inr (Some c), w').
Proof.
  intros Htrim Hline Hcr Hno Hlen [rest Hfile]%written_text.
  rewrite get_language_comment_eq, Hfile.
  by rewrite language_comment_found.
Qed.

(** X3.  A language comment of more than 152 characters, without [-->] and
    without a carriage return (a carriage return before a line feed is
    dropped by the text-mode read, which shortens what is read), that
    [_write_resx] wrote is not read back: its end lies beyond the 200
    characters [_get_language_comment] reads, which then returns [None]. *)
Theorem long_language_comment_is_not_read_back file_path resources base_order
    (c : string) (w w' : world PS) :
  carriage_free c = true → contains c "-->" = false → (152 < String.length c)%nat →
  _write_resx file_path resources base_order (Some c) w = (inr tt, w') →
  _get_language_comment file_path w' = (inr None, w').
Proof.
  intros Hcr Hno Hlen [rest Hfile]%written_text.
  rewrite get_language_comment_eq, Hfile.
  by rewrite language_comment_lost.
Qed.

End WrittenComment.

(** ** The fence around an answer (lines 175-182) *)

Definition backtick : string := String (ascii_of_nat 96) EmptyString.

Definition all_space (s : string) : bool := forallb Str.isspace (Str.chars s).

Section Fence.
Import StrFacts ReFacts PatternFacts.

Context {PS : Type}.
Variable create : PS -> odict string -> string -> OpenAI.completion * PS.
Variable json_loads : string -> option pyval.
Variable self : config.

Lemma fence_re_bracket :
  JSON_FENCE_RE = bracket (backtick3 +:+ "json") Re.AnyChar backtick3.
Proof. done. Qed.

Lemma occurs_char (a : ascii) (l : list ascii) x :
  occurs [a] l = false → x ∈ l → x ≠ a.
Proof.
  induction l as [|y l IH]; [by intros _ ?%elem_of_nil|].
  simpl. intros [H1 H2]%orb_false_iff [->|Hx]%elem_of_cons; [|by apply IH].
  rewrite andb_true_r in H1. unfold Str.ascii_eqb in H1.
  apply bool_decide_eq_false in H1. congruence.
Qed.

(** X4.  An answer wrapped in a [```json] fence is read as what the fence
    holds: with white space before, after and inside the fence at will,
    and a body without backtick that neither starts nor ends with white
    space, [json.loads] is applied to the body alone. *)
Theorem fenced_answer_is_unwrapped st req lang st' (w0 w1 w2 w3 body : string)
    choices :
  all_space w0 = true → all_space w1 = true → all_space w2 = true → all_space w3 = true →
  trimmed body = true → contains body backtick = false →
  create st req lang
  = (OpenAI.Response
       (Some (w0 +:+ (backtick3 +:+ "json" +:+ w1 +:+ body +:+ w2 +:+ backtick3)
              +:+ w3) :: choices), st') →
  OpenAI._invoke_ai_translation create json_loads self st req lang
  = (match json_loads body with
     | Some v => Answer [] (inr v)
     | None => Answer [MsgJsonDecodeError; MsgProblematicContent;
                       MsgTranslationFailed (max_retries self)] (inr PNone)
     end, st').
Proof.
  intros H0 H1 H2 H3 Htrim Hno Hcreate.
  unfold OpenAI._invoke_ai_translation. rewrite Hcreate. f_equal.
  unfold OpenAI.read_response.
  set (X := backtick3 +:+ "json" +:+ w1 +:+ body +:+ w2 +:+ backtick3).
  destruct (trimmed_ends body Htrim) as (a & l & b & m & Ha & Hsa & Hb & Hsb).
  assert (Str.chars X
          = Str.chars (backtick3 +:+ "json") ++ Str.chars w1 ++ Str.chars body
            ++ Str.chars w2 ++ Str.chars backtick3 ++ []) as HX.
  { unfold X. rewrite !chars_app, app_nil_r. by rewrite <- !app_assoc. }
  assert (trimmed X = true) as HtX.
  { unfold trimmed. rewrite HX, app_nil_r.
    rewrite !app_assoc, rev_app_distr. done. }
  assert (Str.strip (w0 +:+ X +:+ w3) = X) as ->.
  { rewrite <- (text_chars (w0 +:+ X +:+ w3)), !chars_app.
    by apply strip_trimmed. }
  assert (Re.re_search JSON_FENCE_RE X
          = Some (Re.Cand (Str.chars (backtick3 +:+ "json") ++ Str.chars w1
                           ++ Str.chars body ++ Str.chars w2 ++ Str.chars backtick3)
                          [] (Some (Str.chars body)))) as ->.
  { unfold Re.re_search. apply search_hit. rewrite fence_re_bracket, HX.
    eapply (bracket_head _ Re.AnyChar backtick3 (Str.chars w1) (Str.chars body)
              (Str.chars w2) []); try done.
    - by apply forallb_forall.
    - intros n Hn.
      assert (drop n (Str.chars body) = drop n m ++ [b]) as Hdrop.
      { rewrite Hb, drop_app_le; [done|].
        rewrite Hb, length_app in Hn. simpl in Hn. lia. }
      destruct (Str.lstrip (drop n (Str.chars body))) as [|x q] eqn:Hl.
      { rewrite Hdrop in Hl. by apply lstrip_last in Hl. }
      apply prefixb_head_ne. intros <-.
      assert (ascii_of_nat 96 ∈ Str.chars body) as Hin.
      { destruct (lstrip_split (drop n (Str.chars body))) as (ws & Hq & _).
        apply (subseteq_drop n). rewrite Hq, Hl.
        apply elem_of_app. right. left. }
      by apply (occurs_char _ _ _ Hno) in Hin. }
  unfold Re.group_1. simpl. by rewrite text_chars.
Qed.

End Fence.

(** ** Reading, writing and the loop over the files *)

Section Files.

Context {xml : XmlLibrary} {PS : Type}.
Variable provider : PS -> odict string -> string -> answer * PS.
Variable self : config.

Local Abbreviation world := (world PS).

Lemma foldl_insert_set (l : list (string * string)) (m : gmap string string)
    (d : list (string * string)) :
  (∀ k, m !! k = Od.get d k) →
  ∀ k, foldl (fun resources nv => <[nv.1 := nv.2]> resources) m l !! k
       = Od.get (foldl (fun d kv => Od.set d kv.1 kv.2) d l) k.
Proof.
  revert m d. induction l as [|[k1 v1] l IH]; intros m d H k; simpl; [done|].
  apply IH. intros k'. destruct (decide (k1 = k')) as [->|Hne].
  - by rewrite lookup_insert_eq, OdFacts.get_set_eq.
  - by rewrite lookup_insert_ne, OdFacts.get_set_ne.
Qed.

(** X5.  [_read_resx] and [_read_resx_ordered] read a file alike: they log
    the same, neither raises nor changes a file, and the dictionary of
    the first is [dict] of the list of the second, so that a name that
    occurs twice has its last value in both. *)
Theorem read_resx_agrees_with_read_resx_ordered file_path (w : world) :
  ∃ resources ordered logs,
    _read_resx file_path w = (inr resources, add_events w logs)
    ∧ _read_resx_ordered file_path w = (inr ordered, add_events w logs)
    ∧ (∀ k, resources !! k = Od.get (Od.of_pairs ordered) k)
    ∧ (∀ k, is_Some (resources !! k) ↔ k ∈ ordered.*1)
    ∧ (Od.get (files w) file_path = None → resources = ∅ ∧ ordered = [] ∧ logs = []).
Proof.
  unfold _read_resx, _read_resx_ordered. rewrite !bind_eq. unfold read_file.
  cbv beta iota.
  assert (∀ l : list (string * string), ∀ k,
            foldl (fun resources nv => <[nv.1 := nv.2]> resources)
                  (∅ : gmap string string) l !! k
            = Od.get (Od.of_pairs l) k) as Hagree.
  { intros l k. by apply foldl_insert_set. }
  assert (∀ l : list (string * string), ∀ k,
            is_Some (foldl (fun resources nv => <[nv.1 := nv.2]> resources)
                           (∅ : gmap string string) l !! k)
            ↔ k ∈ l.*1) as Hkeys.
  { intros l k. rewrite Hagree, <- OdFacts.elem_keys_get. apply OdFacts.of_pairs_keys. }
  destruct (Od.get (files w) file_path) as [text|].
  - destruct (et_data_nodes text) as [data|].
    + eexists _, _, []. rewrite add_events_nil. split_and!; [done|done|..|done].
      * apply Hagree.
      * apply Hkeys.
    + eexists _, _, [Log (MsgParseError file_path)].
      split_and!; [done|done|done| |done].
      intros k. rewrite lookup_empty. split; [by intros [? ?]|by intros ?%elem_of_nil].
  - eexists _, _, []. rewrite add_events_nil. split_and!; [done|done|done| |done].
    intros k. rewrite lookup_empty. split; [by intros [? ?]|by intros ?%elem_of_nil].
Qed.

Lemma element_text_error v e :
  element_text v = inl e →
  e = TypeError ∧ match v with PStr _ => False | _ => truthy v = true end.
Proof.
  unfold element_text. destruct v; try done;
    destruct (truthy _) eqn:E; by intros [= <-].
Qed.

Lemma element_texts_error (l : list (string * pyval)) :
  (∃ e, element_texts l = inl e) ↔ ∃ k v e, (k, v) ∈ l ∧ element_text v = inl e.
Proof.
  induction l as [|[k v] l IH]; simpl.
  - split; [by intros [? ?]|]. by intros (k & v & e & ?%elem_of_nil & _).
  - destruct (element_text v) as [e'|t] eqn:Hv.
    + split; [|by eauto]. intros _. exists k, v, e'. split; [left|done].
    + destruct (element_texts l) as [e'|ts].
      * split; [|by eauto]. intros _.
        destruct (proj1 IH) as (k' & v' & e & Hin & Hv'); [by eauto|].
        exists k', v', e. split; [by right|done].
      * split; [by intros [? ?]|].
        intros (k' & v' & e & [[= -> ->]|Hin]%elem_of_cons & Hv'); [congruence|].
        destruct (proj2 IH) as [? ?]; [by eauto|done].
Qed.

Lemma element_texts_type_error (l : list (string * pyval)) e :
  element_texts l = inl e → e = TypeError.
Proof.
  induction l as [|[k v] l IH]; simpl; [done|].
  destruct (element_text v) as [e'|t] eqn:Hv.
  - intros [= <-]. by destruct (element_text_error _ _ Hv).
  - destruct (element_texts l) as [e'|ts]; [|done]. intros [= <-]. by apply IH.
Qed.

(** X6.  [_write_resx] raises [TypeError] exactly when the mapping holds,
    for a name of the base order, a value that is not a string and is
    truthy (a number other than 0, [True], a list or an object that is
    not empty), and then nothing is written: the file keeps its content.
    A value that is falsy without being a string ([None], [0], [False],
    an empty list or object) does not raise: the serialiser skips it. *)
Theorem write_resx_rejects_truthy_values_that_are_no_text file_path resources
    base_order lang_comment (w : world) :
  (∃ k v, k ∈ base_order ∧ resources !! k = Some v
          ∧ match v with PStr _ => False | _ => truthy v = true end)
  ↔ _write_resx file_path resources base_order lang_comment w = (inl TypeError, w).
Proof.
  rewrite write_resx_eq. unfold resx_text.
  pose proof (element_texts_error (data_entries resources base_order)) as Herr.
  destruct (element_texts (data_entries resources base_order)) as [e|data] eqn:E.
  - rewrite (element_texts_type_error _ _ E). split; [done|]. intros _.
    destruct (proj1 Herr) as (k & v & e' & Hin & Hv); [by eauto|].
    apply elem_of_data_entries in Hin as [Hk Hr].
    exists k, v. split_and!; [done|done|]. by destruct (element_text_error _ _ Hv).
  - split.
    + intros (k & v & Hk & Hv & Hbad). destruct (proj2 Herr) as [? ?]; [|done].
      exists k, v, TypeError. split; [by apply elem_of_data_entries|].
      destruct v; simpl in *; try done; by rewrite Hbad.
    + by destruct (pretty_xml RESX_HEADERS data).
Qed.

(** X7.  Without a base file the run ends at once and normally: it logs the
    four header lines and the error line, reads no other file, writes
    none, and does not call the provider. *)
Theorem missing_base_file_stops_the_run (w : world) :
  Od.mem (files w) base_resx_path = false →
  run provider self w
  = (inr tt,
     World (files w) (oracle w)
           (trace w ++ [Log MsgBanner; Log (MsgBaseUrl (base_url self));
                        Log (MsgModel (model_id self));
                        Log (MsgI18nPath (i18n_path self));
                        Log (MsgBaseNotFound base_resx_path)])).
Proof. intros H. by rewrite run_eq, H. Qed.

(** X8.  A run keeps the directory: it creates and removes no file, leaves
    every file alone that is not a listed [Strings.*.resx] matching the
    pattern of the localized names, and calls [_write_resx] on such files
    only. *)
Theorem run_keeps_the_directory (w : world) :
  let w' := (run provider self w).2 in
  Od.keys (files w') = Od.keys (files w)
  ∧ (∀ g, g ∉ localized_files_of w ∨ Re.re_match LOCALIZED_NAME_RE g = None →
       Od.get (files w') g = Od.get (files w) g)
  ∧ ∃ new, trace w' = trace w ++ new
           ∧ ∀ p res o c, WriteResx p res o c ∈ new →
               p ∈ localized_files_of w
               ∧ is_Some (Re.re_match LOCALIZED_NAME_RE p).
Proof.
  rewrite run_eq. destruct (Od.mem (files w) base_resx_path).
  - cbv zeta.
    match goal with
    | |- context [process_files ?p ?s ?b ?k ?n ?w2] =>
        destruct (process_files p s b k n w2) as [r w3] eqn:Hloop;
        destruct (process_files_frame _ _ _ _ _ _ _ _ Hloop)
          as (new & Ht & Hw & Hf & Hk)
    end.
    assert (∀ p res o c m,
              WriteResx p res o c
              ∉ header_log self ++ Log MsgReadingBase
                :: parse_log (Od.get (files w) base_resx_path) base_resx_path
                ++ [Log m]) as Hstart.
    { intros p res o c m. apply no_writes_logs, logs_only_start. }
    destruct r as [e|[]]; simpl.
    + split_and!.
      * exact (Hk (localized_files_subseteq w)).
      * intros g Hg. by rewrite Hf.
      * eexists. split; [rewrite Ht; simpl; by rewrite <- app_assoc|].
        intros p res o c [Hev|Hev]%elem_of_app; [by destruct (Hstart _ _ _ _ _ Hev)|].
        by apply Hw in Hev.
    + split_and!.
      * exact (Hk (localized_files_subseteq w)).
      * intros g Hg. by rewrite Hf.
      * eexists. split; [rewrite Ht; simpl; by rewrite <- !app_assoc|].
        intros p res o c [Hev|[Hev|Hev]%elem_of_app]%elem_of_app.
        -- by destruct (Hstart _ _ _ _ _ Hev).
        -- by apply Hw in Hev.
        -- by apply list_elem_of_singleton in Hev.
  - simpl. split_and!; [done|done|]. eexists. split; [done|].
    intros p res o c Hev. exfalso. revert Hev. apply no_writes_logs.
    repeat apply logs_only_cons. apply logs_only_nil.
Qed.

End Files.

(** ** One file: the branches the batches do not take *)

Section Branches.

Context {xml : XmlLibrary} {PS : Type}.
Variable provider : PS -> odict string -> string -> answer * PS.
Variable self : config.

Local Abbreviation world := (world PS).

(** X9.  A localized file that lacks no key to translate (every base key
    it lacks matches a no-translate pattern) is only rewritten, whatever
    the batch size is: no request is sent and the provider's state is not
    touched; the file is written from the entries it had and the base
    values of the keys it lacked, in the base order and under the comment
    it had (or, when these cannot be serialised, it keeps its content and
    the call raises). *)
Theorem file_without_keys_to_translate_is_only_rewritten base_resources
    base_resource_keys filename (w : world) :
  is_Some (Re.re_match LOCALIZED_NAME_RE filename) →
  (∀ k, k ∈ Od.keys base_resources →
     resources_of (Od.get (files w) filename) !! k = None →
     no_translate k = true) →
  let existing := resources_of (Od.get (files w) filename) in
  let label := language_comment_of (Od.get (files w) filename) in
  ∃ all logs m1 m2,
    logs_only logs
    ∧ (∀ k, all !! k = kept_value base_resources existing k)
    ∧ process_file provider self base_resources base_resource_keys filename w
      = match resx_text all base_resource_keys label with
        | inr text =>
            (inr tt,
             World (Od.set (files w) filename text) (oracle w)
                   (trace w ++ logs
                    ++ [Log m1; WriteResx filename all base_resource_keys label;
                        Log m2]))
        | inl e => (inl e, add_events w (logs ++ [Log m1]))
        end.
Proof.
  intros [m Hm] Hall existing label.
  unfold process_file. rewrite Hm.
  rewrite bind_eq, get_language_comment_eq.
  rewrite bind_eq, log_eq. rewrite bind_eq.
  match goal with
  | |- context [_read_resx filename ?w0] =>
      destruct (read_resx_eq filename w0) as (rlogs & Hr & Hrl)
  end.
  rewrite Hr. rewrite files_add_events. fold existing. fold label.
  set (missing := filter (λ key : string, existing !! key = None)
                         (Od.keys base_resources)).
  assert (∀ k, k ∈ missing ↔ existing !! k = None ∧ k ∈ Od.keys base_resources)
    as Hmissing.
  { intros k. unfold missing. by rewrite list_elem_of_filter. }
  destruct missing as [|k0 miss] eqn:Hmiss.
  - (* no missing key *)
    rewrite bind_eq, log_eq, bind_eq, write_resx_eq.
    eexists (PStr <$> existing), (Log (MsgProcessing filename _) :: rlogs),
      MsgNoMissing, MsgOrderSynchronized.
    split_and!; [by apply logs_only_cons| |].
    + intros k. unfold kept_value. rewrite lookup_fmap.
      destruct (existing !! k) as [s|] eqn:E; [done|]. simpl.
      destruct (no_translate k); [|done].
      destruct (Od.get base_resources k) as [v|] eqn:Hv; [|done].
      assert (k ∈ @nil string) as ?%elem_of_nil; [|done].
      apply Hmissing. split; [done|]. apply OdFacts.elem_keys_get. eauto.
    + destruct (resx_text (PStr <$> existing) base_resource_keys label) as [e|text].
      * unfold add_events. simpl. f_equal. f_equal.
        by repeat (rewrite <- app_assoc; simpl).
      * rewrite log_eq. unfold add_events. simpl. f_equal. f_equal.
        by repeat (rewrite <- app_assoc; simpl).
  - rewrite <- Hmiss in *. clear k0 miss Hmiss.
    rewrite bind_eq, log_eq, bind_eq.
    match goal with
    | |- context [classify_missing ?b ?ms ?a ?w0] =>
        destruct (classify_missing_spec b ms a w0)
          as (all_pre & tr & clogs & Hc & Hcl & Hnd & Hkeys & _ & Hcopy & Hkeep)
    end.
    { intros x Hx. by apply Hmissing. }
    rewrite Hc.
    assert (tr = []) as ->.
    { destruct tr as [|[k v] tr]; [done|]. exfalso.
      assert (k ∈ Od.keys ((k, v) :: tr)) as Hin by left.
      apply Hkeys in Hin as [[Hnone Hbase]%Hmissing Hno].
      rewrite (Hall k Hbase Hnone) in Hno. done. }
    rewrite bind_eq. unfold translate_batches, ret at 1. cbv beta iota.
    rewrite bind_eq, log_eq, bind_eq, write_resx_eq.
    eexists all_pre,
      (Log (MsgProcessing filename _) :: rlogs
       ++ Log (MsgFoundMissing (length missing)) :: clogs),
      MsgSaving, (MsgUpdated filename).
    split_and!.
    + apply logs_only_cons, logs_only_app; [done|]. by apply logs_only_cons.
    + intros k. unfold kept_value.
      destruct (existing !! k) as [s|] eqn:E.
      { rewrite Hkeep, lookup_fmap, E; [done|].
        intros [[? _]%Hmissing _]. congruence. }
      destruct (no_translate k) eqn:Hno.
      * destruct (decide (k ∈ Od.keys base_resources)) as [Hin|Hnot].
        -- apply Hcopy; [by apply Hmissing|done].
        -- rewrite Hkeep, lookup_fmap, E by (intros [[_ ?]%Hmissing _]; done).
           destruct (Od.get base_resources k) as [v|] eqn:Hv; [|done].
           destruct Hnot. apply OdFacts.elem_keys_get. eauto.
      * rewrite Hkeep, lookup_fmap, E; [done|]. intros [_ ?]. congruence.
    + destruct (resx_text all_pre base_resource_keys label) as [e|text].
      * rewrite !add_events_app. unfold add_events. simpl. f_equal. f_equal.
        by repeat (rewrite <- app_assoc; simpl).
      * rewrite log_eq, !add_events_app. unfold add_events. simpl. f_equal. f_equal.
        by repeat (rewrite <- app_assoc; simpl).
Qed.

Lemma translate_batches_zero to_translate lang all (w : world) :
  batch_size self = 0 → to_translate ≠ [] →
  translate_batches provider self to_translate lang all w
  = (inl ZeroDivisionError, w).
Proof.
  intros Hbs Hne. unfold translate_batches. destruct to_translate; [done|].
  rewrite bind_eq. unfold floordiv. by rewrite Hbs.
Qed.

(** X10.  With a batch size of 0 a file that misses a key to translate is
    not processed: the division for the number of batches raises
    [ZeroDivisionError] before any request is sent, and the file keeps
    its content. *)
Theorem zero_batch_size_raises base_resources base_resource_keys filename
    (w : world) k :
  batch_size self = 0 →
  is_Some (Re.re_match LOCALIZED_NAME_RE filename) →
  k ∈ Od.keys base_resources →
  resources_of (Od.get (files w) filename) !! k = None →
  no_translate k = false →
  ∃ logs,
    logs_only logs
    ∧ process_file provider self base_resources base_resource_keys filename w
      = (inl ZeroDivisionError, add_events w logs).
Proof.
  intros Hbs [m Hm] Hk Hmiss Hno.
  unfold process_file. rewrite Hm.
  rewrite bind_eq, get_language_comment_eq.
  rewrite bind_eq, log_eq. rewrite bind_eq.
  match goal with
  | |- context [_read_resx filename ?w0] =>
      destruct (read_resx_eq filename w0) as (rlogs & Hr & Hrl)
  end.
  rewrite Hr. rewrite files_add_events.
  set (existing := resources_of (Od.get (files w) filename)) in *.
  set (missing := filter (λ key : string, existing !! key = None)
                         (Od.keys base_resources)).
  assert (k ∈ missing) as Hin by (by apply list_elem_of_filter).
  destruct missing as [|k0 miss] eqn:Hmissing; [by apply elem_of_nil in Hin|].
  rewrite <- Hmissing in *. clear k0 miss Hmissing.
  rewrite bind_eq, log_eq, bind_eq.
  match goal with
  | |- context [classify_missing ?b ?ms ?a ?w0] =>
      destruct (classify_missing_spec b ms a w0)
        as (all_pre & tr & clogs & Hc & Hcl & Hnd & Hkeys & _)
  end.
  { intros x Hx. by apply list_elem_of_filter in Hx as [_ ?]. }
  rewrite Hc. rewrite bind_eq, translate_batches_zero; [|done|].
  2: { intros ->. assert (k ∈ @nil string) as ?%elem_of_nil; [|done].
       change (@nil string) with (Od.keys (@nil (string * string))).
       by apply Hkeys. }
  eexists. split; [|by rewrite !add_events_app].
  apply logs_only_cons, logs_only_app; [done|]. by apply logs_only_cons.
Qed.

(** X12.  An answer that [run] cannot use (the provider raised, or returned
    a value that is truthy and no mapping: a non-empty list or string, a
    number, [true]) ends the processing of the file with an exception,
    and the file is not rewritten. *)
Theorem unusable_answer_aborts_the_file base_resources base_resource_keys filename
    (w : world) r w' new req l a :
  process_file provider self base_resources base_resource_keys filename w = (r, w') →
  trace w' = trace w ++ new →
  Translate req l a ∈ new → usable a = false →
  (∃ e, r = inl e) ∧ files w' = files w ∧ no_writes new.
Proof.
  intros Hrun Ht Hev Hbad.
  pose proof (process_file_spec provider self base_resources base_resource_keys
                filename w) as H.
  unfold wp in H. rewrite Hrun in H. simpl in H. unfold file_outcome in H.
  destruct (Re.re_match LOCALIZED_NAME_RE filename) as [m|].
  2: { destruct H as [_ ->]. rewrite <- (app_nil_r (trace w)) in Ht at 1.
       apply app_inv_head in Ht. subst new. by apply elem_of_nil in Hev. }
  destruct H as (all_pre & tr & newp & newb & newe & Ht' & Hp & _ & _ & HW & Hcase).
  rewrite Ht in Ht'. apply app_inv_head in Ht'. subst new.
  destruct Hcase as [(e & -> & -> & Hf & _)|(all & m1 & HS & _ & Hwrite)].
  - split_and!; [by eexists|done|]. rewrite app_nil_r.
    apply no_writes_app; [by apply no_writes_logs|done].
  - exfalso.
    assert (Translate req l a ∈ newb) as Hin.
    { apply elem_of_app in Hev as [Hev|Hev]; [by destruct (Hp _ Hev)|].
      apply elem_of_app in Hev as [Hev|Hev]; [done|].
      destruct (resx_text all base_resource_keys
                  (language_comment_of (Od.get (files w) filename))).
      - destruct Hwrite as (_ & _ & ->). by apply list_elem_of_singleton in Hev.
      - destruct Hwrite as (_ & _ & m2 & ->).
        repeat (apply elem_of_cons in Hev as [Hev|Hev]; [done|]).
        by apply elem_of_nil in Hev. }
    rewrite (bs_usable _ _ _ _ HS _ _ _ Hin) in Hbad. done.
Qed.

(** X13.  What the provider is asked for one file: the target language is
    the language comment of the file, or the language code of its name
    when the file has no (or an empty) comment in its first 200
    characters; and every entry of a request is an entry of the base
    file whose key the file lacks and no no-translate pattern matches. *)
Theorem requests_hold_missing_base_texts base_resources base_resource_keys filename
    (w : world) r w' new m req l a :
  Re.re_match LOCALIZED_NAME_RE filename = Some m →
  process_file provider self base_resources base_resource_keys filename w = (r, w') →
  trace w' = trace w ++ new →
  Translate req l a ∈ new →
  l = lang_name_of (Re.group_1 m) (language_comment_of (Od.get (files w) filename))
  ∧ ∀ k v, Od.get req k = Some v →
      Od.get base_resources k = Some v
      ∧ resources_of (Od.get (files w) filename) !! k = None
      ∧ no_translate k = false.
Proof.
  intros Hm Hrun Ht Hev.
  pose proof (process_file_spec provider self base_resources base_resource_keys
                filename w) as H.
  unfold wp in H. rewrite Hrun in H. simpl in H. unfold file_outcome in H.
  rewrite Hm in H.
  destruct H as (all_pre & tr & newp & newb & newe & Ht' & Hp & Hcl & HT & HW & Hcase).
  rewrite Ht in Ht'. apply app_inv_head in Ht'. subst new.
  assert (Translate req l a ∈ newb) as Hin.
  { apply elem_of_app in Hev as [Hev|Hev]; [by destruct (Hp _ Hev)|].
    apply elem_of_app in Hev as [Hev|Hev]; [done|].
    destruct Hcase as [(e & _ & -> & _)|(all & m1 & _ & _ & Hwrite)].
    - by apply elem_of_nil in Hev.
    - destruct (resx_text all base_resource_keys
                  (language_comment_of (Od.get (files w) filename))).
      + destruct Hwrite as (_ & _ & ->). by apply list_elem_of_singleton in Hev.
      + destruct Hwrite as (_ & _ & m2 & ->).
        repeat (apply elem_of_cons in Hev as [Hev|Hev]; [done|]).
        by apply elem_of_nil in Hev. }
  destruct (bt_requests _ _ _ _ HT _ _ _ Hin) as [-> Hsub].
  split; [done|]. intros k v Hk. apply Hsub in Hk.
  split; [by eapply cl_values|].
  assert (k ∈ Od.keys tr) as Hkeys.
  { apply OdFacts.elem_keys_get. eauto. }
  by apply (cl_keys _ _ _ _ Hcl) in Hkeys as (_ & ? & ?).
Qed.



End Branches.

(** ** A negative batch size (lines 246-252 of [run]) *)

Section NegativeBatchSize.

Context {PS : Type}.
Variable provider : PS -> odict string -> string -> answer * PS.
Variable self : config.

Local Abbreviation world := (world PS).

Lemma negative_batches_are_empty (keys : list string) i :
  batch_size self < 0 → keys ≠ [] →
  i ∈ py_range ((Z.of_nat (length keys) + batch_size self - 1) / batch_size self) →
  batch_keys_of self keys i = [].
Proof.
  intros Hbs Hne Hi. unfold py_range in Hi.
  apply list_elem_of_fmap in Hi as (j & -> & Hj). apply elem_of_seq in Hj.
  set (len := Z.of_nat (length keys)) in *.
  set (num := (len + batch_size self - 1) / batch_size self) in *.
  assert (1 ≤ len) as Hlen.
  { unfold len. destruct keys; [done|]. simpl. lia. }
  assert (0 < num) as Hnum by lia.
  assert (len = 1) as Hone.
  { destruct (decide (len = 1)) as [|Hne1]; [done|]. exfalso.
    assert (num ≤ 0); [|lia].
    pose proof (Z.div_mod (len + batch_size self - 1) (batch_size self)
                  ltac:(lia)) as Hdm.
    pose proof (Z.mod_neg_bound (len + batch_size self - 1) (batch_size self)
                  ltac:(lia)) as Hmod.
    fold num in Hdm. nia. }
  assert (num = 1) as Hnum1.
  { unfold num. rewrite Hone.
    replace (1 + batch_size self - 1) with (batch_size self) by lia.
    apply Z.div_same. lia. }
  assert (j = 0%nat) as -> by lia.
  unfold batch_keys_of, py_slice, slice_index. fold len. rewrite Hone.
  change (Z.of_nat 0) with 0. rewrite Z.mul_0_l, Z.add_0_l.
  destruct (Z.ltb_spec (batch_size self) 0) as [_|?]; [|lia].
  change (0 <? 0) with false. cbv iota.
  replace (Z.to_nat (0 `max` (batch_size self + 1) - 0 `min` 1)) with 0%nat by lia.
  apply take_0.
Qed.

(** X11.  With a negative batch size the loop over the batches asks for
    nothing: every request it sends to the provider is empty. *)
Theorem negative_batch_size_requests_nothing to_translate lang all (w : world) :
  batch_size self < 0 →
  ∃ new, trace (translate_batches provider self to_translate lang all w).2
         = trace w ++ new
         ∧ ∀ req l a, Translate req l a ∈ new → req = [].
Proof.
  intros Hbs. unfold translate_batches.
  destruct to_translate as [|kv0 tr0] eqn:Htt.
  { exists []. simpl. rewrite app_nil_r. split; [done|].
    by intros ??? ?%elem_of_nil. }
  rewrite <- Htt. assert (to_translate ≠ []) as Hne by (by rewrite Htt).
  clear kv0 tr0 Htt.
  rewrite bind_eq. unfold floordiv.
  destruct (Z.eqb_spec (batch_size self) 0) as [?|_]; [lia|]. cbv beta iota.
  unfold ret at 1. cbv beta iota.
  set (num := (Z.of_nat (length (Od.keys to_translate)) + batch_size self - 1)
              / batch_size self).
  pose proof (wp_for_each
    (fun (_ : list Z) (_ : gmap string pyval) (w' : world) =>
       ∃ new, trace w' = trace w ++ new
              ∧ ∀ req l a, Translate req l a ∈ new → req = [])
    (py_range num) (translate_batch provider self to_translate lang num)
    (fun _ w' => ∃ new, trace w' = trace w ++ new
                        ∧ ∀ req l a, Translate req l a ∈ new → req = [])
    all w) as Hloop.
  unfold wp in Hloop. apply Hloop; clear Hloop.
  - exists []. rewrite app_nil_r. split; [done|]. by intros ??? ?%elem_of_nil.
  - intros done i rest all1 w1 Hl (new & Ht & Hnew).
    destruct (translate_batch_spec provider self to_translate lang num i all1 w1)
      as (req & a & logs & r & w2 & Heq & _ & Ht2 & Hlogs & Hk & _).
    rewrite Heq. simpl.
    assert (req = []) as ->.
    { destruct req as [|[k v] req]; [done|]. exfalso.
      assert (k ∈ batch_keys_of self (Od.keys to_translate) i) as Hin.
      { apply Hk. left. }
      rewrite negative_batches_are_empty in Hin; [by apply elem_of_nil in Hin|done| |].
      - unfold Od.keys. destruct to_translate; [done|done].
      - fold num. rewrite Hl. apply elem_of_app. right. left. }
    assert (∃ new', trace w2 = trace w ++ new'
                    ∧ ∀ req l a, Translate req l a ∈ new' → req = []) as Hres.
    { eexists. split; [rewrite Ht2, Ht; by rewrite <- app_assoc|].
      intros req' l' a' [Hev|Hev]%elem_of_app; [by eapply Hnew|].
      apply elem_of_cons in Hev as [Hev|Hev]; [done|].
      apply elem_of_cons in Hev as [Hev|Hev]; [by injection Hev|].
      by destruct (Hlogs _ Hev). }
    by destruct r.
  - by intros all1 w1 H.
Qed.

End NegativeBatchSize.

(** ** [main] (lines 275-297)

    [argv] is what [parser.parse_args()] finds on the command line (an
    option that is not given is [None]); [environ] is [os.environ];
    [abspath] is [os.path.abspath] and [default_i18n_path] the default of
    [--i18n-path].  [exit(1)] ends [main] with the status 1, after the two
    lines [main] logs itself. *)

Record command_line := CommandLine {
  opt_base_url : option string;
  opt_api_key : option string;
  opt_model_id : option string;
  opt_batch_size : option Z;
  opt_max_retries : option Z;
  opt_i18n_path : option string
}.

Inductive main_line := LineRequired | LineProvide.

Inductive ended :=
| Returned
| Exited (status : Z) (logged : list main_line).

(** [a or b] *)
Definition py_or (a b : option string) : option string :=
  match a with
  | Some s => if Str.nonempty s then a else b
  | None => b
  end.

(** [bool(v)] of a string or [None] *)
Definition is_set (v : option string) : bool :=
  match v with
  | Some s => Str.nonempty s
  | None => false
  end.

Section Main.

Context {xml : XmlLibrary} {PS : Type}.
Variable create : PS -> odict string -> string -> OpenAI.completion * PS.
Variable json_loads : string -> option pyval.
Variable abspath : string -> string.
Variable default_i18n_path : string.

(** the value of an option: the command line's, else the default *)
Definition option_value {A} (given : option A) (default : A) : A :=
  match given with
  | Some v => v
  | None => default
  end.

(** [args.base_url], [args.api_key] and [args.model_id] *)
Definition args_base_url (environ : gmap string string) (argv : command_line)
  : option string :=
  option_value (Some <$> opt_base_url argv)
               (py_or (environ !! "OPENAI_API_BASE") (environ !! "BASE_URL")).

Definition args_api_key (environ : gmap string string) (argv : command_line)
  : option string :=
  option_value (Some <$> opt_api_key argv) (environ !! "OPENAI_API_KEY").

Definition args_model_id (environ : gmap string string) (argv : command_line)
  : option string :=
  option_value (Some <$> opt_model_id argv) (environ !! "MODEL_ID").

(** [I18nSync(args)] *)
Definition I18nSync_init (environ : gmap string string) (argv : command_line)
  : config :=
  Config (default "" (args_base_url environ argv))
         (default "" (args_model_id environ argv))
         (option_value (opt_batch_size argv) 20)
         (option_value (opt_max_retries argv) 3)
         (abspath (option_value (opt_i18n_path argv) default_i18n_path)).

Definition main (environ : gmap string string) (argv : command_line)
    (w : world PS) : (exn + ended) * world PS :=
  if negb (forallb is_set [args_base_url environ argv; args_api_key environ argv;
                           args_model_id environ argv])
  then (inr (Exited 1 [LineRequired; LineProvide]), w)
  else
    match I18nSync_run create json_loads (I18nSync_init environ argv) w with
    | (inr _, w') => (inr Returned, w')
    | (inl e, w') => (inl e, w')
    end.

(** X15.  [main] exits with status 1 exactly when the base URL, the API key
    or the model id is neither given on the command line nor (for an
    option that is not given) set to a non-empty string in the
    environment, and then it has done nothing but log its two lines: no
    file is read or written and the provider is not called.  An empty
    [OPENAI_API_BASE] gives way to [BASE_URL]; an option given as the
    empty string is not replaced by the environment. *)
Theorem main_exits_without_its_settings environ argv (w : world PS) :
  (∃ logged w', main environ argv w = (inr (Exited 1 logged), w'))
  ↔ is_set (match opt_base_url argv with
            | Some s => Some s
            | None =>
                if is_set (environ !! "OPENAI_API_BASE")
                then environ !! "OPENAI_API_BASE" else environ !! "BASE_URL"
            end)
    && is_set (match opt_api_key argv with
               | Some s => Some s
               | None => environ !! "OPENAI_API_KEY"
               end)
    && is_set (match opt_model_id argv with
               | Some s => Some s
               | None => environ !! "MODEL_ID"
               end) = false
    ∧ main environ argv w = (inr (Exited 1 [LineRequired; LineProvide]), w).
Proof.
  assert (args_base_url environ argv
          = match opt_base_url argv with
            | Some s => Some s
            | None =>
                if is_set (environ !! "OPENAI_API_BASE")
                then environ !! "OPENAI_API_BASE" else environ !! "BASE_URL"
            end) as <-.
  { unfold args_base_url, option_value, py_or.
    destruct (opt_base_url argv); [done|]. simpl.
    by destruct (environ !! "OPENAI_API_BASE"). }
  assert (args_api_key environ argv
          = match opt_api_key argv with
            | Some s => Some s
            | None => environ !! "OPENAI_API_KEY"
            end) as <-.
  { unfold args_api_key, option_value. by destruct (opt_api_key argv). }
  assert (args_model_id environ argv
          = match opt_model_id argv with
            | Some s => Some s
            | None => environ !! "MODEL_ID"
            end) as <-.
  { unfold args_model_id, option_value. by destruct (opt_model_id argv). }
  unfold main. cbn [forallb]. rewrite andb_true_r, andb_assoc.
  destruct (is_set (args_base_url environ argv) && is_set (args_api_key environ argv)
            && is_set (args_model_id environ argv)); cbn [negb].
  - split; [|by intros [? _]]. intros (logged & w' & H).
    by destruct (I18nSync_run _ _ _ _) as [[?|?] ?].
  - split; [|by eauto]. done.
Qed.

End Main.

(** ** The no-translate patterns (lines 39-41 and 238) *)

Section NoTranslate.
Import StrFacts ReFacts.

(** X16.  With the one pattern of [NO_TRANSLATE_PATTERNS], which [re.match]
    anchors at the start of the key only, a key counts as not to be
    translated exactly when it starts with
    [SettingsSelectionItem_Common_Language_], whatever follows. *)
Theorem no_translate_is_a_prefix_test (key : string) :
  no_translate key = Str.startswith key "SettingsSelectionItem_Common_Language_".
Proof.
  unfold no_translate, NO_TRANSLATE_PATTERNS, Str.startswith. cbn [existsb].
  rewrite orb_false_r. unfold Re.re_match. rewrite cat_eq.
  set (p := "SettingsSelectionItem_Common_Language_").
  destruct (Str.prefixb (Str.chars p) (Str.chars key)) eqn:E.
  - apply bool_decide_eq_true. apply prefixb_spec in E as [l ->].
    rewrite lit_hit. csimpl. rewrite app_nil_r.
    cbn [Re.rx_run]. unfold Re.rep_counts. rewrite ?Nat.sub_0_r.
    destruct (rev (seq 1 (Re.run_length Re.Dot l))); by eexists.
  - apply bool_decide_eq_false. rewrite lit_miss by done. by intros [? ?].
Qed.

End NoTranslate.

(** ** The further properties at concrete inputs *)


Lemma language_code_of_file_name_witness :
  "zh-CN.resx.old" ≠ "" ∧ single_line "zh-CN.resx.old" = true
  ∧ Str.startswith "Strings.zh-CN.resx.old.resx" "Strings."
    && Str.endswith "Strings.zh-CN.resx.old.resx" ".resx" = true
  ∧ ∃ m, Re.re_match LOCALIZED_NAME_RE "Strings.zh-CN.resx.old.resx" = Some m
         ∧ Re.group_1 m = "zh-CN.resx.old"
         ∧ Re.rest m = [].
Proof.
  assert ("zh-CN.resx.old" ≠ "") as Hne by discriminate.
  assert (single_line "zh-CN.resx.old" = true) as Hline by (vm_compute; reflexivity).
  split_and!; [exact Hne|exact Hline|..];
    apply (language_code_of_file_name "zh-CN.resx.old" Hne Hline).
Defined.

(** a French file written under the label "Francais" *)
Definition written_french : (exn + unit) * world unit :=
  _write_resx french (PStr <$> ({["A" := "Salut"]} : gmap string string)) ["A"; "B"]
    (Some "Francais") (World [(french, "")] tt []).

Lemma written_language_comment_is_read_back_witness :
  trimmed "Francais" = true ∧ single_line "Francais" = true
  ∧ carriage_free "Francais" = true
  ∧ contains "Francais" "-->" = false
  ∧ (String.length "Francais" ≤ 152)%nat
  ∧ _get_language_comment french written_french.2
    = (inr (Some "Francais"), written_french.2).
Proof.
  assert (trimmed "Francais" = true) as H1 by (vm_compute; reflexivity).
  assert (single_line "Francais" = true) as H2 by (vm_compute; reflexivity).
  assert (carriage_free "Francais" = true) as Hcr by (vm_compute; reflexivity).
  assert (contains "Francais" "-->" = false) as H3 by (vm_compute; reflexivity).
  assert (String.length "Francais" ≤ 152)%nat as H4 by (vm_compute; lia).
  split_and!; [exact H1|exact H2|exact Hcr|exact H3|exact H4|].
  apply (written_language_comment_is_read_back french
           (PStr <$> ({["A" := "Salut"]} : gmap string string)) ["A"; "B"]
           "Francais" (World [(french, "")] tt []) written_french.2 H1 H2 Hcr H3 H4).
  vm_compute. reflexivity.
Defined.

(** the same file written under the label of 160 characters *)
Definition written_long : (exn + unit) * world unit :=
  _write_resx french (PStr <$> ({["A" := "Salut"]} : gmap string string)) ["A"; "B"]
    (Some long_label) (World [(french, "")] tt []).

Lemma long_language_comment_is_not_read_back_witness :
  carriage_free long_label = true
  ∧ contains long_label "-->" = false
  ∧ (152 < String.length long_label)%nat
  ∧ _get_language_comment french written_long.2 = (inr None, written_long.2).
Proof.
  assert (carriage_free long_label = true) as Hcr by (vm_compute; reflexivity).
  assert (contains long_label "-->" = false) as H1 by (vm_compute; reflexivity).
  assert (152 < String.length long_label)%nat as H2 by (vm_compute; lia).
  split_and!; [exact Hcr|exact H1|exact H2|].
  apply (long_language_comment_is_not_read_back french
           (PStr <$> ({["A" := "Salut"]} : gmap string string)) ["A"; "B"]
           long_label (World [(french, "")] tt []) written_long.2 Hcr H1 H2).
  vm_compute. reflexivity.
Defined.

(** a label with a carriage return in it, and a label of 153 characters
    that starts with ten pairs of carriage return and line feed *)
Definition label_with_return : string :=
  "a" +:+ String Str.carriage_return "b".

Definition label_with_line_ends : string :=
  Str.text (concat (replicate 10 [Str.carriage_return; Str.newline])
            ++ replicate 133 (ascii_of_nat 120)).

Definition written_under (label : string) : (exn + unit) * world unit :=
  _write_resx french (PStr <$> ({["A" := "Salut"]} : gmap string string)) ["A"; "B"]
    (Some label) (World [(french, "")] tt []).

(** The carriage returns matter.  The first label is trimmed, has no line
    feed and is short, and is not read back: its carriage return is read
    as a line feed, which [.] does not match.  The second label has 153
    characters, and is read back, without its line ends: each of its pairs
    is read as one character, so that the comment ends within the 200
    characters. *)
Example carriage_returns_change_what_is_read_back :
  trimmed label_with_return = true
  ∧ single_line label_with_return = true
  ∧ contains label_with_return "-->" = false
  ∧ _get_language_comment french (written_under label_with_return).2
    = (inr None, (written_under label_with_return).2)
  ∧ String.length label_with_line_ends = 153%nat
  ∧ contains label_with_line_ends "-->" = false
  ∧ _get_language_comment french (written_under label_with_line_ends).2
    = (inr (Some (Str.text (replicate 133 (ascii_of_nat 120)))),
       (written_under label_with_line_ends).2).
Proof. vm_compute. split_and!; reflexivity. Qed.

(** An answer that gives the number 0 for B is written with an empty
    [value] element for B; the number 5 makes the write raise. *)
Example falsy_values_are_written_empty :
  resx_text ({["A" := PStr "Salut"; "B" := PInt 0]} : gmap string pyval)
    ["A"; "B"] None
  = resx_text ({["A" := PStr "Salut"; "B" := PStr ""]} : gmap string pyval)
      ["A"; "B"] None
  ∧ (_write_resx french ({["A" := PStr "Salut"; "B" := PInt 0]} : gmap string pyval)
       ["A"; "B"] None (World [(french, "")] tt [])).1
    = inr tt
  ∧ _write_resx french ({["A" := PStr "Salut"; "B" := PInt 5]} : gmap string pyval)
      ["A"; "B"] None (World [(french, "")] tt [])
    = (inl TypeError, World [(french, "")] tt []).
Proof. vm_compute. split_and!; reflexivity. Qed.

(** an answer in a fence, with white space around and inside *)
Definition fenced_content : string :=
  " " +:+ (backtick3 +:+ "json" +:+ Str.nl +:+ "{}" +:+ Str.nl +:+ backtick3)
  +:+ Str.nl.

Definition fenced_create (st : unit) (req : odict string) (lang : string)
  : OpenAI.completion * unit :=
  (OpenAI.Response [Some fenced_content], st).

(** a [json.loads] that knows the empty object only *)
Definition loads_empty_object (s : string) : option pyval :=
  if String.eqb s "{}" then Some (PDict []) else None.

Lemma fenced_answer_is_unwrapped_witness :
  all_space " " = true ∧ all_space Str.nl = true
  ∧ trimmed "{}" = true ∧ contains "{}" backtick = false
  ∧ OpenAI._invoke_ai_translation fenced_create loads_empty_object (settings 20)
      tt [("A", "Hi")] "fr"
    = (Answer [] (inr (PDict [])), tt).
Proof.
  assert (all_space " " = true) as H0 by (vm_compute; reflexivity).
  assert (all_space Str.nl = true) as H1 by (vm_compute; reflexivity).
  assert (trimmed "{}" = true) as H2 by (vm_compute; reflexivity).
  assert (contains "{}" backtick = false) as H3 by (vm_compute; reflexivity).
  split_and!; [exact H0|exact H1|exact H2|exact H3|].
  apply (fenced_answer_is_unwrapped fenced_create loads_empty_object (settings 20)
           tt [("A", "Hi")] "fr" tt " " Str.nl Str.nl Str.nl "{}" []
           H0 H1 H1 H1 H2 H3 eq_refl).
Defined.

(** a directory without the base file *)
Definition dir_no_base : world unit :=
  World [(french, resx (Some "Francais") [("A", "Salut")])] tt [].

Lemma missing_base_file_stops_the_run_witness :
  Od.mem (files dir_no_base) base_resx_path = false
  ∧ run echo (settings 20) dir_no_base
    = (inr tt,
       World (files dir_no_base) tt
             [Log MsgBanner; Log (MsgBaseUrl "https://api.example/v1");
              Log (MsgModel "model"); Log (MsgI18nPath "I18N");
              Log (MsgBaseNotFound base_resx_path)]).
Proof.
  assert (Od.mem (files dir_no_base) base_resx_path = false) as H
    by (vm_compute; reflexivity).
  split; [exact H|].
  exact (missing_base_file_stops_the_run echo (settings 20) dir_no_base H).
Defined.

Definition two_keys : odict string := [("A", "Hi"); ("B", "Bye")].

(** the French file lacks the language name only *)
Definition dir_language_only : world unit :=
  World [(base_resx_path, resx None scenario_base);
         (french, resx (Some "Francais") [("A", "Salut"); ("B", "Au revoir")])] tt [].

Lemma file_without_keys_to_translate_is_only_rewritten_witness :
  is_Some (Re.re_match LOCALIZED_NAME_RE french)
  ∧ (∀ k, k ∈ Od.keys scenario_base →
       resources_of (Od.get (files dir_language_only) french) !! k = None →
       no_translate k = true)
  ∧ ∃ all logs m1 m2,
      logs_only logs
      ∧ (∀ k, all !! k
              = kept_value scenario_base
                  (resources_of (Od.get (files dir_language_only) french)) k)
      ∧ process_file echo (settings 0) scenario_base (Od.keys scenario_base) french
          dir_language_only
        = match resx_text all (Od.keys scenario_base)
                  (language_comment_of (Od.get (files dir_language_only) french)) with
          | inr text =>
              (inr tt,
               World (Od.set (files dir_language_only) french text)
                     (oracle dir_language_only)
                     (trace dir_language_only ++ logs
                      ++ [Log m1;
                          WriteResx french all (Od.keys scenario_base)
                            (language_comment_of
                               (Od.get (files dir_language_only) french));
                          Log m2]))
          | inl e => (inl e, add_events dir_language_only (logs ++ [Log m1]))
          end.
Proof.
  assert (is_Some (Re.re_match LOCALIZED_NAME_RE french)) as Hm.
  { vm_compute. eexists. reflexivity. }
  assert (∀ k, k ∈ Od.keys scenario_base →
            resources_of (Od.get (files dir_language_only) french) !! k = None →
            no_translate k = true) as Hall.
  { intros k Hk. apply list_elem_of_In in Hk. simpl in Hk.
    destruct Hk as [<-|[<-|[<-|[]]]]; vm_compute; intros H;
      first [reflexivity | discriminate H]. }
  split_and!; [exact Hm|exact Hall|].
  exact (file_without_keys_to_translate_is_only_rewritten echo (settings 0)
           scenario_base (Od.keys scenario_base) french dir_language_only Hm Hall).
Defined.

(** with the batch size 0 the run ends normally and the language name is
    copied *)
Example language_name_is_copied_with_any_batch_size :
  let out := run echo (settings 0) dir_language_only in
  out.1 = inr tt
  ∧ answered (trace out.2) = []
  ∧ Od.get (files out.2) french
    = Some (resx (Some "Francais")
              [("A", "Salut"); ("B", "Au revoir"); (language_key, "Zhongwen")]).
Proof. vm_compute. split_and!; reflexivity. Qed.

Lemma zero_batch_size_raises_witness :
  batch_size (settings 0) = 0
  ∧ is_Some (Re.re_match LOCALIZED_NAME_RE french)
  ∧ "A" ∈ Od.keys two_keys
  ∧ resources_of (Od.get (files (dir_two_batches [])) french) !! "A" = None
  ∧ no_translate "A" = false
  ∧ ∃ logs,
      logs_only logs
      ∧ process_file scripted (settings 0) two_keys (Od.keys two_keys) french
          (dir_two_batches [])
        = (inl ZeroDivisionError, add_events (dir_two_batches []) logs).
Proof.
  assert (is_Some (Re.re_match LOCALIZED_NAME_RE french)) as Hm.
  { vm_compute. eexists. reflexivity. }
  assert ("A" ∈ Od.keys two_keys) as Hk by left.
  assert (resources_of (Od.get (files (dir_two_batches [])) french) !! "A" = None)
    as Hmiss by (vm_compute; reflexivity).
  assert (no_translate "A" = false) as Hno by (vm_compute; reflexivity).
  split_and!; [reflexivity|exact Hm|exact Hk|exact Hmiss|exact Hno|].
  exact (zero_batch_size_raises scripted (settings 0) two_keys (Od.keys two_keys)
           french (dir_two_batches []) "A" eq_refl Hm Hk Hmiss Hno).
Defined.

(** the provider answers with a list *)
Definition list_answer_run : (exn + unit) * world (list answer) :=
  process_file scripted (settings 20) two_keys (Od.keys two_keys) french
    (dir_two_batches [Answer [] (inr (PList [PInt 1]))]).

Lemma unusable_answer_aborts_the_file_witness :
  Translate two_keys "Francais" (inr (PList [PInt 1])) ∈ trace list_answer_run.2
  ∧ usable (inr (PList [PInt 1])) = false
  ∧ (∃ e, list_answer_run.1 = inl e)
  ∧ files list_answer_run.2
    = files (dir_two_batches [Answer [] (inr (PList [PInt 1]))])
  ∧ no_writes (trace list_answer_run.2).
Proof.
  assert (Translate two_keys "Francais" (inr (PList [PInt 1]))
          ∈ trace list_answer_run.2) as Hev.
  { apply list_elem_of_In. vm_compute.
    repeat first [left; reflexivity | right]. }
  assert (usable (inr (PList [PInt 1])) = false) as Hbad by reflexivity.
  split_and!; [exact Hev|exact Hbad|..];
    apply (unusable_answer_aborts_the_file scripted (settings 20) two_keys
             (Od.keys two_keys) french
             (dir_two_batches [Answer [] (inr (PList [PInt 1]))])
             list_answer_run.1 list_answer_run.2 (trace list_answer_run.2)
             two_keys "Francais" (inr (PList [PInt 1]))
             (surjective_pairing _) eq_refl Hev Hbad).
Defined.

Definition french_match : Re.candidate :=
  Re.Cand (Str.chars french) [] (Some (Str.chars "fr")).

Lemma requests_hold_missing_base_texts_witness :
  Re.re_match LOCALIZED_NAME_RE french = Some french_match
  ∧ Translate [("B", "Bye")] "Francais"
      (inr (PDict [("B", PStr "Au revoir"); ("A", PStr "overwritten");
                   ("Z", PStr "unsolicited")]))
    ∈ trace scenario_run.2
  ∧ "Francais"
    = lang_name_of (Re.group_1 french_match)
        (language_comment_of (Od.get (files scenario) french))
  ∧ ∀ k v, Od.get [("B", "Bye")] k = Some v →
      Od.get scenario_base k = Some v
      ∧ resources_of (Od.get (files scenario) french) !! k = None
      ∧ no_translate k = false.
Proof.
  assert (Re.re_match LOCALIZED_NAME_RE french = Some french_match) as Hm
    by (vm_compute; reflexivity).
  assert (Translate [("B", "Bye")] "Francais"
            (inr (PDict [("B", PStr "Au revoir"); ("A", PStr "overwritten");
                         ("Z", PStr "unsolicited")]))
          ∈ trace scenario_run.2) as Hev.
  { apply list_elem_of_In. vm_compute.
    repeat first [left; reflexivity | right]. }
  split_and!; [exact Hm|exact Hev|..];
    apply (requests_hold_missing_base_texts scripted (settings 20) scenario_base
             (Od.keys scenario_base) french scenario scenario_run.1 scenario_run.2
             (trace scenario_run.2) french_match [("B", "Bye")] "Francais" _
             Hm (surjective_pairing _) scenario_run_trace Hev).
Defined.





Lemma negative_batch_size_requests_nothing_witness :
  batch_size (settings (-3)) < 0
  ∧ ∃ new,
      trace (translate_batches scripted (settings (-3)) [("A", "Hi")] "fr" ∅
               (World [] [mapping [("A", "Salut")]] [])).2
      = [] ++ new
      ∧ ∀ req l a, Translate req l a ∈ new → req = [].
Proof.
  assert (batch_size (settings (-3)) < 0) as H by (vm_compute; reflexivity).
  split; [exact H|].
  exact (negative_batch_size_requests_nothing scripted (settings (-3))
           [("A", "Hi")] "fr" ∅ (World [] [mapping [("A", "Salut")]] []) H).
Defined.

(** the single key and the negative batch size: one request, empty, and
    the answer to it is taken all the same *)
Example negative_batch_size_outcome :
  let out := translate_batches scripted (settings (-3)) [("A", "Hi")] "fr" ∅
               (World [] [mapping [("A", "Salut")]] []) in
  answered (trace out.2) = [([], inr (PDict [("A", PStr "Salut")]))]
  ∧ out.1 = inr {["A" := PStr "Salut"]}.
Proof. vm_compute. split; reflexivity. Qed.
